(** * Crawl-and-dedup pipeline of the FindLaw / eLitigation scrapers

    Shallow embedding of the ingest drivers of the repository:
      - us/caselaw_index.js        (modules [UsCaselaw], [UsCaselawTracked])
      - us/acts_index.js           (modules [UsActs], [UsActsWriter],
                                    [UsActsTables], [UsActsDriver])
      - singapore/caselaw_index.js (module [Singapore])
      - utils/cronTracker.js       (module [CronTracker])
    The drivers are asynchronous JavaScript talking to two external
    collaborators, the HTTP layer ([fetch]) and the Supabase store.  Both are
    modelled by an environment [Env] of oracles indexed by a logical clock;
    the program itself runs in a state-and-exception monad over a [World]
    made of the store contents, the clock and the trace of observable
    events.  [Promise.all] over a mapped async function is run in array
    order: the properties below only use the barrier it provides.

    us/caselaw_index.js holds two copies of its driver; the second adds the
    job-run bookkeeping of utils/cronTracker.js and a cap on the number of
    sitemaps, and is otherwise the first, which is the one embedded in
    [UsCaselaw]; the second is embedded further down, with the tracker, in
    [CronTracker] and [UsCaselawTracked].
    [console.log] of an object is recorded by a short tag and the URL or id
    of the object. *)

From Stdlib Require Import String Ascii List Arith Bool Lia.
From Stdlib Require DecimalString.
Import ListNotations.
Local Open Scope string_scope.
Local Open Scope nat_scope.
Local Open Scope list_scope.

Set Implicit Arguments.
Set Warnings "-abstract-large-number".

(** String concatenation, as in template literals. *)
Infix "+++" := String.append (at level 60, right associativity).

(* ================================================================= *)
(** ** JavaScript strings *)

Module Js.

(** White space removed by [String.prototype.trim], restricted to the
    one-byte code points. *)
Definition is_white_space (c : ascii) : bool :=
  let n := nat_of_ascii c in
  (n =? 9) || (n =? 10) || (n =? 11) || (n =? 12) || (n =? 13) || (n =? 32).

Fixpoint trimStart (s : string) : string :=
  match s with
  | EmptyString => EmptyString
  | String c r => if is_white_space c then trimStart r else s
  end.

Fixpoint trimEnd (s : string) : string :=
  match s with
  | EmptyString => EmptyString
  | String c r =>
      match trimEnd r with
      | EmptyString =>
          if is_white_space c then EmptyString else String c EmptyString
      | r' => String c r'
      end
  end.

Definition trim (s : string) : string := trimEnd (trimStart s).

(** [s.trim().length == 0] *)
Definition trims_to_empty (s : string) : bool := String.length (trim s) =? 0.

(** A string made of white space only (the empty string included). *)
Fixpoint whitespace_only (s : string) : bool :=
  match s with
  | EmptyString => true
  | String c r => is_white_space c && whitespace_only r
  end.

(** Truthiness of a possibly undefined string: [undefined] and [''] are
    falsy. *)
Definition truthy (v : option string) : bool :=
  match v with
  | None => false
  | Some s => negb (String.length s =? 0)
  end.

(** [encodeURIComponent] on byte strings. *)
Definition unreserved (c : ascii) : bool :=
  let n := nat_of_ascii c in
  ((48 <=? n) && (n <=? 57)) || ((65 <=? n) && (n <=? 90))
  || ((97 <=? n) && (n <=? 122))
  || existsb (Nat.eqb n) [45; 95; 46; 33; 126; 42; 39; 40; 41].

Definition hex_digit (n : nat) : ascii :=
  if n <? 10 then ascii_of_nat (48 + n) else ascii_of_nat (55 + n).

Fixpoint encodeURIComponent (s : string) : string :=
  match s with
  | EmptyString => EmptyString
  | String c r =>
      if unreserved c then String c (encodeURIComponent r)
      else
        let n := nat_of_ascii c in
        String "%" (String (hex_digit (n / 16))
                      (String (hex_digit (n mod 16)) (encodeURIComponent r)))
  end.

(** An [Error] object: its message and, for store errors, the PostgREST
    code. *)
Record Error := mkError { message : string; code : option string }.

Definition code_is (e : Error) (c : string) : bool :=
  match code e with
  | Some c' => String.eqb c' c
  | None => false
  end.

(** Reading property [id] of [null]. *)
Definition TypeError_null_id : Error :=
  mkError "Cannot read properties of null (reading 'id')" None.

(** Calling [trim] on [undefined]. *)
Definition TypeError_undefined_trim : Error :=
  mkError "Cannot read properties of undefined (reading 'trim')" None.

Definition SyntaxError_json : Error :=
  mkError "Unexpected token in JSON" None.

(** [for ... of] over a value that is not an array. *)
Definition TypeError_not_iterable : Error :=
  mkError "siteMapUrls is not iterable" None.

End Js.

(* ================================================================= *)
(** ** Data model *)

(** A scraped document as the workers return it, and as the drivers pass it
    on ([{ ...data, url }]): every property is a string or is absent. *)
Record ScrapeObj := mkScrape {
  court_name : option string;
  case_name : option string;
  case_no : option string;
  date : option string;
  case_text : option string;
  citation : option string;
  status : option string;
  error : option string;
  url : option string
}.

(** A row of [caselaw_us] / [caselaw_singapore]. *)
Record CaseRow := mkCaseRow {
  id : nat;
  row_court_name : option string;
  row_case_name : option string;
  row_case_no : option string;
  row_date : option string;
  row_case_text : option string;
  row_citation : option string;
  row_country : string
}.

(** A row of the locator ledger [caselaw_scraping_urls]; the
    [processing_date] column is a wall-clock stamp and is left out. *)
Record LedgerRow := mkLedgerRow {
  l_url : string;
  l_case_id : option nat;
  l_processed : bool;
  l_status : string;
  l_error_message : option string;
  l_country : option string
}.

(** The object given to [upsert]: absent properties keep the stored value of
    an existing row and are NULL in a new one. *)
Record LedgerPayload := mkLedgerPayload {
  p_url : string;
  p_case_id : option nat;
  p_processed : bool;
  p_status : string;
  p_error_message : option string;
  p_country : option string
}.

(** A row of [sections]; [additional.act_identifier] is the only column the
    existence check reads. *)
Record SectionRow := mkSectionRow {
  section_id : nat;
  sec_act_id : nat;
  section_title : option string;
  section_content : option string;
  original_title : option string;
  act_identifier : option string
}.

Record DB := mkDB {
  caselaw_us : list CaseRow;
  caselaw_singapore : list CaseRow;
  caselaw_scraping_urls : list LedgerRow;
  sections : list SectionRow;
  next_id : nat
}.

Definition empty_db : DB := mkDB [] [] [] [] 1.

(* ================================================================= *)
(** ** HTTP and store collaborators *)

Inductive Body :=
| BodyLocators (l : list string)   (* a JSON array of locators *)
| BodyDocument (o : ScrapeObj)     (* a JSON object *)
| BodyMalformed.                   (* not JSON *)

Record Response := mkResponse {
  ok : bool;
  http_status : nat;
  body : Body
}.

Inductive NetOutcome :=
| Responds (r : Response)
| NetworkError (e : Js.Error).

(** The environment: what the network answers to a GET issued at a given
    tick, and whether the store request issued at a given tick fails. *)
Record Env := mkEnv {
  net : nat -> string -> NetOutcome;
  fault : nat -> option Js.Error
}.

(** Observable events, in program order. *)
Inductive Event :=
| EvFetch (u : string)
| EvSleep (ms : nat)
| EvSelect (table key : string)
| EvInsert (table : string)
| EvUpsert (table key : string)
| EvLog (msg : string).

Record World := mkWorld {
  db : DB;
  now : nat;
  trace : list Event
}.

Definition initial_world (d : DB) : World := mkWorld d 0 [].

(* ================================================================= *)
(** ** The monad of the drivers: state and exceptions *)

Inductive Outcome (A : Type) :=
| Ret (a : A)
| Throw (e : Js.Error).
Arguments Ret {A} a.
Arguments Throw {A} e.

Definition M (A : Type) : Type := World -> Outcome A * World.

Definition ret {A} (a : A) : M A := fun w => (Ret a, w).

Definition throw {A} (e : Js.Error) : M A := fun w => (Throw e, w).

Definition bind {A B} (m : M A) (k : A -> M B) : M B :=
  fun w =>
    match m w with
    | (Ret a, w') => k a w'
    | (Throw e, w') => (Throw e, w')
    end.

(** [try { m } catch (e) { h e }] *)
Definition try_catch {A} (m : M A) (h : Js.Error -> M A) : M A :=
  fun w =>
    match m w with
    | (Ret a, w') => (Ret a, w')
    | (Throw e, w') => h e w'
    end.

Declare Scope js_scope.
Delimit Scope js_scope with js.
Notation "x <- m ;; k" := (bind m (fun x => k))
  (at level 61, m at next level, right associativity) : js_scope.
Notation "m ;;; k" := (bind m (fun _ => k))
  (at level 61, right associativity) : js_scope.
Local Open Scope js_scope.

Definition emit (e : Event) : M unit :=
  fun w => (Ret tt, mkWorld (db w) (now w) (trace w ++ [e])).

Definition tick : M nat :=
  fun w => (Ret (now w), mkWorld (db w) (S (now w)) (trace w)).

Definition get_db : M DB := fun w => (Ret (db w), w).

Definition put_db (d : DB) : M unit :=
  fun w => (Ret tt, mkWorld d (now w) (trace w)).

Definition when (b : bool) (m : M unit) : M unit := if b then m else ret tt.

Definition console_log (msg : string) : M unit := emit (EvLog msg).

Definition sleep (ms : nat) : M unit := emit (EvSleep ms).

(** [await Promise.all(xs.map(async x => f x))], and a [for ... of] loop
    whose body returns nothing. *)
Fixpoint mapM {A B} (f : A -> M B) (xs : list A) : M (list B) :=
  match xs with
  | [] => ret []
  | x :: r => y <- f x ;; ys <- mapM f r ;; ret (y :: ys)
  end.

Fixpoint forM_ {A} (f : A -> M unit) (xs : list A) : M unit :=
  match xs with
  | [] => ret tt
  | x :: r => f x ;;; forM_ f r
  end.

(** [xs.slice(i, i + n)] *)
Definition slice {A} (xs : list A) (i n : nat) : list A := firstn n (skipn i xs).

(** The batching loop [for (let i = 0; i < xs.length; i += size)]: the
    consecutive slices of a list.  [fuel] bounds the number of iterations
    ([xs.length] is always enough for a positive size). *)
Fixpoint batches_from {A} (xs : list A) (size i fuel : nat) : list (list A) :=
  match fuel with
  | 0 => []
  | S f =>
      if i <? length xs
      then slice xs i size :: batches_from xs size (i + size) f
      else []
  end.

Definition batches {A} (xs : list A) (size : nat) : list (list A) :=
  batches_from xs size 0 (length xs).

(* ================================================================= *)
(** ** The Supabase client *)

(** A response of the client, [{ data, error }]: [data] is null whenever
    [error] is not. *)
Inductive PgResult (A : Type) :=
| PgData (d : A)
| PgError (e : Js.Error).
Arguments PgData {A} d.
Arguments PgError {A} e.

Definition data_of {A} (r : PgResult (option A)) : option A :=
  match r with
  | PgData d => d
  | PgError _ => None
  end.

Definition error_of {A} (r : PgResult A) : option Js.Error :=
  match r with
  | PgData _ => None
  | PgError e => Some e
  end.

Definition is_some {A} (o : option A) : bool :=
  match o with
  | Some _ => true
  | None => false
  end.

Definition PGRST116 : Js.Error :=
  Js.mkError "JSON object requested, multiple (or no) rows returned"
             (Some "PGRST116").

(** [.maybeSingle()]: no row is not an error, several rows are. *)
Definition maybeSingle {A} (rows : list A) : PgResult (option A) :=
  match rows with
  | [] => PgData None
  | [r] => PgData (Some r)
  | _ => PgError PGRST116
  end.

(** [.single()]: anything but one row is an error. *)
Definition single {A} (rows : list A) : PgResult (option A) :=
  match rows with
  | [r] => PgData (Some r)
  | _ => PgError PGRST116
  end.

Definition opt_string_eqb (a : option string) (b : string) : bool :=
  match a with
  | Some s => String.eqb s b
  | None => false
  end.

Definition or_else {A} (a b : option A) : option A :=
  match a with
  | Some _ => a
  | None => b
  end.

(** [upsert([p], { onConflict: 'url' })] on the ledger. *)
Definition merge_ledger (p : LedgerPayload) (r : LedgerRow) : LedgerRow :=
  mkLedgerRow (l_url r)
              (or_else (p_case_id p) (l_case_id r))
              (p_processed p)
              (p_status p)
              (or_else (p_error_message p) (l_error_message r))
              (or_else (p_country p) (l_country r)).

Definition new_ledger (p : LedgerPayload) : LedgerRow :=
  mkLedgerRow (p_url p) (p_case_id p) (p_processed p) (p_status p)
              (p_error_message p) (p_country p).

Definition upsert_rows (p : LedgerPayload) (rows : list LedgerRow)
  : list LedgerRow :=
  if existsb (fun r => String.eqb (l_url r) (p_url p)) rows
  then map (fun r => if String.eqb (l_url r) (p_url p)
                     then merge_ledger p r else r) rows
  else rows ++ [new_ledger p].

Definition case_row (i : nat) (o : ScrapeObj) (country : string) : CaseRow :=
  mkCaseRow i (court_name o) (case_name o) (case_no o) (date o)
            (case_text o) (citation o) country.

Inductive CaseTable := Caselaw_us | Caselaw_singapore.

Definition table_name (t : CaseTable) : string :=
  match t with
  | Caselaw_us => "caselaw_us"
  | Caselaw_singapore => "caselaw_singapore"
  end.

Definition case_rows (t : CaseTable) (d : DB) : list CaseRow :=
  match t with
  | Caselaw_us => caselaw_us d
  | Caselaw_singapore => caselaw_singapore d
  end.

Definition add_case_row (t : CaseTable) (r : CaseRow) (d : DB) : DB :=
  match t with
  | Caselaw_us =>
      mkDB (caselaw_us d ++ [r]) (caselaw_singapore d)
           (caselaw_scraping_urls d) (sections d) (S (next_id d))
  | Caselaw_singapore =>
      mkDB (caselaw_us d) (caselaw_singapore d ++ [r])
           (caselaw_scraping_urls d) (sections d) (S (next_id d))
  end.

Definition set_ledger (l : list LedgerRow) (d : DB) : DB :=
  mkDB (caselaw_us d) (caselaw_singapore d) l (sections d) (next_id d).

Section Client.

Variable env : Env.

(** One request to the store: it is observed, takes a tick, and either
    fails as the environment says (the store is then left as it was) or
    runs on the tables. *)
Definition store_request {A} (ev : Event) (run : DB -> PgResult A * DB)
  : M (PgResult A) :=
  emit ev ;;;
  t <- tick ;;
  match fault env t with
  | Some e => ret (PgError e)
  | None =>
      d <- get_db ;;
      put_db (snd (run d)) ;;;
      ret (fst (run d))
  end.

(** [from('caselaw_scraping_urls').select('processed').eq('url', url)
    .eq('processed', true).maybeSingle()] *)
Definition select_processed (u : string) : M (PgResult (option LedgerRow)) :=
  store_request (EvSelect "caselaw_scraping_urls" u)
    (fun d =>
       (maybeSingle
          (filter (fun r => String.eqb (l_url r) u && l_processed r)
                  (caselaw_scraping_urls d)), d)).

(** [from(table).select('id').eq('citation', c).maybeSingle()] *)
Definition select_citation (t : CaseTable) (c : string)
  : M (PgResult (option CaseRow)) :=
  store_request (EvSelect (table_name t) c)
    (fun d =>
       (maybeSingle
          (filter (fun r => opt_string_eqb (row_citation r) c)
                  (case_rows t d)), d)).

(** [from(table).insert([o]).select('id').single()] *)
Definition insert_case (t : CaseTable) (o : ScrapeObj) (country : string)
  : M (PgResult (option CaseRow)) :=
  store_request (EvInsert (table_name t))
    (fun d =>
       let r := case_row (next_id d) o country in
       (PgData (Some r), add_case_row t r d)).

(** [from('caselaw_scraping_urls').upsert([p], { onConflict: 'url' })] *)
Definition upsert_ledger (p : LedgerPayload) : M (PgResult unit) :=
  store_request (EvUpsert "caselaw_scraping_urls" (p_url p))
    (fun d => (PgData tt, set_ledger (upsert_rows p (caselaw_scraping_urls d)) d)).

(** [.contains('additional', { act_identifier: k })]: an undefined [k] is
    dropped from the JSON filter, which every row then contains. *)
Definition contains_act_identifier (k : option string) (r : SectionRow) : bool :=
  match k with
  | None => true
  | Some s => opt_string_eqb (act_identifier r) s
  end.

Definition select_section (k : option string)
  : M (PgResult (option SectionRow)) :=
  store_request
    (EvSelect "sections" (match k with Some s => s | None => "undefined" end))
    (fun d => (single (filter (contains_act_identifier k) (sections d)), d)).

(* --------------------------------------------------------------- *)
(** ** HTTP *)

Definition fetch (u : string) : M Response :=
  emit (EvFetch u) ;;;
  t <- tick ;;
  match net env t u with
  | Responds r => ret r
  | NetworkError e => throw e
  end.

(** [await response.json()] *)
Definition json (r : Response) : M Body :=
  match body r with
  | BodyMalformed => throw Js.SyntaxError_json
  | b => ret b
  end.

(** What [fetchWithRetry] returns: a [Response], or the object
    [{ url, status: "error", error: "Failed after multiple retries" }]. *)
Inductive FetchResult :=
| FrResponse (r : Response)
| FrFailed (fr_url fr_status fr_error : string).

(** The loop [for (let i = 0; i < retries; i++)] of [fetchWithRetry],
    entered at [i] with [fuel = retries - i] iterations to go.  The three
    drivers carry the same copy of the function. *)
Fixpoint fetchWithRetry_from (u : string) (retries delayMs i fuel : nat)
  : M FetchResult :=
  match fuel with
  | 0 => ret (FrFailed u "error" "Failed after multiple retries")
  | S f =>
      response <- fetch u ;;
      if ok response then ret (FrResponse response)
      else
        when (i <? retries - 1) (sleep delayMs) ;;;
        fetchWithRetry_from u retries delayMs (S i) f
  end.

Definition fetchWithRetry (u : string) (retries delayMs : nat) : M FetchResult :=
  fetchWithRetry_from u retries delayMs 0 retries.

Definition default_retries : nat := 5.
Definition default_delayMs : nat := 2000.

(** ['ok' in response && response.ok] *)
Definition response_ok (r : FetchResult) : bool :=
  match r with
  | FrResponse r => ok r
  | FrFailed _ _ _ => false
  end.

End Client.

(* ================================================================= *)
(** ** Objects built by the drivers *)

Definition empty_obj : ScrapeObj :=
  mkScrape None None None None None None None None None.

(** [{ ...data, url }] for the parsed body [data]; spreading an array leaves
    no property the drivers read. *)
Definition document_of (b : Body) : ScrapeObj :=
  match b with
  | BodyDocument o => o
  | _ => empty_obj
  end.

Definition with_url (o : ScrapeObj) (u : string) : ScrapeObj :=
  mkScrape (court_name o) (case_name o) (case_no o) (date o) (case_text o)
           (citation o) (status o) (error o) (Some u).

(** [{ url, status: 'error', error: msg }] *)
Definition error_obj (u msg : string) : ScrapeObj :=
  mkScrape None None None None None None (Some "error") (Some msg) (Some u).

(** The elements of a parsed body used as an array of locators; an object
    has no [length]. *)
Definition locators_of (b : Body) : list string :=
  match b with
  | BodyLocators l => l
  | _ => []
  end.

(** The value iterated by [for ... of]: an object is not iterable. *)
Definition iterate (b : Body) : M (list string) :=
  match b with
  | BodyDocument _ => throw Js.TypeError_not_iterable
  | _ => ret (locators_of b)
  end.

(** A property interpolated in a template string. *)
Definition show (v : option string) : string :=
  match v with
  | Some s => s
  | None => "undefined"
  end.

Definition show_nat (n : nat) : string :=
  DecimalString.NilZero.string_of_uint (Nat.to_uint n).

Definition status_is_error (o : ScrapeObj) : bool :=
  opt_string_eqb (status o) "error".

(* ================================================================= *)
(** ** us/caselaw_index.js *)

Module UsCaselaw.

Record Config := mkConfig {
  maxSitemaps : nat;
  maxEntriesPerSitemap : nat;
  filterBatchSize : nat;
  cloudFlareBatchSize : nat;
  requestInterval : nat
}.

Definition CONFIG : Config := mkConfig 1 4 10000 100 0.

Definition cloudFlareUrl : string :=
  "https://codes-findlaw-scraper.tejasw.workers.dev/api".

Section Driver.

Variable env : Env.
Variable cfg : Config.

(** The [try] block of [insertCaseLaw(caseData, sourceUrl)].  The row is
    inserted with no check; [data.id] is read while the ledger row is
    built, so a failed insert ([data] null) raises a [TypeError] before
    the upsert. *)
Definition insertCaseLaw_try (caseData : ScrapeObj) (sourceUrl : string)
  : M nat :=
  r <- insert_case env Caselaw_us caseData "US" ;;
  match data_of r with
  | None => throw Js.TypeError_null_id
  | Some data =>
      u <- upsert_ledger env
             (mkLedgerPayload sourceUrl (Some (id data)) true "success"
                              None None) ;;
      when (is_some (error_of r)) (console_log "error") ;;;
      console_log ("data " +++ show_nat (id data)) ;;;
      match error_of u with
      | Some urlInsertError => throw urlInsertError
      | None => ret (id data)
      end
  end.

(** Its [catch (error)] block. *)
Definition insertCaseLaw_catch (sourceUrl : string) (error : Js.Error)
  : M nat :=
  _ <- upsert_ledger env
         (mkLedgerPayload sourceUrl None false "error"
                          (Some (Js.message error)) None) ;;
  console_log ("Error inserting case law: " +++ Js.message error) ;;;
  throw error.

Definition insertCaseLaw (caseData : ScrapeObj) (sourceUrl : string) : M nat :=
  try_catch (insertCaseLaw_try caseData sourceUrl)
            (insertCaseLaw_catch sourceUrl).

(** [checkIfUrlProcessed(url)] *)
Definition checkIfUrlProcessed (u : string) : M bool :=
  r <- select_processed env u ;;
  match error_of r with
  | Some error =>
      if negb (Js.code_is error "PGRST116")
      then
        console_log ("Error checking URL status: " +++ Js.message error) ;;;
        ret false
      else ret (is_some (data_of r))
  | None => ret (is_some (data_of r))
  end.

(** The async function mapped over a Cloudflare batch. *)
Definition scrape_case (u : string) : M ScrapeObj :=
  try_catch
    (let fullUrl := cloudFlareUrl +++ "/scrape/cases?url=" +++ u in
     response <- fetchWithRetry env fullUrl default_retries default_delayMs ;;
     match response with
     | FrResponse r =>
         if ok r
         then data <- json r ;; ret (with_url (document_of data) u)
         else ret (error_obj u ("HTTP error! Status: "
                                  +++ show_nat (http_status r)))
     | FrFailed _ _ e => ret (error_obj u e)
     end)
    (fun err => ret (error_obj u (Js.message err))).

(** The body of [for (const result of results)]. *)
Definition store_result (result : ScrapeObj) : M unit :=
  if status_is_error result
  then console_log ("error result " +++ show (url result))
  else
    try_catch
      (_ <- insertCaseLaw
              (mkScrape (court_name result) (case_name result)
                        (case_no result) (date result) (case_text result)
                        (citation result) None None None)
              (show (url result)) ;;
       console_log ("result " +++ show (url result)))
      (fun error => console_log ("resulterror " +++ Js.message error)).

(** One Cloudflare batch: fetch all, then store one by one. *)
Definition process_cloudFlareBatch (cloudFlareBatch : list string) : M unit :=
  results <- mapM scrape_case cloudFlareBatch ;;
  forM_ store_result results ;;;
  sleep 500.

Definition check_url (u : string) : M (string * bool) :=
  isProcessed <- checkIfUrlProcessed u ;;
  ret (u, isProcessed).

Definition urls_to_process (checkedUrls : list (string * bool)) : list string :=
  map fst (filter (fun item => negb (snd item)) checkedUrls).

(** One filter batch: check all its URLs, then dispatch the survivors in
    Cloudflare batches. *)
Definition process_filterBatch (filterBatch : list string) : M unit :=
  checkedUrls <- mapM check_url filterBatch ;;
  let urlsToProcess := urls_to_process checkedUrls in
  console_log ("Filtered batch: " +++ show_nat (length filterBatch)
                 +++ " URLs checked, " +++ show_nat (length urlsToProcess)
                 +++ " need processing") ;;;
  forM_ process_cloudFlareBatch
        (batches urlsToProcess (cloudFlareBatchSize cfg)).

(** The filter loop over the locators of one listing page. *)
Definition process_pageUrls (pageUrls : list string) : M unit :=
  forM_ process_filterBatch (batches pageUrls (filterBatchSize cfg)).

(** The body of [for (let siteMapUrl of siteMapUrls)]. *)
Definition process_sitemap (siteMapUrl : string) : M unit :=
  pageUrlRes <- fetch env (cloudFlareUrl +++ "/pages?sitemap=" +++ siteMapUrl) ;;
  pageUrls <- json pageUrlRes ;;
  console_log ("pageUrls " +++ show_nat (length (locators_of pageUrls))
               +++ " " +++ siteMapUrl +++ " "
               +++ show_nat (filterBatchSize cfg)) ;;;
  process_pageUrls (locators_of pageUrls) ;;;
  sleep 1000.

Definition scrapFindLaws : M unit :=
  siteMapResponse <- fetch env (cloudFlareUrl +++ "/sitemaps/cases") ;;
  siteMapUrls <- json siteMapResponse ;;
  urls <- iterate siteMapUrls ;;
  forM_ process_sitemap urls.

End Driver.

End UsCaselaw.

(* ================================================================= *)
(** ** singapore/caselaw_index.js *)

Module Singapore.

Record Config := mkConfig {
  maxPages : nat;
  maxEntriesPerPage : nat;
  filterBatchSize : nat;
  requestInterval : nat
}.

Definition CONFIG : Config := mkConfig 100000000 10 10000 1000.

Definition cloudFlareUrl : string :=
  "https://votum-scraper-singapore.tejasw.workers.dev/api".

(** [let pageIndex = 340] *)
Definition first_page : nat := 340.

(** How the pagination loop was left. *)
Inductive LoopExit :=
| PageFetchFailed               (* [hasMorePages = false; continue] *)
| NoCasesFound                  (* [hasMorePages = false; break] *)
| MaxPagesReached               (* [pageIndex <= CONFIG.maxPages] is false *)
| FatalError (e : Js.Error)     (* the outer [catch] *)
| OutOfFuel.

Section Driver.

Variable env : Env.
Variable cfg : Config.

(** [checkIfCitationExists(citation)] *)
Definition checkIfCitationExists (c : option string) : M bool :=
  if negb (Js.truthy c) then ret false
  else
    r <- select_citation env Caselaw_singapore (show c) ;;
    match error_of r with
    | Some error =>
        if negb (Js.code_is error "PGRST116")
        then
          console_log ("Error checking citation status: "
                         +++ Js.message error) ;;;
          ret false
        else ret (is_some (data_of r))
    | None => ret (is_some (data_of r))
    end.

(** [caseData.case_text.trim().length == 0]; [trim] of an absent
    property raises. *)
Definition case_text_is_empty (caseData : ScrapeObj) : M bool :=
  match case_text caseData with
  | None => throw Js.TypeError_undefined_trim
  | Some t => ret (Js.trims_to_empty t)
  end.

(** The [try] block of [insertCaseLaw(caseData, sourceUrl)]: [None] is
    the [null] of the two skips. *)
Definition insertCaseLaw_try (caseData : ScrapeObj) (sourceUrl : string)
  : M (option nat) :=
  citationExists <-
    (if Js.truthy (citation caseData)
     then checkIfCitationExists (citation caseData)
     else ret false) ;;
  if citationExists
  then
    console_log ("Skipping case with existing citation: "
                   +++ show (citation caseData)) ;;;
    ret None
  else
    empty <- case_text_is_empty caseData ;;
    if empty
    then
      console_log ("Skipping case with empty text: "
                     +++ show (case_name caseData)) ;;;
      ret None
    else
      r <- insert_case env Caselaw_singapore caseData "Singapore" ;;
      match error_of r, data_of r with
      | Some error, _ => console_log (Js.message error) ;;; throw error
      | None, None => throw Js.TypeError_null_id
      | None, Some data =>
          console_log ("id " +++ show_nat (id data)) ;;;
          u <- upsert_ledger env
                 (mkLedgerPayload sourceUrl (Some (id data)) true
                                  "success" None (Some "Singapore")) ;;
          match error_of u with
          | Some urlInsertError => throw urlInsertError
          | None =>
              console_log ("Inserted case: " +++ show (case_name caseData)
                             +++ " (ID: " +++ show_nat (id data) +++ ")") ;;;
              ret (Some (id data))
          end
      end.

(** Its [catch (error)] block. *)
Definition insertCaseLaw_catch (sourceUrl : string) (error : Js.Error)
  : M (option nat) :=
  _ <- upsert_ledger env
         (mkLedgerPayload sourceUrl None false "error"
                          (Some (Js.message error)) (Some "Singapore")) ;;
  console_log ("Error inserting Singapore case law: "
                 +++ Js.message error) ;;;
  throw error.

Definition insertCaseLaw (caseData : ScrapeObj) (sourceUrl : string)
  : M (option nat) :=
  try_catch (insertCaseLaw_try caseData sourceUrl)
            (insertCaseLaw_catch sourceUrl).

(** [checkIfUrlProcessed(url)]: the function returns on its first
    statement; the ledger query below it is never reached. *)
Definition checkIfUrlProcessed (u : string) : M bool := ret false.

Definition scrape_url (u : string) : string :=
  cloudFlareUrl +++ "/scrape/cases?url="
    +++ Js.encodeURIComponent ("https://www.elitigation.sg" +++ u).

(** [!data.case_text || data.case_text.trim().length === 0] *)
Definition blank_case_text (data : ScrapeObj) : bool :=
  negb (Js.truthy (case_text data))
  || match case_text data with
     | Some t => Js.trims_to_empty t
     | None => false
     end.

(** The async function mapped over the locators of a page: a first
    request, and a second one with [isOld=true] when the first document
    has no text. *)
Definition scrape_case (u : string) : M ScrapeObj :=
  try_catch
    (console_log ("First attempt: " +++ scrape_url u) ;;;
     response <- fetchWithRetry env (scrape_url u)
                   default_retries default_delayMs ;;
     if response_ok response
     then
       match response with
       | FrResponse r =>
           b <- json r ;;
           let data := document_of b in
           data' <-
             (if blank_case_text data
              then
                console_log ("Blank case_text found, retrying with isOld=true for: "
                               +++ u) ;;;
                console_log ("Second attempt: " +++ scrape_url u
                               +++ "&isOld=true") ;;;
                response2 <- fetchWithRetry env (scrape_url u +++ "&isOld=true")
                               default_retries default_delayMs ;;
                match response2 with
                | FrResponse r2 =>
                    if ok r2
                    then b2 <- json r2 ;; ret (document_of b2)
                    else ret data
                | FrFailed _ _ _ => ret data
                end
              else ret data) ;;
           ret (with_url data' u)
       | FrFailed _ _ e => ret (error_obj u e)
       end
     else
       match response with
       | FrResponse r =>
           ret (error_obj u ("HTTP error! Status: " +++ show_nat (http_status r)))
       | FrFailed _ _ e => ret (error_obj u e)
       end)
    (fun err => ret (error_obj u (Js.message err))).

(** The body of [for (const result of results)]. *)
Definition store_result (result : ScrapeObj) : M unit :=
  if status_is_error result
  then console_log ("Error scraping " +++ show (url result) +++ ": "
                      +++ show (error result))
  else
    try_catch
      (_ <- insertCaseLaw result (show (url result)) ;; ret tt)
      (fun error =>
         console_log ("Failed to insert case from " +++ show (url result)
                        +++ ": " +++ Js.message error)).

Definition check_url (u : string) : M (string * bool) :=
  isProcessed <- checkIfUrlProcessed u ;;
  ret (u, isProcessed).

Definition urls_to_process (checkedUrls : list (string * bool)) : list string :=
  map fst (filter (fun item => negb (snd item)) checkedUrls).

(** Everything done with the non-empty locator array of one page. *)
Definition process_page (pageIndex : nat) (caseUrls : list string) : M unit :=
  console_log ("Found " +++ show_nat (length caseUrls) +++ " cases on page "
                 +++ show_nat pageIndex) ;;;
  let casesToProcess := slice caseUrls 0 (maxEntriesPerPage cfg) in
  checkedUrls <- mapM check_url casesToProcess ;;
  let urlsToProcess := urls_to_process checkedUrls in
  console_log (show_nat (length urlsToProcess)
                 +++ " cases need processing on page " +++ show_nat pageIndex) ;;;
  results <- mapM scrape_case urlsToProcess ;;
  forM_ store_result results ;;;
  when (pageIndex <? maxPages cfg) (sleep (requestInterval cfg)).

Definition listing_url (pageIndex : nat) : string :=
  cloudFlareUrl +++ "/sitemap/cases?index=" +++ show_nat pageIndex.

(** The loop [while (hasMorePages && pageIndex <= CONFIG.maxPages)]. *)
Fixpoint pagination (fuel pageIndex : nat) : M LoopExit :=
  match fuel with
  | 0 => ret OutOfFuel
  | S f =>
      if pageIndex <=? maxPages cfg
      then
        console_log ("Processing page " +++ show_nat pageIndex +++ "...") ;;;
        console_log (listing_url pageIndex) ;;;
        casesResponse <- fetch env (listing_url pageIndex) ;;
        if negb (ok casesResponse)
        then
          console_log ("Failed to fetch cases for page "
                         +++ show_nat pageIndex +++ ": [object Response]") ;;;
          ret PageFetchFailed
        else
          caseUrls <- json casesResponse ;;
          if length (locators_of caseUrls) =? 0
          then
            console_log ("No cases found on page " +++ show_nat pageIndex
                           +++ ", stopping pagination") ;;;
            ret NoCasesFound
          else
            process_page pageIndex (locators_of caseUrls) ;;;
            pagination f (S pageIndex)
      else ret MaxPagesReached
  end.

(** Iterations that suffice from [pageIndex]: the index grows by one
    per iteration and the loop is left once it passes [maxPages]. *)
Definition enough_fuel (pageIndex : nat) : nat := S (S (maxPages cfg) - pageIndex).

Definition scrape_from (pageIndex : nat) : M LoopExit :=
  try_catch
    (r <- pagination (enough_fuel pageIndex) pageIndex ;;
     console_log "Singapore case law scraping completed" ;;;
     ret r)
    (fun error =>
       console_log ("Fatal error in Singapore case law scraping: "
                      +++ Js.message error) ;;;
       ret (FatalError error)).

Definition scrapeSingaporeCaseLaws : M LoopExit := scrape_from first_page.

End Driver.

End Singapore.

(* ================================================================= *)
(** ** us/acts_index.js *)

Module UsActs.

(** [s.split('/')] *)
Fixpoint split_slash (s : string) : list string :=
  match s with
  | EmptyString => [EmptyString]
  | String c r =>
      if Ascii.eqb c "/"%char then EmptyString :: split_slash r
      else
        match split_slash r with
        | h :: t => String c h :: t
        | [] => [String c EmptyString]
        end
  end.

(** [extractActIdentifierFromUrl(url)]: the last but one part, undefined
    when there is none. *)
Definition extractActIdentifierFromUrl (u : string) : option string :=
  let urlParts := split_slash (Js.trim u) in
  if length urlParts <? 2 then None
  else nth_error urlParts (length urlParts - 2).

Section Driver.

Variable env : Env.

(** [checkSectionExistsByUrl(url)] *)
Definition checkSectionExistsByUrl (u : string) : M bool :=
  try_catch
    (let actIdentifier := extractActIdentifierFromUrl u in
     console_log ("actIdentifier " +++ u +++ " " +++ show actIdentifier) ;;;
     r <- select_section env actIdentifier ;;
     match error_of r with
     | Some error =>
         if Js.code_is error "PGRST116" then ret false else throw error
     | None => ret (is_some (data_of r))
     end)
    (fun error =>
       console_log ("Error checking existing section by URL: "
                      +++ Js.message error) ;;;
       ret false).

End Driver.

End UsActs.

(* ================================================================= *)
(** ** Vocabulary of the properties *)

(** The events of [n] attempts on [u]: a pause separates two consecutive
    attempts and nothing follows the last one. *)
Fixpoint attempts_trace (u : string) (delayMs n : nat) : list Event :=
  match n with
  | 0 => []
  | S m =>
      match m with
      | 0 => [EvFetch u]
      | S _ => EvFetch u :: EvSleep delayMs :: attempts_trace u delayMs m
      end
  end.

(** The attempt answered by a response that is not [ok]. *)
Definition refused (o : NetOutcome) : Prop :=
  exists r, o = Responds r /\ ok r = false.

(** What a run of the retry loop amounts to, whatever the environment. *)
Definition retry_outcome (env : Env) (u : string) (delayMs fuel : nat)
           (w : World) (run : Outcome FetchResult * World) (n : nat) : Prop :=
  n <= fuel /\ (0 < fuel -> 0 < n)
  /\ db (snd run) = db w
  /\ now (snd run) = now w + n
  /\ trace (snd run) = trace w ++ attempts_trace u delayMs n
  /\ (forall k, S k < n -> refused (net env (now w + k) u))
  /\ match fst run with
     | Ret (FrResponse r) =>
         net env (now w + (n - 1)) u = Responds r /\ ok r = true
     | Ret (FrFailed u' s e) =>
         n = fuel /\ u' = u /\ s = "error"
         /\ e = "Failed after multiple retries"
         /\ (forall k, k < n -> refused (net env (now w + k) u))
     | Throw e => net env (now w + (n - 1)) u = NetworkError e
     end.

(** The world after a GET, and after the pause that may follow it. *)
Definition after_fetch (u : string) (w : World) : World :=
  mkWorld (db w) (S (now w)) (trace w ++ [EvFetch u]).

Definition after_pause (delayMs : nat) (pause : bool) (w : World) : World :=
  if pause then mkWorld (db w) (now w) (trace w ++ [EvSleep delayMs]) else w.

(** The store answers a query with an error, whatever the cause. *)
Definition lookup_fails {A} (q : M (PgResult A)) (w : World) : Prop :=
  exists e w', q w = (Ret (PgError e), w').

(** The ledger entries keyed by a locator. *)
Definition ledger_entries (u : string) (d : DB) : list LedgerRow :=
  filter (fun r => String.eqb (l_url r) u) (caselaw_scraping_urls d).

(** A well-formed ledger: one row per locator, each a success or an
    error. *)
Definition settled (r : LedgerRow) : Prop :=
  l_status r = "success" \/ l_status r = "error".

Definition ledger_ok (d : DB) : Prop :=
  NoDup (map l_url (caselaw_scraping_urls d))
  /\ Forall settled (caselaw_scraping_urls d).

(** A change of the store that keeps the ledger well-formed and forgets no
    locator. *)
Definition ledger_step (d d' : DB) : Prop :=
  (ledger_ok d -> ledger_ok d')
  /\ incl (map l_url (caselaw_scraping_urls d))
          (map l_url (caselaw_scraping_urls d')).

(** A computation that only changes the store by such steps, whether it
    returns or raises. *)
Definition ledger_safe {A} (m : M A) : Prop :=
  forall w, ledger_step (db w) (db (snd (m w))).

(** The ledger row written by the [catch] blocks. *)
Definition error_payload (u : string) (e : Js.Error) (country : option string)
  : LedgerPayload :=
  mkLedgerPayload u None false "error" (Some (Js.message e)) country.

(** The store after an upsert that the environment lets through or not. *)
Definition after_upsert (env : Env) (p : LedgerPayload) (w : World) : DB :=
  match fault env (now w) with
  | None => set_ledger (upsert_rows p (caselaw_scraping_urls (db w))) (db w)
  | Some _ => db w
  end.

(** The ledger row written after a successful insert. *)
Definition success_payload (u : string) (i : nat) (country : option string)
  : LedgerPayload :=
  mkLedgerPayload u (Some i) true "success" None country.

(** The records of the Singapore table that carry a citation have pairwise
    distinct citations. *)
Definition cited (r : CaseRow) : bool := Js.truthy (row_citation r).

Definition citations_distinct (d : DB) : Prop :=
  NoDup (map row_citation (filter cited (caselaw_singapore d))).

(** What the citation lookup of the Singapore writer answers: it says yes
    only when the store answers and holds exactly one record under the
    citation. *)
Definition citation_known (env : Env) (c : option string) (w : World) : bool :=
  Js.truthy c
  && match fault env (now w) with
     | Some _ => false
     | None =>
         match filter (fun r => opt_string_eqb (row_citation r) (show c))
                      (caselaw_singapore (db w)) with
         | [_] => true
         | _ => false
         end
     end.

(** Kinds of events. *)
Definition is_fetch (e : Event) : bool :=
  match e with
  | EvFetch _ => true
  | _ => false
  end.

Definition is_fetch_of (u : string) (e : Event) : bool :=
  match e with
  | EvFetch u' => String.eqb u' u
  | _ => false
  end.

Definition is_ledger_check (e : Event) : bool :=
  match e with
  | EvSelect t _ => String.eqb t "caselaw_scraping_urls"
  | _ => false
  end.

(** The ordering of the two phases: once a GET has been issued, no
    existence check follows. *)
Fixpoint checks_precede_fetches (tr : list Event) : bool :=
  match tr with
  | [] => true
  | e :: r =>
      if is_fetch e then negb (existsb is_ledger_check r)
      else checks_precede_fetches r
  end.

Definition not_ledger_check (e : Event) : bool := negb (is_ledger_check e).

Definition not_fetch (e : Event) : bool := negb (is_fetch e).

(** A computation all of whose events satisfy [P], from any world and
    whether it returns or raises. *)
Definition emits {A} (P : Event -> bool) (m : M A) : Prop :=
  forall w, exists evs,
    trace (snd (m w)) = trace w ++ evs /\ forallb P evs = true.

(* ================================================================= *)
(** ** Concrete environments *)

Module Scenario.

Definition ok_document (o : ScrapeObj) : NetOutcome :=
  Responds (mkResponse true 200 (BodyDocument o)).

Definition ok_locators (l : list string) : NetOutcome :=
  Responds (mkResponse true 200 (BodyLocators l)).

Definition http_error (n : nat) : NetOutcome :=
  Responds (mkResponse false n BodyMalformed).

Definition healthy : nat -> option Js.Error := fun _ => None.

Definition connection_reset : Js.Error := Js.mkError "fetch failed" None.

Definition store_down : Js.Error :=
  Js.mkError "connection to the database refused" (Some "08006").

(** The network is unreachable. *)
Definition net_down : Env := mkEnv (fun _ _ => NetworkError connection_reset) healthy.

(** The upstream answers 503 to everything. *)
Definition always_503 : Env := mkEnv (fun _ _ => http_error 503) healthy.

(** Two refusals, then a page. *)
Definition third_time_lucky : Env :=
  mkEnv (fun t _ => if t <? 2 then http_error 503 else ok_locators ["A"]) healthy.

Definition w0 : World := initial_world empty_db.

(** The store refuses every request. *)
Definition store_unavailable : Env :=
  mkEnv (fun _ _ => http_error 503) (fun _ => Some store_down).

(** Two sections filed under one act identifier: [.single()] fails. *)
Definition two_sections : DB :=
  mkDB [] [] []
       [mkSectionRow 1 1 (Some "Definitions") (Some "In this chapter ...")
                     (Some "Ala. Code 1-1-1") (Some "al-code-sect-1-1-1");
        mkSectionRow 2 1 (Some "Definitions") (Some "In this chapter ...")
                     (Some "Ala. Code 1-1-1") (Some "al-code-sect-1-1-1")]
       3.

(** A small Singapore configuration, so that the listing pages 340 and
    341 are the only ones in range. *)
Definition two_pages : Singapore.Config := Singapore.mkConfig 341 10 10000 1000.

Definition judgment (name text cit : string) : ScrapeObj :=
  mkScrape (Some "High Court") (Some name) (Some "HC/S 1/2025")
           (Some "2025-02-03") (Some text) (Some cit) None None None.

Definition sg_case : string := "/gd/s/2001_SGHC_27".

(** An old judgment: the worker extracts no text from it unless it is
    asked with [isOld=true]. *)
Definition legacy_format : Env :=
  mkEnv (fun _ u =>
           if String.eqb u (Singapore.scrape_url sg_case)
           then ok_document (judgment "Tan v Lim" "   " "[2001] SGHC 27")
           else if String.eqb u (Singapore.scrape_url sg_case +++ "&isOld=true")
           then ok_document (judgment "Tan v Lim" "The plaintiff ..." "[2001] SGHC 27")
           else http_error 404)
        healthy.

Definition disk_full : Js.Error :=
  Js.mkError "could not extend file: No space left on device" (Some "53100").



(** The insert of the record fails, the ledger is healthy. *)
Definition write_fails : Env :=
  mkEnv (fun _ _ => http_error 404)
        (fun t => match t with
                  | 1 => Some disk_full
                  | _ => None
                  end).

Definition us (path : string) : string := UsCaselaw.cloudFlareUrl +++ path.

Definition opinion (name text cit : string) : ScrapeObj :=
  mkScrape (Some "United States Supreme Court") (Some name) (Some "No. 21-1")
           (Some "2022-06-30") (Some text) (Some cit) None None None.

(** One sitemap listing the locators A, B and C: B is served, C is
    refused on every attempt. *)
Definition a_b_c : Env :=
  mkEnv (fun _ u =>
           if String.eqb u (us "/sitemaps/cases") then ok_locators ["sm1"]
           else if String.eqb u (us "/pages?sitemap=sm1")
           then ok_locators ["A"; "B"; "C"]
           else if String.eqb u (us "/scrape/cases?url=B")
           then ok_document (opinion "West Virginia v. EPA" "The Clean Air Act ..."
                                     "597 U.S. 697")
           else http_error 503)
        healthy.

(** A is in the ledger as processed. *)
Definition a_processed : DB :=
  mkDB [mkCaseRow 1 None (Some "Marbury v. Madison") None None
                  (Some "It is emphatically ...") (Some "5 U.S. 137") "US"]
       []
       [mkLedgerRow "A" (Some 1) true "success" None None]
       []
       2.

(** Every document is served, the ledger is empty and healthy. *)
Definition all_served : Env :=
  mkEnv (fun _ u => ok_document (opinion u "Opinion of the Court ..." u)) healthy.

(** The US configuration with a filter batch of two. *)
Definition filter_by_two : UsCaselaw.Config := UsCaselaw.mkConfig 1 4 2 100 0.

Definition five_locators : list string := ["u1"; "u2"; "u3"; "u4"; "u5"].

(** Two locators of one sitemap lead to the same opinion. *)
Definition same_citation : Env :=
  mkEnv (fun _ u =>
           if String.eqb u (us "/sitemaps/cases") then ok_locators ["sm1"]
           else if String.eqb u (us "/pages?sitemap=sm1")
           then ok_locators ["/us-supreme-court/5-us-137.html";
                             "/us-supreme-court/marbury-v-madison.html"]
           else ok_document (opinion "Marbury v. Madison" "It is emphatically ..."
                                     "5 U.S. 137"))
        healthy.

(** The worker finds no text in the page of the one locator listed. *)
Definition blank_opinion : Env :=
  mkEnv (fun _ u =>
           if String.eqb u (us "/sitemaps/cases") then ok_locators ["sm1"]
           else if String.eqb u (us "/pages?sitemap=sm1")
           then ok_locators ["/us-supreme-court/1.html"]
           else ok_document (opinion "In re Doe" "   " "1 U.S. 1"))
        healthy.

(** The worker could not load the page of the one locator listed: it
    answers 200 with the object [{ error: "HTTP error 404" }], as
    [scrapeCasesPage] of src/index.js does. *)
Definition worker_error : Env :=
  mkEnv (fun _ u =>
           if String.eqb u (us "/sitemaps/cases") then ok_locators ["sm1"]
           else if String.eqb u (us "/pages?sitemap=sm1")
           then ok_locators ["/us-supreme-court/1.html"]
           else ok_document (mkScrape None None None None None None None
                                      (Some "HTTP error 404") None))
        healthy.

(** A Singapore listing of one page holding one judgment, which carries
    no neutral citation; the upstream never changes. *)
Definition uncited_judgment : Env :=
  mkEnv (fun _ u =>
           if String.eqb u (Singapore.listing_url 340) then ok_locators [sg_case]
           else if String.eqb u (Singapore.listing_url 341) then ok_locators []
           else ok_document (judgment "Tan v Lim" "The plaintiff ..." ""))
        healthy.

(** The same listing, the judgment carrying its citation. *)
Definition cited_judgment : Env :=
  mkEnv (fun _ u =>
           if String.eqb u (Singapore.listing_url 340) then ok_locators [sg_case]
           else if String.eqb u (Singapore.listing_url 341) then ok_locators []
           else ok_document (judgment "Tan v Lim" "The plaintiff ..." "[2001] SGHC 27"))
        healthy.

(** Page 340 of the Singapore listing is empty. *)
Definition empty_listing : Env :=
  mkEnv (fun _ u =>
           if String.eqb u (Singapore.listing_url 340) then ok_locators []
           else http_error 404)
        healthy.

End Scenario.

(* ================================================================= *)
(** ** Further vocabulary *)

(** The store answers every request. *)
Definition healthy_store (env : Env) : Prop := forall t, fault env t = None.

(** The ledger holds the locator as processed. *)
Definition marked_processed (u : string) (d : DB) : bool :=
  existsb (fun r => String.eqb (l_url r) u && l_processed r)
          (caselaw_scraping_urls d).

(** A computation that returns from every world: it never raises. *)
Definition returns {A} (m : M A) : Prop :=
  forall w, exists a w', m w = (Ret a, w').

(** The URL the US driver asks the worker for a locator. *)
Definition us_scrape_url (u : string) : string :=
  UsCaselaw.cloudFlareUrl +++ "/scrape/cases?url=" +++ u.

(** Every GET among the events is for one of the URLs given. *)
Definition fetch_among (urls : list string) (e : Event) : bool :=
  match e with
  | EvFetch x => existsb (String.eqb x) urls
  | _ => true
  end.

(** A computation that changes the store only along the relation [R],
    whether it returns or raises. *)
Definition steps (R : DB -> DB -> Prop) {A} (m : M A) : Prop :=
  forall w, R (db w) (db (snd (m w))).

(** The record tables only grow, at their end. *)
Definition records_grow (d d' : DB) : Prop :=
  (exists added, caselaw_us d' = caselaw_us d ++ added)
  /\ (exists added, caselaw_singapore d' = caselaw_singapore d ++ added).

(** A path segment: a string without [/]. *)
Fixpoint slash_free (s : string) : bool :=
  match s with
  | EmptyString => true
  | String c r => negb (Ascii.eqb c "/"%char) && slash_free r
  end.

(** The sections filed under the act identifier of a URL, as the query of
    [checkSectionExistsByUrl] selects them. *)
Definition sections_of_url (u : string) (d : DB) : list SectionRow :=
  filter (contains_act_identifier (UsActs.extractActIdentifierFromUrl u))
         (sections d).

(* ================================================================= *)
(** ** utils/cronTracker.js *)

(** A row of [cron_job_runs]. *)
Record JobRun := mkJobRun {
  run_id : nat;
  job_name : string;
  start_time : nat;
  end_time : option nat;
  run_status : string;
  new_cases_found : nat;
  pages_processed : nat;
  run_error_message : option string
}.

(** The metrics object the drivers hand to [completeJob] and [failJob]:
    [{ new_cases_found, pages_processed }]. *)
Record Metrics := mkMetrics {
  m_new_cases_found : nat;
  m_pages_processed : nat
}.

(** The requests sent to [cron_job_runs], in program order. *)
Inductive JobRequest :=
| JobInsert (name : string)
| JobUpdate (id : nat).

(** The [let] variables of the tracked [scrapFindLaws], which its [catch]
    block reads. *)
Record Vars := mkVars {
  runId : option nat;
  newCasesFound : nat;
  sitemapsProcessed : nat
}.

(** The world of the tracked driver: the world of the drivers, the table
    of job runs with the id the store gives to the next row, the requests
    sent to that table, and the variables of the driver. *)
Record Tracked := mkTracked {
  world : World;
  cron_job_runs : list JobRun;
  next_run_id : nat;
  job_log : list JobRequest;
  vars : Vars
}.

Definition T (A : Type) : Type := Tracked -> Outcome A * Tracked.

Definition retT {A} (a : A) : T A := fun s => (Ret a, s).

Definition throwT {A} (e : Js.Error) : T A := fun s => (Throw e, s).

Definition bindT {A B} (m : T A) (k : A -> T B) : T B :=
  fun s =>
    match m s with
    | (Ret a, s') => k a s'
    | (Throw e, s') => (Throw e, s')
    end.

Definition try_catchT {A} (m : T A) (h : Js.Error -> T A) : T A :=
  fun s =>
    match m s with
    | (Ret a, s') => (Ret a, s')
    | (Throw e, s') => h e s'
    end.

(** A computation of the drivers, run on the world inside. *)
Definition lift {A} (m : M A) : T A :=
  fun s =>
    (fst (m (world s)),
     mkTracked (snd (m (world s))) (cron_job_runs s) (next_run_id s)
               (job_log s) (vars s)).

Declare Scope tracked_scope.
Delimit Scope tracked_scope with tracked.
Notation "x <- m ;; k" := (bindT m (fun x => k))
  (at level 61, m at next level, right associativity) : tracked_scope.
Notation "m ;;; k" := (bindT m (fun _ => k))
  (at level 61, right associativity) : tracked_scope.

Definition whenT (b : bool) (m : T unit) : T unit := if b then m else retT tt.

Fixpoint forT_ {A} (f : A -> T unit) (xs : list A) : T unit :=
  match xs with
  | [] => retT tt
  | x :: r => bindT (f x) (fun _ => forT_ f r)
  end.

Definition get_vars : T Vars := fun s => (Ret (vars s), s).

Definition put_vars (v : Vars) : T unit :=
  fun s =>
    (Ret tt, mkTracked (world s) (cron_job_runs s) (next_run_id s) (job_log s) v).

(** [!runId] is false for an id other than [null] and [0]. *)
Definition truthy_id (v : option nat) : bool :=
  match v with
  | None => false
  | Some n => negb (n =? 0)
  end.

Module CronTracker.

Local Open Scope tracked_scope.

(** [{ end_time: new Date().toISOString(), status: 'completed', ...metrics }] *)
Definition completed (t : nat) (metrics : Metrics) (r : JobRun) : JobRun :=
  mkJobRun (run_id r) (job_name r) (start_time r) (Some t) "completed"
           (m_new_cases_found metrics) (m_pages_processed metrics)
           (run_error_message r).

(** [{ end_time: ..., status: 'failed', error_message: errorMessage,
    ...metrics }] *)
Definition failed (t : nat) (metrics : Metrics) (errorMessage : string)
           (r : JobRun) : JobRun :=
  mkJobRun (run_id r) (job_name r) (start_time r) (Some t) "failed"
           (m_new_cases_found metrics) (m_pages_processed metrics)
           (Some errorMessage).

(** [update(updateData).eq('id', runId)]: every row under the id is
    updated; that there is none is no error. *)
Definition update_rows (id : nat) (f : JobRun -> JobRun) (rows : list JobRun)
  : list JobRun :=
  map (fun r => if run_id r =? id then f r else r) rows.

Section Client.

Variable env : Env.

(** One request to [cron_job_runs]: it is recorded, takes a tick, and
    either fails as the environment says (the table is then left as it
    was) or runs on the table. *)
Definition job_request {A} (ev : JobRequest)
           (run : nat -> Tracked -> PgResult A * (list JobRun * nat))
  : T (PgResult A) :=
  fun s =>
    let t := now (world s) in
    let w' := mkWorld (db (world s)) (S t) (trace (world s)) in
    match fault env t with
    | Some e =>
        (Ret (PgError e),
         mkTracked w' (cron_job_runs s) (next_run_id s) (job_log s ++ [ev]) (vars s))
    | None =>
        (Ret (fst (run t s)),
         mkTracked w' (fst (snd (run t s))) (snd (snd (run t s)))
                   (job_log s ++ [ev]) (vars s))
    end.

(** [from('cron_job_runs').insert([{ job_name, start_time, status:
    'started', new_cases_found: 0, pages_processed: 0 }]).select('id')
    .single()] *)
Definition insert_run (jobName : string) : T (PgResult (option JobRun)) :=
  job_request (JobInsert jobName)
    (fun t s =>
       let r := mkJobRun (next_run_id s) jobName t None "started" 0 0 None in
       (PgData (Some r), (cron_job_runs s ++ [r], S (next_run_id s)))).

(** [from('cron_job_runs').update(updateData).eq('id', runId)] *)
Definition update_run (id : nat) (updateData : nat -> JobRun -> JobRun)
  : T (PgResult unit) :=
  job_request (JobUpdate id)
    (fun t s =>
       (PgData tt, (update_rows id (updateData t) (cron_job_runs s), next_run_id s))).

(** [startJob(supabaseClient, jobName)]: the pair is [{ runId, success }]. *)
Definition startJob (jobName : string) : T (option nat * bool) :=
  try_catchT
    (r <- insert_run jobName ;;
     match error_of r, data_of r with
     | Some error, _ =>
         lift (console_log ("Error starting cron job tracking: "
                              +++ Js.message error)) ;;;
         retT (None, false)
     | None, None => throwT Js.TypeError_null_id
     | None, Some data =>
         lift (console_log ("Cron job '" +++ jobName +++ "' started. Run ID: "
                              +++ show_nat (run_id data))) ;;;
         retT (Some (run_id data), true)
     end)
    (fun e =>
       lift (console_log ("Exception in cron job tracking: " +++ Js.message e)) ;;;
       retT (None, false)).

(** [completeJob(supabaseClient, runId, metrics)] *)
Definition completeJob (id : option nat) (metrics : Metrics) : T bool :=
  if negb (truthy_id id)
  then
    lift (console_log "Warning: Cannot complete job, no runId provided.") ;;;
    retT false
  else
    try_catchT
      (r <- update_run (match id with Some n => n | None => 0 end)
                       (fun t => completed t metrics) ;;
       match error_of r with
       | Some error =>
           lift (console_log ("Error completing cron job: "
                                +++ Js.message error)) ;;;
           retT false
       | None => retT true
       end)
      (fun e =>
         lift (console_log ("Exception completing cron job: "
                              +++ Js.message e)) ;;;
         retT false).

(** [failJob(supabaseClient, runId, metrics, errorMessage)] *)
Definition failJob (id : option nat) (metrics : Metrics) (errorMessage : string)
  : T bool :=
  if negb (truthy_id id)
  then
    lift (console_log "Warning: Cannot fail job, no runId provided.") ;;;
    retT false
  else
    try_catchT
      (r <- update_run (match id with Some n => n | None => 0 end)
                       (fun t => failed t metrics errorMessage) ;;
       match error_of r with
       | Some error =>
           lift (console_log ("Error marking cron job as failed: "
                                +++ Js.message error)) ;;;
           retT false
       | None => retT true
       end)
      (fun e =>
         lift (console_log ("Exception marking cron job as failed: "
                              +++ Js.message e)) ;;;
         retT false).

End Client.

End CronTracker.

(* ================================================================= *)
(** ** us/caselaw_index.js, the driver with job tracking *)

Module UsCaselawTracked.

Local Open Scope tracked_scope.

Definition JOB_NAME : string := "us_caselaw_scraper".

(** Calling [slice] on a value that has none. *)
Definition TypeError_slice : Js.Error :=
  Js.mkError "siteMapUrls.slice is not a function" None.

Section Driver.

Variable env : Env.
Variable cfg : UsCaselaw.Config.

(** [newCasesFound++] *)
Definition count_case : T unit :=
  v <- get_vars ;;
  put_vars (mkVars (runId v) (S (newCasesFound v)) (sitemapsProcessed v)).

(** [sitemapsProcessed++] *)
Definition count_sitemap : T unit :=
  v <- get_vars ;;
  put_vars (mkVars (runId v) (newCasesFound v) (S (sitemapsProcessed v))).

(** [runId = jobStart.runId] *)
Definition set_runId (id : option nat) : T unit :=
  v <- get_vars ;;
  put_vars (mkVars id (newCasesFound v) (sitemapsProcessed v)).

(** The body of [for (const result of results)]. *)
Definition store_result (result : ScrapeObj) : T unit :=
  if status_is_error result
  then lift (console_log ("error result " +++ show (url result)))
  else
    try_catchT
      (_ <- lift (UsCaselaw.insertCaseLaw env
                    (mkScrape (court_name result) (case_name result)
                              (case_no result) (date result) (case_text result)
                              (citation result) None None None)
                    (show (url result))) ;;
       count_case ;;;
       lift (console_log ("result " +++ show (url result))))
      (fun error => lift (console_log ("resulterror " +++ Js.message error))).

Definition process_cloudFlareBatch (cloudFlareBatch : list string) : T unit :=
  results <- lift (mapM (UsCaselaw.scrape_case env) cloudFlareBatch) ;;
  forT_ store_result results ;;;
  lift (sleep 500).

Definition process_filterBatch (filterBatch : list string) : T unit :=
  checkedUrls <- lift (mapM (UsCaselaw.check_url env) filterBatch) ;;
  let urlsToProcess := UsCaselaw.urls_to_process checkedUrls in
  lift (console_log ("Filtered batch: " +++ show_nat (length filterBatch)
                       +++ " URLs checked, " +++ show_nat (length urlsToProcess)
                       +++ " need processing")) ;;;
  forT_ process_cloudFlareBatch
        (batches urlsToProcess (UsCaselaw.cloudFlareBatchSize cfg)).

(** The body of [for (let siteMapUrl of sitemapsToProcess)]. *)
Definition process_sitemap (siteMapUrl : string) : T unit :=
  pageUrlRes <- lift (fetch env (UsCaselaw.cloudFlareUrl +++ "/pages?sitemap="
                                   +++ siteMapUrl)) ;;
  pageUrls <- lift (json pageUrlRes) ;;
  lift (console_log ("pageUrls " +++ show_nat (length (locators_of pageUrls))
                       +++ " " +++ siteMapUrl +++ " "
                       +++ show_nat (UsCaselaw.filterBatchSize cfg))) ;;;
  count_sitemap ;;;
  forT_ process_filterBatch
        (batches (locators_of pageUrls) (UsCaselaw.filterBatchSize cfg)) ;;;
  lift (sleep 1000).

(** [siteMapUrls.slice(0, CONFIG.maxSitemaps)]: an object has no [slice]. *)
Definition sitemaps_to_process (siteMapUrls : Body) : T (list string) :=
  match siteMapUrls with
  | BodyDocument _ => throwT TypeError_slice
  | _ => retT (slice (locators_of siteMapUrls) 0 (UsCaselaw.maxSitemaps cfg))
  end.

Definition metrics_of (v : Vars) : Metrics :=
  mkMetrics (newCasesFound v) (sitemapsProcessed v).

(** The crawl: the statements of the [try] block between the start of
    the job and its completion. *)
Definition crawl : T unit :=
  siteMapResponse <- lift (fetch env (UsCaselaw.cloudFlareUrl +++ "/sitemaps/cases")) ;;
  siteMapUrls <- lift (json siteMapResponse) ;;
  sitemapsToProcess <- sitemaps_to_process siteMapUrls ;;
  forT_ process_sitemap sitemapsToProcess.

(** The [try] block of [scrapFindLaws]. *)
Definition scrapFindLaws_try : T unit :=
  jobStart <- CronTracker.startJob env JOB_NAME ;;
  set_runId (fst jobStart) ;;;
  whenT (negb (snd jobStart))
        (lift (console_log
                 "Warning: Failed to start job tracking. Continuing without tracking.")) ;;;
  crawl ;;;
  v <- get_vars ;;
  lift (console_log ("US case law scraping completed. Found "
                       +++ show_nat (newCasesFound v) +++ " new cases. Processed "
                       +++ show_nat (sitemapsProcessed v) +++ " sitemaps.")) ;;;
  _ <- CronTracker.completeJob env (runId v) (metrics_of v) ;;
  retT tt.

(** Its [catch (error)] block. *)
Definition scrapFindLaws_catch (error : Js.Error) : T unit :=
  lift (console_log ("Fatal error in US case law scraping: "
                       +++ Js.message error)) ;;;
  v <- get_vars ;;
  _ <- CronTracker.failJob env (runId v) (metrics_of v) (Js.message error) ;;
  throwT error.

Definition scrapFindLaws : T unit :=
  put_vars (mkVars None 0 0) ;;;
  try_catchT scrapFindLaws_try scrapFindLaws_catch.

End Driver.

End UsCaselawTracked.

(** The job table as a started run finds it: every row is older than the
    next id. *)
Definition fresh_ids (s : Tracked) : Prop :=
  Forall (fun r => run_id r < next_run_id s) (cron_job_runs s).

(** The world before any job run, over a world of the drivers. *)
Definition untracked (w : World) : Tracked :=
  mkTracked w [] 1 [] (mkVars None 0 0).

(** What a part of the crawl may do to the tracked world: it leaves the
    job table, its log and [runId] alone, counts at most [n] sitemaps,
    never shortens the record table, and counts no more new cases than
    records were added. *)
Definition crawl_step (n : nat) (s s' : Tracked) : Prop :=
  cron_job_runs s' = cron_job_runs s
  /\ next_run_id s' = next_run_id s
  /\ job_log s' = job_log s
  /\ runId (vars s') = runId (vars s)
  /\ sitemapsProcessed (vars s') <= sitemapsProcessed (vars s) + n
  /\ length (caselaw_us (db (world s))) <= length (caselaw_us (db (world s')))
  /\ newCasesFound (vars s') + length (caselaw_us (db (world s)))
     <= newCasesFound (vars s) + length (caselaw_us (db (world s'))).

Definition tracks (n : nat) {A} (m : T A) : Prop :=
  forall s, crawl_step n s (snd (m s)).

(** The records a run has added to [caselaw_us]. *)
Definition records_added (s s' : Tracked) : nat :=
  length (caselaw_us (db (world s'))) - length (caselaw_us (db (world s))).

(** How the row of a job run tells the end of the run [o] that took the
    tracked world from [s] to [s']: it is still as [startJob] wrote it,
    which only happens when the id the store gave is [0] or when the store
    refused the last request, the update that ends the row; or it was ended
    as completed by a run that returned, or as failed, with the message of
    the error, by a run that raised it; an ended row counts no more
    sitemaps than the cap allows and no more new cases than records were
    added. *)
Definition run_reported (env : Env) (cfg : UsCaselaw.Config) (s s' : Tracked)
           (o : Outcome unit) (row : JobRun) : Prop :=
  (run_status row = "started" /\ end_time row = None
   /\ (next_run_id s = 0 \/ fault env (pred (now (world s'))) <> None))
  \/ (((run_status row = "completed" /\ o = Ret tt)
       \/ exists e, run_status row = "failed" /\ o = Throw e
                    /\ run_error_message row = Some (Js.message e))
      /\ end_time row <> None
      /\ pages_processed row <= UsCaselaw.maxSitemaps cfg
      /\ new_cases_found row <= records_added s s').

(* ================================================================= *)
(** ** us/acts_index.js, the section writer *)

(** The document the worker returns for the page of a section, as far as
    [insertSection] reads it. *)
Record SectionData := mkSectionData {
  sd_act_name : option string;
  sd_act_id : option string;
  sd_section_title : option string;
  sd_section_text : option string;
  sd_original : option string
}.

Definition add_section_row (r : SectionRow) (d : DB) : DB :=
  mkDB (caselaw_us d) (caselaw_singapore d) (caselaw_scraping_urls d)
       (sections d ++ [r]) (S (next_id d)).

(** The row built by [insertSection]: [additional] takes the original
    title and the act identifier of the document. *)
Definition section_row (i actId : nat) (sectionData : SectionData) : SectionRow :=
  mkSectionRow i actId (sd_section_title sectionData)
               (sd_section_text sectionData) (sd_original sectionData)
               (sd_act_id sectionData).

Module UsActsWriter.

Section Driver.

Variable env : Env.

(** [from('sections').insert([{ act_id, section_content, section_title,
    country: 'US', additional: { original_title, act_identifier } }])] *)
Definition insert_section (actId : nat) (sectionData : SectionData)
  : M (PgResult unit) :=
  store_request env (EvInsert "sections")
    (fun d =>
       (PgData tt, add_section_row (section_row (next_id d) actId sectionData) d)).

(** [insertSection(actId, sectionData)]: missing fields are logged, and
    the row is inserted all the same. *)
Definition insertSection (actId : nat) (sectionData : SectionData) : M unit :=
  try_catch
    (when (negb (Js.truthy (sd_original sectionData))
           || negb (Js.truthy (sd_act_id sectionData)))
          (console_log "Missing required fields in section data") ;;;
     r <- insert_section actId sectionData ;;
     match error_of r with
     | Some error => throw error
     | None => ret tt
     end)
    (fun error =>
       console_log ("Error inserting section: " +++ Js.message error) ;;;
       throw error).

End Driver.

End UsActsWriter.

(* ================================================================= *)
(** ** us/acts_index.js, the acts and the sitemaps *)

(** A row of [acts]; an undefined [act_name] is stored as [null]. *)
Record ActRow := mkActRow {
  act_id : nat;
  act_name : option string;
  act_country : string
}.

(** A row of [acts_sections_scraping_sitemap]. *)
Record SitemapRow := mkSitemapRow {
  sm_url : string;
  sm_processed : bool;
  sm_created_at : nat
}.

(** The world of the acts driver: the world of the drivers and the two
    tables it keeps beside [sections]. *)
Record ActsWorld := mkActsWorld {
  base : World;
  acts : list ActRow;
  next_act_id : nat;
  acts_sections_scraping_sitemap : list SitemapRow
}.

Definition MA (A : Type) : Type := ActsWorld -> Outcome A * ActsWorld.

Definition retA {A} (a : A) : MA A := fun s => (Ret a, s).

Definition throwA {A} (e : Js.Error) : MA A := fun s => (Throw e, s).

Definition bindA {A B} (m : MA A) (k : A -> MA B) : MA B :=
  fun s =>
    match m s with
    | (Ret a, s') => k a s'
    | (Throw e, s') => (Throw e, s')
    end.

Definition try_catchA {A} (m : MA A) (h : Js.Error -> MA A) : MA A :=
  fun s =>
    match m s with
    | (Ret a, s') => (Ret a, s')
    | (Throw e, s') => h e s'
    end.

(** A computation of the drivers, run on the world inside. *)
Definition liftA {A} (m : M A) : MA A :=
  fun s =>
    (fst (m (base s)),
     mkActsWorld (snd (m (base s))) (acts s) (next_act_id s)
                 (acts_sections_scraping_sitemap s)).

Declare Scope acts_scope.
Delimit Scope acts_scope with acts.
Notation "x <- m ;; k" := (bindA m (fun x => k))
  (at level 61, m at next level, right associativity) : acts_scope.
Notation "m ;;; k" := (bindA m (fun _ => k))
  (at level 61, right associativity) : acts_scope.

(** [if (existingActId)]: [null], [undefined] and [0] are falsy. *)
Definition truthy_act_id (v : option nat) : bool :=
  match v with
  | None => false
  | Some n => negb (n =? 0)
  end.

(** Reading property [act_id] of [null]. *)
Definition TypeError_null_act_id : Js.Error :=
  Js.mkError "Cannot read properties of null (reading 'act_id')" None.

Module UsActsTables.

Local Open Scope acts_scope.

Section Driver.

Variable env : Env.

(** One request to the tables of the acts driver: it is observed, takes
    a tick, and either fails as the environment says (the tables are then
    left as they were) or runs on them. *)
Definition acts_request {A} (ev : Event)
           (run : nat -> ActsWorld
                  -> PgResult A * (list ActRow * nat * list SitemapRow))
  : MA (PgResult A) :=
  fun s =>
    let t := now (base s) in
    let w' := mkWorld (db (base s)) (S t) (trace (base s) ++ [ev]) in
    match fault env t with
    | Some e =>
        (Ret (PgError e),
         mkActsWorld w' (acts s) (next_act_id s) (acts_sections_scraping_sitemap s))
    | None =>
        (Ret (fst (run t s)),
         mkActsWorld w' (fst (fst (snd (run t s)))) (snd (fst (snd (run t s))))
                     (snd (snd (run t s))))
    end.

(** [from('acts').select('act_id').eq('act_name', actName).single()] *)
Definition select_act (actName : option string) : MA (PgResult (option ActRow)) :=
  acts_request (EvSelect "acts" (show actName))
    (fun _ s =>
       (single (filter (fun r => opt_string_eqb (act_name r) (show actName))
                       (acts s)),
        (acts s, next_act_id s, acts_sections_scraping_sitemap s))).

(** [from('acts').insert([{ act_name: actName, country: 'US' }]).select()
    .single()] *)
Definition insert_act (actName : option string) : MA (PgResult (option ActRow)) :=
  acts_request (EvInsert "acts")
    (fun _ s =>
       let r := mkActRow (next_act_id s) actName "US" in
       (PgData (Some r),
        (acts s ++ [r], S (next_act_id s), acts_sections_scraping_sitemap s))).

(** [getExistingActId(actName)]: [None] is [null]. *)
Definition getExistingActId (actName : option string) : MA (option nat) :=
  try_catchA
    (r <- select_act actName ;;
     match error_of r with
     | Some error =>
         if Js.code_is error "PGRST116" then retA None else throwA error
     | None =>
         retA (match data_of r with
               | Some data => Some (act_id data)
               | None => None
               end)
     end)
    (fun error =>
       liftA (console_log ("Error checking existing act: " +++ Js.message error)) ;;;
       throwA error).

(** [insertAct(actName)] *)
Definition insertAct (actName : option string) : MA nat :=
  try_catchA
    (existingActId <- getExistingActId actName ;;
     if truthy_act_id existingActId
     then retA (match existingActId with Some i => i | None => 0 end)
     else
       r <- insert_act actName ;;
       match error_of r, data_of r with
       | Some error, _ => throwA error
       | None, None => throwA TypeError_null_act_id
       | None, Some data => retA (act_id data)
       end)
    (fun error => throwA error).

(** [from('acts_sections_scraping_sitemap').select('*').eq('url', siteMapUrl)
    .eq('processed', true)] *)
Definition select_sitemap (siteMapUrl : string)
  : MA (PgResult (list SitemapRow)) :=
  acts_request (EvSelect "acts_sections_scraping_sitemap" siteMapUrl)
    (fun _ s =>
       (PgData (filter (fun r => String.eqb (sm_url r) siteMapUrl && sm_processed r)
                       (acts_sections_scraping_sitemap s)),
        (acts s, next_act_id s, acts_sections_scraping_sitemap s))).

(** [from('acts_sections_scraping_sitemap').insert([{ url: siteMapUrl,
    processed: true, created_at: new Date() }])] *)
Definition insert_sitemap (siteMapUrl : string) : MA (PgResult unit) :=
  acts_request (EvInsert "acts_sections_scraping_sitemap")
    (fun t s =>
       (PgData tt,
        (acts s, next_act_id s,
         acts_sections_scraping_sitemap s ++ [mkSitemapRow siteMapUrl true t]))).

(** [checkIfProcessed(siteMapUrl)] *)
Definition checkIfProcessed (siteMapUrl : string) : MA bool :=
  r <- select_sitemap siteMapUrl ;;
  match r with
  | PgError error =>
      liftA (console_log ("Error fetching data: " +++ Js.message error)) ;;;
      retA false
  | PgData data => retA (0 <? length data)
  end.

(** [upsertSiteMap(siteMapUrl)] *)
Definition upsertSiteMap (siteMapUrl : string) : MA unit :=
  alreadyProcessed <- checkIfProcessed siteMapUrl ;;
  liftA (console_log ("alreadyProcessed "
                        +++ (if alreadyProcessed then "true" else "false"))) ;;;
  if alreadyProcessed then retA tt
  else
    r <- insert_sitemap siteMapUrl ;;
    match error_of r with
    | Some error =>
        liftA (console_log ("Error upserting: " +++ Js.message error))
    | None => retA tt
    end.

End Driver.

End UsActsTables.

(** No two acts under one name. *)
Definition act_names_distinct (s : ActsWorld) : Prop :=
  NoDup (map act_name (acts s)).

(** The ids of the acts are the ones the store has given: not [0], and
    below the next one. *)
Definition act_ids_given (s : ActsWorld) : Prop :=
  Forall (fun r => 0 < act_id r < next_act_id s) (acts s).

(** The acts filed under a name. *)
Definition acts_named (actName : string) (s : ActsWorld) : list ActRow :=
  filter (fun r => opt_string_eqb (act_name r) actName) (acts s).

(** The world of the acts driver before anything is stored. *)
Definition no_acts (w : World) : ActsWorld := mkActsWorld w [] 1 [].

(** The rows that mark a sitemap as processed. *)
Definition sitemap_marks (siteMapUrl : string) (s : ActsWorld) : list SitemapRow :=
  filter (fun r => String.eqb (sm_url r) siteMapUrl && sm_processed r)
         (acts_sections_scraping_sitemap s).

(* ================================================================= *)
(** ** us/acts_index.js, the driver *)

(** [s.includes(sub)] *)
Fixpoint includes (s sub : string) : bool :=
  String.prefix sub s
  || match s with
     | EmptyString => false
     | String _ r => includes r sub
     end.

(** An object the acts driver handles as a result: the parsed answer of
    the worker for a section page, or one of the objects the driver builds
    itself ([{ url, status, message }], [{ url, status, error }]).  Only
    the properties the driver reads are kept. *)
Record ActsResult := mkActsResult {
  ar_status : option string;
  ar_url : option string;
  ar_error : option string;
  ar_section_id : option string;
  ar_data : SectionData
}.

Definition no_section_data : SectionData :=
  mkSectionData None None None None None.

(** What the worker sends back to the acts driver.  A JSON number or
    boolean has none of the properties the driver reads and is not
    iterable: it behaves as an object without them.  A JSON string as a
    listing, which has a [length] and can be iterated, is not among the
    answers: the statements about listings name the array they are served
    as. *)
Inductive ActsBody :=
| ActsLocators (l : list string)   (* a JSON array of locators *)
| ActsDocument (o : ActsResult)    (* a JSON object *)
| ActsNull                         (* the JSON value [null] *)
| ActsMalformed.                   (* not JSON *)

Record ActsResponse := mkActsResponse {
  a_ok : bool;
  a_http_status : nat;
  a_body : ActsBody
}.

Inductive ActsNetOutcome :=
| ActsResponds (r : ActsResponse)
| ActsNetworkError (e : Js.Error).

(** What [fetchWithRetry] of the acts driver returns. *)
Inductive ActsFetchResult :=
| AfrResponse (r : ActsResponse)
| AfrFailed (afr_url afr_status afr_error : string).

Definition acts_locators_of (b : ActsBody) : list string :=
  match b with
  | ActsLocators l => l
  | _ => []
  end.

(** The parsed body as a result: [None] is [null]; an array has none of
    the properties the driver reads. *)
Definition acts_result_of (b : ActsBody) : option ActsResult :=
  match b with
  | ActsDocument o => Some o
  | ActsNull => None
  | _ => Some (mkActsResult None None None None no_section_data)
  end.

(** Reading property [length] of [null]. *)
Definition TypeError_null_length : Js.Error :=
  Js.mkError "Cannot read properties of null (reading 'length')" None.

(** [for ... of] over [null]. *)
Definition TypeError_null_not_iterable : Js.Error :=
  Js.mkError "siteMapUrls is not iterable" None.

(** Reading property [status] of [null]. *)
Definition TypeError_null_status : Js.Error :=
  Js.mkError "Cannot read properties of null (reading 'status')" None.

Fixpoint mapA {A B} (f : A -> MA B) (xs : list A) : MA (list B) :=
  match xs with
  | [] => retA []
  | x :: r => bindA (f x) (fun y => bindA (mapA f r) (fun ys => retA (y :: ys)))
  end.

Fixpoint forA_ {A} (f : A -> MA unit) (xs : list A) : MA unit :=
  match xs with
  | [] => retA tt
  | x :: r => bindA (f x) (fun _ => forA_ f r)
  end.

Module UsActsDriver.

Local Open Scope acts_scope.

Definition cloudFlareUrl : string :=
  "https://codes-findlaw-scraper.tejasw.workers.dev/api".

Record Config := mkConfig {
  maxSitemaps : nat;
  maxEntriesPerSitemap : nat;
  batchSize : nat;
  requestInterval : nat
}.

Definition config : Config := mkConfig 1 4 20 0.

Section Driver.

Variable env : Env.
Variable worker : nat -> string -> ActsNetOutcome.
Variable cfg : Config.

Definition fetchA (u : string) : MA ActsResponse :=
  fun s =>
    let t := now (base s) in
    let s' := mkActsWorld
                (mkWorld (db (base s)) (S t) (trace (base s) ++ [EvFetch u]))
                (acts s) (next_act_id s) (acts_sections_scraping_sitemap s) in
    match worker t u with
    | ActsResponds r => (Ret r, s')
    | ActsNetworkError e => (Throw e, s')
    end.

(** [await response.json()] *)
Definition jsonA (r : ActsResponse) : MA ActsBody :=
  match a_body r with
  | ActsMalformed => throwA Js.SyntaxError_json
  | b => retA b
  end.

(** The loop of [fetchWithRetry], as in the other drivers. *)
Fixpoint fetchWithRetry_from (u : string) (retries delayMs i fuel : nat)
  : MA ActsFetchResult :=
  match fuel with
  | 0 => retA (AfrFailed u "error" "Failed after multiple retries")
  | S f =>
      response <- fetchA u ;;
      if a_ok response then retA (AfrResponse response)
      else
        (if i <? retries - 1 then liftA (sleep delayMs) else retA tt) ;;;
        fetchWithRetry_from u retries delayMs (S i) f
  end.

Definition fetchWithRetry (u : string) (retries delayMs : nat)
  : MA ActsFetchResult :=
  fetchWithRetry_from u retries delayMs 0 retries.

(** [{ url, status: 'error', error: msg }] *)
Definition error_result (u msg : string) : ActsResult :=
  mkActsResult (Some "error") (Some u) (Some msg) None no_section_data.

(** [{ url, status: 'skipped', message: 'Section already exists' }] *)
Definition skipped_result (u : string) : ActsResult :=
  mkActsResult (Some "skipped") (Some u) None None no_section_data.

(** The async function mapped over a batch.  [response.ok] is read without
    asking whether the property is there: the object of a failed retry has
    none, and its [status] is the string [error]. *)
Definition scrape_section (u : string) : MA (option ActsResult) :=
  try_catchA
    (sectionExists <- liftA (UsActs.checkSectionExistsByUrl env u) ;;
     if sectionExists
     then
       liftA (console_log ("Section already exists, skipping: " +++ u)) ;;;
       retA (Some (skipped_result u))
     else
       response <- fetchWithRetry (cloudFlareUrl +++ "/scrape/acts?url=" +++ u)
                     default_retries default_delayMs ;;
       match response with
       | AfrResponse r =>
           if a_ok r
           then b <- jsonA r ;; retA (acts_result_of b)
           else retA (Some (error_result u ("HTTP error! Status: "
                                              +++ show_nat (a_http_status r))))
       | AfrFailed _ st _ =>
           retA (Some (error_result u ("HTTP error! Status: " +++ st)))
       end)
    (fun err => retA (Some (error_result u (Js.message err)))).

(** The body of [for (const result of results)].  [result.status] is
    read before the [try]: on [null] it raises out of the loop. *)
Definition store_result (result : option ActsResult) : MA unit :=
  match result with
  | None => throwA TypeError_null_status
  | Some result =>
      if opt_string_eqb (ar_status result) "error"
         || opt_string_eqb (ar_status result) "skipped"
      then liftA (console_log ("result " +++ show (ar_url result)))
      else
        try_catchA
          (actId <- UsActsTables.insertAct env (sd_act_name (ar_data result)) ;;
           liftA (UsActsWriter.insertSection env actId (ar_data result)))
          (fun error =>
             liftA (console_log ("Error processing result: "
                                   +++ Js.message error)) ;;;
             liftA (console_log ("Failed to insert section: "
                                   +++ show (ar_url result))))
  end.

(** One batch: fetch all, then store one by one. *)
Definition process_batch (batch : list string) : MA unit :=
  results <- mapA scrape_section batch ;;
  forA_ store_result results.

(** The elements the loop [for (let i = 0; i < pageUrls.length; ...)]
    goes through: [null] has no [length], an object has an undefined
    one. *)
Definition page_urls (pageUrls : ActsBody) : MA (list string) :=
  match pageUrls with
  | ActsNull => throwA TypeError_null_length
  | _ => retA (acts_locators_of pageUrls)
  end.

(** The body of [for (let siteMapUrl of siteMapUrls)]. *)
Definition process_sitemap (siteMapUrl : string) : MA unit :=
  if includes siteMapUrl "/cfr/"
  then liftA (console_log ("Skipping CFR sitemap: " +++ siteMapUrl))
  else
    isProcessed <- UsActsTables.checkIfProcessed env siteMapUrl ;;
    if isProcessed then retA tt
    else
      pageUrlRes <- fetchA (cloudFlareUrl +++ "/pages?sitemap=" +++ siteMapUrl) ;;
      pageUrls <- jsonA pageUrlRes ;;
      urls <- page_urls pageUrls ;;
      forA_ process_batch (batches urls (batchSize cfg)) ;;;
      UsActsTables.upsertSiteMap env siteMapUrl ;;;
      liftA (sleep 20000).

(** The value iterated by [for ... of]: an object is not iterable, nor is
    [null]. *)
Definition iterateA (b : ActsBody) : MA (list string) :=
  match b with
  | ActsDocument _ => throwA Js.TypeError_not_iterable
  | ActsNull => throwA TypeError_null_not_iterable
  | _ => retA (acts_locators_of b)
  end.

Definition scrapFindLaws : MA unit :=
  siteMapResponse <- fetchA (cloudFlareUrl +++ "/sitemaps/acts") ;;
  siteMapUrls <- jsonA siteMapResponse ;;
  urls <- iterateA siteMapUrls ;;
  forA_ process_sitemap urls.

End Driver.

End UsActsDriver.

(** A computation of the acts driver that returns from every world. *)
Definition returnsA {A} (m : MA A) : Prop :=
  forall s, exists a s', m s = (Ret a, s').

(** A computation of the acts driver that leaves the table of the
    sitemaps alone, and lets the clock go on, whether it returns or
    raises. *)
Definition keeps_sitemaps {A} (m : MA A) : Prop :=
  forall s,
    acts_sections_scraping_sitemap (snd (m s)) = acts_sections_scraping_sitemap s.

(** A worker of the acts driver that lists two sitemaps, one of them of
    the CFR, serves the listing of the sitemap [sm-al], one section page,
    and refuses every section page. *)
Definition pages_listed_sections_refused : nat -> string -> ActsNetOutcome :=
  fun _ u =>
    if String.eqb u (UsActsDriver.cloudFlareUrl +++ "/sitemaps/acts")
    then ActsResponds
           (mkActsResponse
              true 200
              (ActsLocators ["https://codes.findlaw.com/cfr/sitemap.xml"; "sm-al"]))
    else if String.eqb u (UsActsDriver.cloudFlareUrl +++ "/pages?sitemap=sm-al")
    then ActsResponds
           (mkActsResponse
              true 200
              (ActsLocators ["https://codes.findlaw.com/al/title-1/al-code-sect-1-1-1/"]))
    else ActsResponds (mkActsResponse false 503 ActsMalformed).

(* ================================================================= *)
(** ** The write of the Singapore writer *)








(** Text made of one-byte code points only.  On such text the white space
    of [Js.is_white_space] is all the white space that [trim] removes. *)
Fixpoint one_byte_text (s : string) : bool :=
  match s with
  | EmptyString => true
  | String c r => (nat_of_ascii c <? 128) && one_byte_text r
  end.

(** Every listing page of the Singapore site that is answered with an ok
    status carries a JSON array of locators, or is not JSON at all. *)
Definition listings_are_arrays (env : Env) : Prop :=
  forall t j r,
    net env t (Singapore.listing_url j) = Responds r ->
    ok r = true ->
    body r = BodyMalformed \/ exists l, body r = BodyLocators l.

(** The worker never answers with the JSON value [null]. *)
Definition never_null (worker : nat -> string -> ActsNetOutcome) : Prop :=
  forall t u r, worker t u = ActsResponds r -> a_body r <> ActsNull.

(** A computation of the acts driver that returns from every world, with
    a value that satisfies [P]. *)
Definition yields {A} (P : A -> Prop) (m : MA A) : Prop :=
  forall s, exists a s', m s = (Ret a, s') /\ P a.

(** A computation of the acts driver that, when it returns, returns a
    value that satisfies [P]. *)
Definition ensures {A} (P : A -> Prop) (m : MA A) : Prop :=
  forall s a s', m s = (Ret a, s') -> P a.

(** A result that is not [null]. *)
Definition not_null {A} (o : option A) : Prop := o <> None.

(* ================================================================= *)
(** ** Basic facts about the monad *)

Unset Implicit Arguments.

Arguments String.append : simpl never.
Arguments show_nat : simpl never.
Arguments Singapore.listing_url : simpl never.
Arguments Singapore.scrape_url : simpl never.

Lemma fetch_run (env : Env) (u : string) (w : World) :
  fetch env u w =
  (match net env (now w) u with
   | Responds r => Ret r
   | NetworkError e => Throw e
   end,
   mkWorld (db w) (S (now w)) (trace w ++ [EvFetch u])).
Proof.
  unfold fetch, bind, emit, tick; simpl.
  destruct (net env (now w) u); reflexivity.
Qed.

Lemma console_log_run (msg : string) (w : World) :
  console_log msg w = (Ret tt, mkWorld (db w) (now w) (trace w ++ [EvLog msg])).
Proof. reflexivity. Qed.

Lemma attempts_trace_S (u : string) (d n : nat) :
  0 < n ->
  attempts_trace u d (S n) = EvFetch u :: EvSleep d :: attempts_trace u d n.
Proof. destruct n; [lia | reflexivity]. Qed.

(* ================================================================= *)
(** ** The Fetcher *)

Lemma fetchWithRetry_from_step (env : Env) (u : string)
      (retries delayMs i f : nat) (w : World) :
  fetchWithRetry_from env u retries delayMs i (S f) w =
  match net env (now w) u with
  | NetworkError e => (Throw e, after_fetch u w)
  | Responds r =>
      if ok r then (Ret (FrResponse r), after_fetch u w)
      else fetchWithRetry_from env u retries delayMs (S i) f
             (after_pause delayMs (i <? retries - 1) (after_fetch u w))
  end.
Proof.
  simpl. unfold bind at 1. rewrite fetch_run. fold (after_fetch u w).
  destruct (net env (now w) u) as [r|e]; [|reflexivity].
  destruct (ok r); [reflexivity|].
  destruct (i <? retries - 1); reflexivity.
Qed.

Lemma fetchWithRetry_from_outcome (env : Env) (u : string) (retries delayMs : nat) :
  forall fuel i w,
    i + fuel = retries ->
    exists n,
      retry_outcome env u delayMs fuel w
                    (fetchWithRetry_from env u retries delayMs i fuel w) n.
Proof.
  induction fuel as [|f IH]; intros i w Hi.
  - exists 0. unfold retry_outcome; simpl.
    rewrite app_nil_r, Nat.add_0_r.
    repeat split; auto; intros; lia.
  - rewrite fetchWithRetry_from_step.
    destruct (net env (now w) u) as [r|e] eqn:Hnet.
    + destruct (ok r) eqn:Hok.
      * exists 1. unfold retry_outcome; simpl.
        rewrite Nat.add_0_r.
        repeat split; auto; try lia; intros; lia.
      * set (w2 := after_pause delayMs (i <? retries - 1) (after_fetch u w)).
        destruct (IH (S i) w2 ltac:(lia)) as [n Hn].
        destruct Hn as (Hle & Hpos & Hdb & Hnow & Htr & Hprev & Hres).
        assert (Hdb2 : db w2 = db w)
          by (unfold w2, after_pause; destruct (i <? retries - 1); reflexivity).
        assert (Hnow2 : now w2 = S (now w))
          by (unfold w2, after_pause; destruct (i <? retries - 1); reflexivity).
        assert (Hfirst : refused (net env (now w + 0) u))
          by (rewrite Nat.add_0_r; exists r; auto).
        assert (Hshift : forall k, now w + S k = now w2 + k)
          by (intros; rewrite Hnow2; lia).
        destruct f as [|f'].
        -- (* this was the last attempt *)
          assert (Hlt : (i <? retries - 1) = false) by (apply Nat.ltb_ge; lia).
          exists 1. unfold retry_outcome, w2. rewrite Hlt. simpl.
          repeat split; auto; try lia; try (intros; lia).
          intros k Hk. assert (k = 0) by lia; subst. exact Hfirst.
        -- specialize (Hpos ltac:(lia)).
          assert (Hlt : (i <? retries - 1) = true) by (apply Nat.ltb_lt; lia).
          assert (Htr2 : trace w2 = trace w ++ [EvFetch u; EvSleep delayMs]).
          { unfold w2. rewrite Hlt. simpl. rewrite <- app_assoc. reflexivity. }
          exists (S n). unfold retry_outcome.
          split; [lia|]. split; [lia|].
          split; [|split; [|split; [|split]]].
          ++ rewrite Hdb; exact Hdb2.
          ++ rewrite Hnow, Hnow2; lia.
          ++ rewrite Htr, Htr2, attempts_trace_S by lia.
             rewrite <- app_assoc. reflexivity.
          ++ intros k Hk. destruct k as [|k]; [exact Hfirst|].
             rewrite Hshift. apply Hprev; lia.
          ++ replace (now w + (S n - 1)) with (now w2 + (n - 1)) by lia.
             destruct (fst (fetchWithRetry_from env u retries delayMs (S i) (S f') w2))
               as [[r'|u' s' e']|e']; auto.
             destruct Hres as (Hn' & Hu & Hs & He & Hall).
             repeat split; auto; try lia.
             intros k Hk. destruct k as [|k]; [exact Hfirst|].
             rewrite Hshift. apply Hall; lia.
    + exists 1. unfold retry_outcome; simpl. rewrite Nat.add_0_r.
      repeat split; auto; try lia; intros; lia.
Qed.

(** The default policy: between one and five attempts, 2000 ms apart. *)
Lemma fetchWithRetry_bounded_steps (env : Env) (u : string) (w : World) :
  exists n,
    1 <= n <= 5
    /\ trace (snd (fetchWithRetry env u default_retries default_delayMs w))
       = trace w ++ attempts_trace u 2000 n.
Proof.
  unfold fetchWithRetry, default_retries, default_delayMs.
  destruct (fetchWithRetry_from_outcome env u 5 2000 5 0 w eq_refl) as [n Hn].
  destruct Hn as (Hle & Hpos & _ & _ & Htr & _).
  exists n. split; [lia | exact Htr].
Qed.

(** C5 (amended): for every URL the Fetcher makes between one and five
    attempts; every attempt before the last was answered by a non-success
    status and is followed by one pause of 2000 ms, the same each time; the
    loop ends on the first success (the response is returned), on the fifth
    refusal (the marker [{ url, status: "error", error: "Failed after
    multiple retries" }] is returned, not raised), or on the first network
    exception, which is not retried and is raised to the caller. *)
Theorem fetchWithRetry_bounded_retry (env : Env) (u : string) (w : World) :
  exists n,
    1 <= n <= 5
    /\ db (snd (fetchWithRetry env u default_retries default_delayMs w)) = db w
    /\ trace (snd (fetchWithRetry env u default_retries default_delayMs w))
       = trace w ++ attempts_trace u 2000 n
    /\ (forall k, S k < n -> refused (net env (now w + k) u))
    /\ match fst (fetchWithRetry env u default_retries default_delayMs w) with
       | Ret (FrResponse r) =>
           net env (now w + (n - 1)) u = Responds r /\ ok r = true
       | Ret (FrFailed u' s e) =>
           n = 5 /\ u' = u /\ s = "error"
           /\ e = "Failed after multiple retries"
           /\ (forall k, k < 5 -> refused (net env (now w + k) u))
       | Throw e => net env (now w + (n - 1)) u = NetworkError e
       end.
Proof.
  unfold fetchWithRetry, default_retries, default_delayMs.
  destruct (fetchWithRetry_from_outcome env u 5 2000 5 0 w eq_refl) as [n Hn].
  destruct Hn as (Hle & Hpos & Hdb & Hnow & Htr & Hprev & Hres).
  exists n. split; [lia|].
  split; [exact Hdb|]. split; [exact Htr|]. split; [exact Hprev|].
  revert Hres.
  destruct (fst (fetchWithRetry_from env u 5 2000 0 5 w)) as [[r|u' s e]|e];
    intros Hres; auto.
  destruct Hres as (Hn5 & Hu & Hs & He & Hall). subst n. auto.
Qed.

(** C5, as stated, fails: a network exception on the first attempt is
    neither retried nor turned into the marker; one GET is issued and the
    exception is raised. *)
Lemma fetchWithRetry_network_exception_raised :
  fetchWithRetry Scenario.net_down "https://caselaw.findlaw.com/x"
                 default_retries default_delayMs Scenario.w0
  = (Throw Scenario.connection_reset,
     mkWorld empty_db 1 [EvFetch "https://caselaw.findlaw.com/x"]).
Proof. reflexivity. Qed.

(** The two other ways out of the loop, on concrete environments. *)
Example fetchWithRetry_exhausted :
  fetchWithRetry Scenario.always_503 "u" default_retries default_delayMs Scenario.w0
  = (Ret (FrFailed "u" "error" "Failed after multiple retries"),
     mkWorld empty_db 5
             [EvFetch "u"; EvSleep 2000; EvFetch "u"; EvSleep 2000; EvFetch "u";
              EvSleep 2000; EvFetch "u"; EvSleep 2000; EvFetch "u"]).
Proof. reflexivity. Qed.

Example fetchWithRetry_third_attempt :
  fetchWithRetry Scenario.third_time_lucky "u" default_retries default_delayMs
                 Scenario.w0
  = (Ret (FrResponse (mkResponse true 200 (BodyLocators ["A"]))),
     mkWorld empty_db 3
             [EvFetch "u"; EvSleep 2000; EvFetch "u"; EvSleep 2000; EvFetch "u"]).
Proof. reflexivity. Qed.

(* ================================================================= *)
(** ** The Existence Oracle before a fetch *)

Lemma store_request_fault {A} (env : Env) (ev : Event)
      (run : DB -> PgResult A * DB) (w : World) (e : Js.Error) :
  fault env (now w) = Some e ->
  store_request env ev run w
  = (Ret (PgError e), mkWorld (db w) (S (now w)) (trace w ++ [ev])).
Proof.
  intros H. unfold store_request, bind, emit, tick; simpl.
  rewrite H. reflexivity.
Qed.

Lemma store_request_healthy {A} (env : Env) (ev : Event)
      (run : DB -> PgResult A * DB) (w : World) :
  fault env (now w) = None ->
  store_request env ev run w
  = (Ret (fst (run (db w))),
     mkWorld (snd (run (db w))) (S (now w)) (trace w ++ [ev])).
Proof.
  intros H. unfold store_request, bind, emit, tick, get_db, put_db; simpl.
  rewrite H. reflexivity.
Qed.

Lemma store_request_run {A} (env : Env) (ev : Event)
      (run : DB -> PgResult A * DB) (w : World) :
  store_request env ev run w
  = (Ret (match fault env (now w) with
          | Some e => PgError e
          | None => fst (run (db w))
          end),
     mkWorld (match fault env (now w) with
              | Some _ => db w
              | None => snd (run (db w))
              end)
             (S (now w)) (trace w ++ [ev])).
Proof.
  destruct (fault env (now w)) as [e|] eqn:Hf.
  - apply store_request_fault. exact Hf.
  - apply store_request_healthy. exact Hf.
Qed.

(** A store error at the tick of the query is one way for a lookup to
    fail; a row count that [single] or [maybeSingle] rejects is another. *)
Lemma fault_lookup_fails {A} (env : Env) (ev : Event)
      (run : DB -> PgResult A * DB) (w : World) (e : Js.Error) :
  fault env (now w) = Some e -> lookup_fails (store_request env ev run) w.
Proof.
  intros Hf. exists e. eexists. apply store_request_fault. exact Hf.
Qed.

(** C7: when the store answers the existence query with an error, whatever
    its code and its cause, [checkIfUrlProcessed] and
    [checkSectionExistsByUrl] return [false]: they neither raise nor report
    the URL as processed. *)
Theorem lookup_error_assumes_not_existing (env : Env) (u : string) (w : World) :
  (lookup_fails (select_processed env u) w ->
   fst (UsCaselaw.checkIfUrlProcessed env u w) = Ret false)
  /\ (lookup_fails (select_section env (UsActs.extractActIdentifierFromUrl u)) w ->
      fst (UsActs.checkSectionExistsByUrl env u w) = Ret false).
Proof.
  split.
  - intros [e [w1 Hq]].
    unfold UsCaselaw.checkIfUrlProcessed, bind at 1. rewrite Hq.
    cbn [error_of data_of is_some]. cbv beta iota.
    destruct (Js.code_is e "PGRST116"); reflexivity.
  - intros [e [w1 Hq]].
    unfold UsActs.checkSectionExistsByUrl, try_catch.
    unfold bind at 1. rewrite console_log_run.
    unfold bind at 1.
    unfold select_section in *. rewrite store_request_run in *.
    cbn [db now fst snd] in *.
    inversion Hq as [[Hres Hw1]]. rewrite Hres.
    cbn [error_of]. cbv beta iota.
    destruct (Js.code_is e "PGRST116"); reflexivity.
Qed.

Lemma lookup_error_witness :
  (lookup_fails (select_processed Scenario.store_unavailable "https://caselaw.findlaw.com/court/us-supreme-court/1")
                Scenario.w0
   /\ fst (UsCaselaw.checkIfUrlProcessed
             Scenario.store_unavailable
             "https://caselaw.findlaw.com/court/us-supreme-court/1" Scenario.w0)
      = Ret false)
  /\ (lookup_fails
        (select_section
           Scenario.net_down
           (UsActs.extractActIdentifierFromUrl
              "https://codes.findlaw.com/al/title-1/al-code-sect-1-1-1/"))
        (initial_world Scenario.two_sections)
      /\ fst (UsActs.checkSectionExistsByUrl
                Scenario.net_down
                "https://codes.findlaw.com/al/title-1/al-code-sect-1-1-1/"
                (initial_world Scenario.two_sections))
         = Ret false).
Proof.
  split.
  - assert (H : lookup_fails
                  (select_processed Scenario.store_unavailable
                                    "https://caselaw.findlaw.com/court/us-supreme-court/1")
                  Scenario.w0).
    { exists Scenario.store_down. eexists. reflexivity. }
    split; [exact H|].
    exact (proj1 (lookup_error_assumes_not_existing _ _ _) H).
  - assert (H : lookup_fails
                  (select_section
                     Scenario.net_down
                     (UsActs.extractActIdentifierFromUrl
                        "https://codes.findlaw.com/al/title-1/al-code-sect-1-1-1/"))
                  (initial_world Scenario.two_sections)).
    { exists PGRST116. eexists. reflexivity. }
    split; [exact H|].
    exact (proj2 (lookup_error_assumes_not_existing _ _ _) H).
Defined.

(* ================================================================= *)
(** ** The pagination loop of the Singapore driver *)

Lemma json_run (r : Response) (w : World) :
  json r w
  = (match body r with
     | BodyMalformed => Throw Js.SyntaxError_json
     | b => Ret b
     end, w).
Proof. unfold json. destruct (body r); reflexivity. Qed.

(** The loop always comes to an end within [enough_fuel] iterations. *)
Lemma pagination_fuel (env : Env) (cfg : Singapore.Config) :
  forall fuel i w,
    S (Singapore.maxPages cfg) - i < fuel ->
    fst (Singapore.pagination env cfg fuel i w) <> Ret Singapore.OutOfFuel.
Proof.
  induction fuel as [|f IH]; intros i w Hf; [lia|].
  simpl.
  destruct (i <=? Singapore.maxPages cfg) eqn:Hi; [|simpl; discriminate].
  apply Nat.leb_le in Hi.
  unfold bind at 1. rewrite console_log_run.
  unfold bind at 1. rewrite console_log_run.
  unfold bind at 1. rewrite fetch_run.
  destruct (net env _ _) as [r|e]; [|simpl; discriminate].
  destruct (ok r); simpl (negb _); cbv iota; [|simpl; discriminate].
  unfold bind at 1. rewrite json_run.
  set (b := body r).
  assert (Hb : forall b' : Body,
             fst ((if length (locators_of b') =? 0
                   then
                     console_log ("No cases found on page " +++ show_nat i
                                    +++ ", stopping pagination") ;;;
                     ret Singapore.NoCasesFound
                   else
                     Singapore.process_page env cfg i (locators_of b') ;;;
                     Singapore.pagination env cfg f (S i))
                    (after_fetch (Singapore.listing_url i)
                       (mkWorld (db w) (now w)
                          ((trace w ++ [EvLog ("Processing page " +++ show_nat i +++ "...")])
                             ++ [EvLog (Singapore.listing_url i)]))))
             <> Ret Singapore.OutOfFuel).
  { intros b'. destruct (length (locators_of b') =? 0); [simpl; discriminate|].
    unfold bind at 1.
    match goal with
    | |- context [Singapore.process_page env cfg i ?l ?w1] =>
        destruct (Singapore.process_page env cfg i l w1) as [[[]|e] w2]
    end; [|simpl; discriminate].
    apply IH. lia. }
  destruct b; [apply Hb | apply Hb | simpl; discriminate].
Qed.

(** C9: on a listing page that comes back with no locator the driver
    leaves the loop at once, through the "No cases found" exit, having
    issued that one listing request and nothing after it; and an index
    past [maxPages] ends the loop before any request.  With the fuel the
    driver gives it the loop always ends by one of its own exits. *)
Theorem pagination_stops
        (env : Env) (cfg : Singapore.Config) (f i : nat) (w : World) :
  (Singapore.maxPages cfg < i ->
   Singapore.pagination env cfg (S f) i w = (Ret Singapore.MaxPagesReached, w))
  /\ (forall r,
         i <= Singapore.maxPages cfg ->
         net env (now w) (Singapore.listing_url i) = Responds r ->
         ok r = true ->
         body r <> BodyMalformed ->
         locators_of (body r) = [] ->
         Singapore.pagination env cfg (S f) i w
         = (Ret Singapore.NoCasesFound,
            mkWorld (db w) (S (now w))
                    (trace w
                       ++ [EvLog ("Processing page " +++ show_nat i +++ "...");
                           EvLog (Singapore.listing_url i);
                           EvFetch (Singapore.listing_url i);
                           EvLog ("No cases found on page " +++ show_nat i
                                    +++ ", stopping pagination")])))
  /\ fst (Singapore.pagination env cfg (Singapore.enough_fuel cfg i) i w)
     <> Ret Singapore.OutOfFuel.
Proof.
  split; [|split].
  - intros Hi. simpl.
    assert (H : (i <=? Singapore.maxPages cfg) = false) by (apply Nat.leb_gt; lia).
    rewrite H. reflexivity.
  - intros r Hi Hnet Hok Hbody Hempty. simpl.
    assert (H : (i <=? Singapore.maxPages cfg) = true) by (apply Nat.leb_le; lia).
    rewrite H.
    unfold bind at 1. rewrite console_log_run.
    unfold bind at 1. rewrite console_log_run.
    unfold bind at 1. rewrite fetch_run. simpl now. rewrite Hnet, Hok. simpl (negb _).
    cbv iota. unfold bind at 1. rewrite json_run.
    destruct (body r) eqn:Hb; try congruence; simpl in Hempty; subst;
      simpl; unfold bind, console_log, emit, ret; simpl;
      rewrite <- !app_assoc; reflexivity.
  - apply pagination_fuel. unfold Singapore.enough_fuel. lia.
Qed.

Lemma pagination_stops_witness :
  (Singapore.maxPages Scenario.two_pages < 342
   /\ Singapore.pagination Scenario.empty_listing Scenario.two_pages 1 342 Scenario.w0
      = (Ret Singapore.MaxPagesReached, Scenario.w0))
  /\ (340 <= Singapore.maxPages Scenario.two_pages
      /\ net Scenario.empty_listing 0 (Singapore.listing_url 340)
         = Scenario.ok_locators []
      /\ fst (Singapore.pagination Scenario.empty_listing Scenario.two_pages
                (Singapore.enough_fuel Scenario.two_pages 340) 340 Scenario.w0)
         = Ret Singapore.NoCasesFound).
Proof.
  split.
  - split; [simpl; lia|].
    apply (proj1 (pagination_stops Scenario.empty_listing Scenario.two_pages
                                   0 342 Scenario.w0)).
    simpl; lia.
  - split; [simpl; lia|]. split; [reflexivity|].
    change (Singapore.enough_fuel Scenario.two_pages 340) with 3.
    rewrite (proj1 (proj2 (pagination_stops Scenario.empty_listing
                                            Scenario.two_pages 2 340 Scenario.w0))
               (mkResponse true 200 (BodyLocators [])));
      [reflexivity | simpl; lia | reflexivity | reflexivity | discriminate
       | reflexivity].
Defined.

(* ================================================================= *)
(** ** Blank text *)

Lemma trimStart_whitespace (s : string) :
  Js.whitespace_only s = true -> Js.trimStart s = EmptyString.
Proof.
  induction s as [|c r IH]; simpl; [reflexivity|].
  destruct (Js.is_white_space c); simpl; [exact IH | discriminate].
Qed.

Lemma trimEnd_keeps_first (c : ascii) (r : string) :
  Js.is_white_space c = false -> Js.trimEnd (String c r) <> EmptyString.
Proof.
  intros Hc. simpl. rewrite Hc.
  destruct (Js.trimEnd r); discriminate.
Qed.

(** [s.trim().length == 0] holds exactly of the strings made of white
    space. *)
Lemma trims_to_empty_whitespace (s : string) :
  Js.trims_to_empty s = Js.whitespace_only s.
Proof.
  unfold Js.trims_to_empty, Js.trim.
  induction s as [|c r IH]; [reflexivity|].
  simpl. destruct (Js.is_white_space c) eqn:Hc; simpl; [exact IH|].
  destruct (Js.trimEnd r); [rewrite Hc|]; reflexivity.
Qed.

(** A [Response] handed back by [fetchWithRetry] is an [ok] one. *)
Lemma fetchWithRetry_response_ok (env : Env) (u : string) (retries delayMs : nat)
      (w w' : World) (r : Response) :
  fetchWithRetry env u retries delayMs w = (Ret (FrResponse r), w') ->
  ok r = true.
Proof.
  unfold fetchWithRetry. intros H.
  destruct (fetchWithRetry_from_outcome env u retries delayMs retries 0 w eq_refl)
    as [n Hn].
  destruct Hn as (_ & _ & _ & _ & _ & _ & Hres).
  rewrite H in Hres. simpl in Hres. tauto.
Qed.

(* ================================================================= *)
(** ** The second pass of the Singapore driver *)

(** C10: when the first request for a locator comes back as a document
    whose [case_text] is empty or white space, the driver asks once more,
    for the same locator with [isOld=true]: after the first response the
    trace holds the two announcements and one retry sequence on the
    [isOld] URL, nothing else; and when that sequence ends on a response
    the result is built from the second document. *)
Theorem second_pass_with_isOld
        (env : Env) (u : string) (w w1 : World) (r1 : Response)
        (d : ScrapeObj) (t : string) :
  fetchWithRetry env (Singapore.scrape_url u) default_retries default_delayMs
                 (snd (console_log ("First attempt: " +++ Singapore.scrape_url u) w))
  = (Ret (FrResponse r1), w1) ->
  body r1 = BodyDocument d ->
  case_text d = Some t ->
  Js.whitespace_only t = true ->
  let old := Singapore.scrape_url u +++ "&isOld=true" in
  let announced :=
    [EvLog ("Blank case_text found, retrying with isOld=true for: " +++ u);
     EvLog ("Second attempt: " +++ old)] in
  exists n,
    1 <= n <= 5
    /\ trace (snd (Singapore.scrape_case env u w))
       = trace w1 ++ announced ++ attempts_trace old 2000 n
    /\ (forall r2 w2,
           fetchWithRetry env old default_retries default_delayMs
                          (mkWorld (db w1) (now w1) (trace w1 ++ announced))
           = (Ret (FrResponse r2), w2) ->
           body r2 <> BodyMalformed ->
           fst (Singapore.scrape_case env u w)
           = Ret (with_url (document_of (body r2)) u)).
Proof.
  intros Hfirst Hbody Htext Hblank old announced.
  pose proof (fetchWithRetry_response_ok _ _ _ _ _ _ _ Hfirst) as Hok1.
  assert (Hb : Singapore.blank_case_text d = true).
  { unfold Singapore.blank_case_text. simpl. rewrite Htext.
    rewrite trims_to_empty_whitespace, Hblank. apply orb_true_r. }
  set (w1' := mkWorld (db w1) (now w1) (trace w1 ++ announced)).
  (* the run up to the second sequence of attempts *)
  assert (Hrun :
    Singapore.scrape_case env u w
    = match fetchWithRetry env old default_retries default_delayMs w1' with
      | (Ret (FrResponse r2), w2) =>
          if ok r2
          then match body r2 with
               | BodyMalformed => (Ret (error_obj u (Js.message Js.SyntaxError_json)), w2)
               | b2 => (Ret (with_url (document_of b2) u), w2)
               end
          else (Ret (with_url d u), w2)
      | (Ret (FrFailed _ _ _), w2) => (Ret (with_url d u), w2)
      | (Throw e, w2) => (Ret (error_obj u (Js.message e)), w2)
      end).
  { unfold Singapore.scrape_case, try_catch.
    unfold bind at 1. rewrite console_log_run.
    rewrite console_log_run in Hfirst. simpl snd in Hfirst.
    unfold bind at 1. rewrite Hfirst. unfold response_ok. rewrite Hok1.
    unfold bind at 1. rewrite json_run, Hbody. simpl document_of.
    rewrite Hb.
    unfold bind at 1. unfold bind at 1. rewrite console_log_run.
    unfold bind at 1. rewrite console_log_run. simpl db. simpl now. simpl trace.
    rewrite <- app_assoc. simpl app. fold old. fold announced. fold w1'.
    unfold bind at 1.
    destruct (fetchWithRetry env old default_retries default_delayMs w1')
      as [[[r2|a b c]|e] w2]; try reflexivity.
    destruct (ok r2); [|reflexivity].
    unfold bind at 1. rewrite json_run.
    destruct (body r2); reflexivity. }
  destruct (fetchWithRetry_bounded_steps env old w1') as [n (Hn & Htr)].
  exists n. split; [exact Hn|]. split.
  - rewrite Hrun.
    assert (Htr' : trace (snd (fetchWithRetry env old default_retries default_delayMs w1'))
                   = trace w1 ++ announced ++ attempts_trace old 2000 n).
    { rewrite Htr. unfold w1'. simpl. rewrite <- app_assoc. reflexivity. }
    revert Htr'.
    destruct (fetchWithRetry env old default_retries default_delayMs w1')
      as [[[r2|a b c]|e] w2]; simpl; intros Htr'; try exact Htr'.
    destruct (ok r2); [|exact Htr'].
    destruct (body r2); exact Htr'.
  - intros r2 w2 Hsecond Hbody2.
    rewrite Hrun, Hsecond.
    rewrite (fetchWithRetry_response_ok _ _ _ _ _ _ _ Hsecond).
    destruct (body r2); [reflexivity | reflexivity | congruence].
Qed.

Lemma second_pass_witness :
  Js.whitespace_only "   " = true
  /\ fst (Singapore.scrape_case Scenario.legacy_format Scenario.sg_case Scenario.w0)
     = Ret (with_url (Scenario.judgment "Tan v Lim" "The plaintiff ..." "[2001] SGHC 27")
                     Scenario.sg_case).
Proof.
  split; [reflexivity|].
  pose (first := Singapore.scrape_url Scenario.sg_case).
  pose (blank := Scenario.judgment "Tan v Lim" "   " "[2001] SGHC 27").
  pose (w1 := mkWorld empty_db 1 [EvLog ("First attempt: " +++ first); EvFetch first]).
  destruct (second_pass_with_isOld
              Scenario.legacy_format Scenario.sg_case Scenario.w0 w1
              (mkResponse true 200 (BodyDocument blank)) blank "   "
              eq_refl eq_refl eq_refl eq_refl) as [n (_ & _ & Huse)].
  apply (Huse (mkResponse true 200
                 (BodyDocument (Scenario.judgment "Tan v Lim" "The plaintiff ..."
                                                  "[2001] SGHC 27")))
              (mkWorld empty_db 2
                 (trace w1
                    ++ [EvLog ("Blank case_text found, retrying with isOld=true for: "
                                 +++ Scenario.sg_case);
                        EvLog ("Second attempt: " +++ first +++ "&isOld=true");
                        EvFetch (first +++ "&isOld=true")])));
    [reflexivity | discriminate].
Defined.

(* ================================================================= *)
(** ** The [catch] block of the Ingest Writer *)

Lemma upsert_ledger_run (env : Env) (p : LedgerPayload) (w : World) :
  upsert_ledger env p w
  = (Ret (match fault env (now w) with
          | Some e => PgError e
          | None => PgData tt
          end),
     mkWorld (after_upsert env p w) (S (now w))
             (trace w ++ [EvUpsert "caselaw_scraping_urls" (p_url p)])).
Proof.
  unfold upsert_ledger, after_upsert.
  destruct (fault env (now w)) as [e|] eqn:Hf.
  - rewrite (store_request_fault _ _ _ _ e Hf). reflexivity.
  - rewrite (store_request_healthy _ _ _ _ Hf). reflexivity.
Qed.

(** The same block in the US writer. *)
Lemma UsCaselaw_catch_block_run
      (env : Env) (caseData : ScrapeObj) (sourceUrl : string)
      (w w1 : World) (e : Js.Error) :
  UsCaselaw.insertCaseLaw_try env caseData sourceUrl w = (Throw e, w1) ->
  UsCaselaw.insertCaseLaw env caseData sourceUrl w
  = (Throw e,
     mkWorld (after_upsert env (error_payload sourceUrl e None) w1)
             (S (now w1))
             (trace w1
                ++ [EvUpsert "caselaw_scraping_urls" sourceUrl;
                    EvLog ("Error inserting case law: " +++ Js.message e)])).
Proof.
  intros Htry.
  unfold UsCaselaw.insertCaseLaw, try_catch. rewrite Htry.
  unfold UsCaselaw.insertCaseLaw_catch.
  unfold bind at 1. fold (error_payload sourceUrl e None).
  rewrite upsert_ledger_run.
  unfold bind at 1. rewrite console_log_run. simpl.
  rewrite <- app_assoc. reflexivity.
Qed.


(* ================================================================= *)
(** ** The ledger *)

Lemma upsert_rows_urls (p : LedgerPayload) (rows : list LedgerRow) :
  map l_url (upsert_rows p rows)
  = if existsb (fun r => String.eqb (l_url r) (p_url p)) rows
    then map l_url rows
    else map l_url rows ++ [p_url p].
Proof.
  unfold upsert_rows.
  destruct (existsb _ rows).
  - rewrite map_map. apply map_ext. intros r.
    destruct (String.eqb (l_url r) (p_url p)); reflexivity.
  - rewrite map_app. reflexivity.
Qed.

Lemma existsb_url_In (u : string) (rows : list LedgerRow) :
  existsb (fun r => String.eqb (l_url r) u) rows = true <-> In u (map l_url rows).
Proof.
  rewrite existsb_exists, in_map_iff. split.
  - intros [r [Hin Heq]]. apply String.eqb_eq in Heq. exists r; auto.
  - intros [r [Heq Hin]]. exists r. split; [exact Hin|].
    apply String.eqb_eq. exact Heq.
Qed.

(** Upserting keeps the locators of the ledger pairwise distinct. *)
Lemma upsert_rows_NoDup (p : LedgerPayload) (rows : list LedgerRow) :
  NoDup (map l_url rows) -> NoDup (map l_url (upsert_rows p rows)).
Proof.
  intros Hnd. rewrite upsert_rows_urls.
  destruct (existsb _ rows) eqn:Hex; [exact Hnd|].
  apply NoDup_app; [exact Hnd | repeat constructor; simpl; tauto |].
  intros x Hx [Hx' | []]. subst x.
  apply existsb_url_In in Hx. congruence.
Qed.

(** After an upsert the locator has one row, with the status given. *)
Lemma upsert_rows_entry (p : LedgerPayload) (rows : list LedgerRow) :
  NoDup (map l_url rows) ->
  exists row,
    filter (fun r => String.eqb (l_url r) (p_url p)) (upsert_rows p rows) = [row]
    /\ l_status row = p_status p
    /\ l_processed row = p_processed p.
Proof.
  intros Hnd. unfold upsert_rows.
  destruct (existsb _ rows) eqn:Hex.
  - induction rows as [|r rows IH]; [discriminate|].
    simpl in Hnd. inversion Hnd as [|? ? Hnotin Hnd']; subst.
    simpl. destruct (String.eqb (l_url r) (p_url p)) eqn:Hr.
    + simpl. rewrite Hr.
      apply String.eqb_eq in Hr.
      assert (Hnone : existsb (fun r0 => String.eqb (l_url r0) (p_url p)) rows = false).
      { destruct (existsb _ rows) eqn:Hex'; [|reflexivity].
        apply existsb_url_In in Hex'. rewrite <- Hr in Hex'. contradiction. }
      exists (merge_ledger p r). split; [|split; reflexivity].
      f_equal.
      clear -Hnone. induction rows as [|r' rows IH]; [reflexivity|].
      simpl in Hnone. apply orb_false_iff in Hnone. destruct Hnone as [Hr' Hrows].
      simpl. rewrite Hr'. rewrite Hr'. apply IH. exact Hrows.
    + simpl in Hex. rewrite Hr in Hex. simpl in Hex.
      rewrite Hr. apply IH; assumption.
  - exists (new_ledger p). split; [|split; reflexivity].
    rewrite filter_app. simpl. rewrite String.eqb_refl.
    assert (Hnone : filter (fun r => String.eqb (l_url r) (p_url p)) rows = []).
    { clear -Hex. induction rows as [|r rows IH]; [reflexivity|].
      simpl in Hex. apply orb_false_iff in Hex. destruct Hex as [Hr Hrows].
      simpl. rewrite Hr. apply IH. exact Hrows. }
    rewrite Hnone. reflexivity.
Qed.

Lemma after_upsert_NoDup (env : Env) (p : LedgerPayload) (w : World) :
  NoDup (map l_url (caselaw_scraping_urls (db w))) ->
  NoDup (map l_url (caselaw_scraping_urls (after_upsert env p w))).
Proof.
  intros Hnd. unfold after_upsert.
  destruct (fault env (now w)); [exact Hnd|].
  simpl. apply upsert_rows_NoDup. exact Hnd.
Qed.

Lemma insert_case_run (env : Env) (t : CaseTable) (o : ScrapeObj)
      (country : string) (w : World) :
  insert_case env t o country w
  = (Ret (match fault env (now w) with
          | Some e => PgError e
          | None => PgData (Some (case_row (next_id (db w)) o country))
          end),
     mkWorld (match fault env (now w) with
              | Some _ => db w
              | None => add_case_row t (case_row (next_id (db w)) o country) (db w)
              end)
             (S (now w)) (trace w ++ [EvInsert (table_name t)])).
Proof.
  unfold insert_case.
  destruct (fault env (now w)) as [e|] eqn:Hf.
  - rewrite (store_request_fault _ _ _ _ e Hf). reflexivity.
  - rewrite (store_request_healthy _ _ _ _ Hf). reflexivity.
Qed.

Lemma add_case_row_ledger (t : CaseTable) (r : CaseRow) (d : DB) :
  caselaw_scraping_urls (add_case_row t r d) = caselaw_scraping_urls d.
Proof. destruct t; reflexivity. Qed.

(** The [try] block of the US writer, request by request. *)
Lemma UsCaselaw_insertCaseLaw_try_run
      (env : Env) (caseData : ScrapeObj) (sourceUrl : string) (w : World) :
  UsCaselaw.insertCaseLaw_try env caseData sourceUrl w
  = match fault env (now w) with
    | Some _ =>
        (Throw Js.TypeError_null_id,
         mkWorld (db w) (S (now w)) (trace w ++ [EvInsert "caselaw_us"]))
    | None =>
        let row := case_row (next_id (db w)) caseData "US" in
        let w1 := mkWorld (add_case_row Caselaw_us row (db w)) (S (now w))
                          (trace w ++ [EvInsert "caselaw_us"]) in
        (match fault env (S (now w)) with
         | Some e => Throw e
         | None => Ret (next_id (db w))
         end,
         mkWorld (after_upsert env (success_payload sourceUrl (next_id (db w)) None) w1)
                 (S (S (now w)))
                 (trace w ++ [EvInsert "caselaw_us";
                              EvUpsert "caselaw_scraping_urls" sourceUrl;
                              EvLog ("data " +++ show_nat (next_id (db w)))]))
    end.
Proof.
  unfold UsCaselaw.insertCaseLaw_try.
  unfold bind at 1. rewrite insert_case_run.
  destruct (fault env (now w)) as [e|] eqn:Hinsert; [reflexivity|].
  cbn [data_of]. cbv beta iota.
  unfold bind at 1. cbn [id case_row].
  fold (success_payload sourceUrl (next_id (db w)) None).
  rewrite upsert_ledger_run. cbn [now].
  destruct (fault env (S (now w))) eqn:Hupsert;
    unfold bind, console_log, emit, ret, throw; simpl;
    rewrite <- !app_assoc; reflexivity.
Qed.

(** The whole US writer, request by request. *)
Lemma UsCaselaw_insertCaseLaw_run
      (env : Env) (caseData : ScrapeObj) (sourceUrl : string) (w : World) :
  UsCaselaw.insertCaseLaw env caseData sourceUrl w
  = match UsCaselaw.insertCaseLaw_try env caseData sourceUrl w with
    | (Ret i, w1) => (Ret i, w1)
    | (Throw e, w1) =>
        (Throw e,
         mkWorld (after_upsert env (error_payload sourceUrl e None) w1)
                 (S (now w1))
                 (trace w1
                    ++ [EvUpsert "caselaw_scraping_urls" sourceUrl;
                        EvLog ("Error inserting case law: " +++ Js.message e)]))
    end.
Proof.
  destruct (UsCaselaw.insertCaseLaw_try env caseData sourceUrl w)
    as [[i|e] w1] eqn:Htry.
  - unfold UsCaselaw.insertCaseLaw, try_catch. rewrite Htry. reflexivity.
  - apply UsCaselaw_catch_block_run. exact Htry.
Qed.

(* ----------------------------------------------------------------- *)
(** *** Steps that keep the ledger well-formed *)

Lemma ledger_step_refl (d : DB) : ledger_step d d.
Proof. split; [auto | apply incl_refl]. Qed.

Lemma ledger_step_trans (d1 d2 d3 : DB) :
  ledger_step d1 d2 -> ledger_step d2 d3 -> ledger_step d1 d3.
Proof.
  intros [H1 I1] [H2 I2]. split; [auto|].
  eapply incl_tran; eassumption.
Qed.

Lemma ledger_step_same_ledger (d d' : DB) :
  caselaw_scraping_urls d' = caselaw_scraping_urls d -> ledger_step d d'.
Proof.
  intros H. unfold ledger_step, ledger_ok. rewrite H.
  split; [auto | apply incl_refl].
Qed.

Lemma upsert_rows_settled (p : LedgerPayload) (rows : list LedgerRow) :
  p_status p = "success" \/ p_status p = "error" ->
  Forall settled rows -> Forall settled (upsert_rows p rows).
Proof.
  intros Hp Hrows. unfold upsert_rows.
  destruct (existsb _ rows).
  - apply Forall_forall. intros r Hr. apply in_map_iff in Hr.
    destruct Hr as [r0 [Hr0 Hin]]. subst r.
    destruct (String.eqb (l_url r0) (p_url p)); [exact Hp|].
    eapply Forall_forall in Hrows; eassumption.
  - apply Forall_app. split; [exact Hrows|]. constructor; [exact Hp | constructor].
Qed.

Lemma ledger_step_upsert (p : LedgerPayload) (d : DB) :
  p_status p = "success" \/ p_status p = "error" ->
  ledger_step d (set_ledger (upsert_rows p (caselaw_scraping_urls d)) d).
Proof.
  intros Hp. split.
  - intros [Hnd Hst]. split; simpl.
    + apply upsert_rows_NoDup. exact Hnd.
    + apply upsert_rows_settled; assumption.
  - simpl. rewrite upsert_rows_urls.
    destruct (existsb _ _); [apply incl_refl | apply incl_appl, incl_refl].
Qed.

Lemma ledger_safe_ret {A} (a : A) : ledger_safe (ret a).
Proof. intros w. apply ledger_step_refl. Qed.

Lemma ledger_safe_throw {A} (e : Js.Error) : ledger_safe (@throw A e).
Proof. intros w. apply ledger_step_refl. Qed.

Lemma ledger_safe_emit (e : Event) : ledger_safe (emit e).
Proof. intros w. apply ledger_step_refl. Qed.

Lemma ledger_safe_bind {A B} (m : M A) (k : A -> M B) :
  ledger_safe m -> (forall a, ledger_safe (k a)) -> ledger_safe (bind m k).
Proof.
  intros Hm Hk w. unfold bind. specialize (Hm w).
  destruct (m w) as [[a|e] w1]; simpl in Hm; [|exact Hm].
  eapply ledger_step_trans; [exact Hm | apply Hk].
Qed.

Lemma ledger_safe_try_catch {A} (m : M A) (h : Js.Error -> M A) :
  ledger_safe m -> (forall e, ledger_safe (h e)) -> ledger_safe (try_catch m h).
Proof.
  intros Hm Hh w. unfold try_catch. specialize (Hm w).
  destruct (m w) as [[a|e] w1]; simpl in Hm; [exact Hm|].
  eapply ledger_step_trans; [exact Hm | apply Hh].
Qed.

Lemma ledger_safe_when (b : bool) (m : M unit) :
  ledger_safe m -> ledger_safe (when b m).
Proof. intros Hm. destruct b; [exact Hm | apply ledger_safe_ret]. Qed.

Lemma ledger_safe_mapM {A B} (f : A -> M B) (xs : list A) :
  (forall x, ledger_safe (f x)) -> ledger_safe (mapM f xs).
Proof.
  intros Hf. induction xs as [|x r IH]; simpl; [apply ledger_safe_ret|].
  apply ledger_safe_bind; [apply Hf|]. intros y.
  apply ledger_safe_bind; [exact IH|]. intros ys. apply ledger_safe_ret.
Qed.

Lemma ledger_safe_forM_ {A} (f : A -> M unit) (xs : list A) :
  (forall x, ledger_safe (f x)) -> ledger_safe (forM_ f xs).
Proof.
  intros Hf. induction xs as [|x r IH]; simpl; [apply ledger_safe_ret|].
  apply ledger_safe_bind; [apply Hf|]. intros _. exact IH.
Qed.

Lemma ledger_safe_store_request {A} (env : Env) (ev : Event)
      (run : DB -> PgResult A * DB) :
  (forall d, ledger_step d (snd (run d))) ->
  ledger_safe (store_request env ev run).
Proof.
  intros Hrun w. rewrite store_request_run. simpl.
  destruct (fault env (now w)); [apply ledger_step_refl | apply Hrun].
Qed.

Lemma ledger_safe_fetch (env : Env) (u : string) : ledger_safe (fetch env u).
Proof. intros w. rewrite fetch_run. apply ledger_step_refl. Qed.

Lemma ledger_safe_json (r : Response) : ledger_safe (json r).
Proof. intros w. rewrite json_run. apply ledger_step_refl. Qed.

Lemma ledger_safe_fetchWithRetry (env : Env) (u : string) (retries delayMs : nat) :
  ledger_safe (fetchWithRetry env u retries delayMs).
Proof.
  intros w. unfold fetchWithRetry.
  destruct (fetchWithRetry_from_outcome env u retries delayMs retries 0 w eq_refl)
    as [n (_ & _ & Hdb & _)].
  rewrite Hdb. apply ledger_step_refl.
Qed.

Lemma ledger_safe_select_processed (env : Env) (u : string) :
  ledger_safe (select_processed env u).
Proof.
  apply ledger_safe_store_request. intros d. apply ledger_step_refl.
Qed.

Lemma ledger_safe_insert_case (env : Env) (t : CaseTable) (o : ScrapeObj)
      (country : string) :
  ledger_safe (insert_case env t o country).
Proof.
  apply ledger_safe_store_request. intros d. simpl.
  apply ledger_step_same_ledger. apply add_case_row_ledger.
Qed.

Lemma ledger_safe_upsert_ledger (env : Env) (p : LedgerPayload) :
  p_status p = "success" \/ p_status p = "error" ->
  ledger_safe (upsert_ledger env p).
Proof.
  intros Hp. apply ledger_safe_store_request. intros d. simpl.
  apply ledger_step_upsert. exact Hp.
Qed.

Ltac ledger_step :=
  first
    [ apply ledger_safe_ret
    | apply ledger_safe_throw
    | apply ledger_safe_json
    | apply ledger_safe_emit
    | apply ledger_safe_fetchWithRetry
    | apply ledger_safe_fetch
    | apply ledger_safe_select_processed
    | apply ledger_safe_insert_case
    | apply ledger_safe_upsert_ledger; simpl; tauto
    | apply ledger_safe_when
    | apply ledger_safe_bind; [|intros ?]
    | apply ledger_safe_try_catch; [|intros ?]
    | apply ledger_safe_mapM; intros ?
    | apply ledger_safe_forM_; intros ?
    | match goal with
      | |- ledger_safe (match ?x with _ => _ end) => destruct x
      end ].

Ltac ledger_auto := repeat ledger_step.

Lemma UsCaselaw_insertCaseLaw_ledger_safe
      (env : Env) (caseData : ScrapeObj) (u : string) :
  ledger_safe (UsCaselaw.insertCaseLaw env caseData u).
Proof.
  unfold UsCaselaw.insertCaseLaw, UsCaselaw.insertCaseLaw_try,
    UsCaselaw.insertCaseLaw_catch, console_log.
  ledger_auto.
Qed.

Lemma UsCaselaw_dispatch_ledger_safe (env : Env) (cloudFlareBatch : list string) :
  ledger_safe (UsCaselaw.process_cloudFlareBatch env cloudFlareBatch).
Proof.
  unfold UsCaselaw.process_cloudFlareBatch, sleep.
  apply ledger_safe_bind.
  { apply ledger_safe_mapM. intros u. unfold UsCaselaw.scrape_case. ledger_auto. }
  intros results. apply ledger_safe_bind; [|intros _; apply ledger_safe_emit].
  apply ledger_safe_forM_. intros result.
  unfold UsCaselaw.store_result, console_log.
  destruct (status_is_error result); [apply ledger_safe_emit|].
  apply ledger_safe_try_catch; [|intros e; apply ledger_safe_emit].
  apply ledger_safe_bind; [apply UsCaselaw_insertCaseLaw_ledger_safe|].
  intros _. apply ledger_safe_emit.
Qed.

(** The whole US run changes the ledger by upserts only. *)
Lemma UsCaselaw_scrapFindLaws_ledger_safe (env : Env) (cfg : UsCaselaw.Config) :
  ledger_safe (UsCaselaw.scrapFindLaws env cfg).
Proof.
  unfold UsCaselaw.scrapFindLaws.
  apply ledger_safe_bind; [apply ledger_safe_fetch|]. intros r.
  apply ledger_safe_bind; [apply ledger_safe_json|]. intros b.
  apply ledger_safe_bind; [unfold iterate; ledger_auto|]. intros urls.
  apply ledger_safe_forM_. intros siteMapUrl.
  unfold UsCaselaw.process_sitemap, UsCaselaw.process_pageUrls, sleep, console_log.
  apply ledger_safe_bind; [apply ledger_safe_fetch|]. intros r'.
  apply ledger_safe_bind; [apply ledger_safe_json|]. intros b'.
  apply ledger_safe_bind; [apply ledger_safe_emit|]. intros _.
  apply ledger_safe_bind; [|intros _; apply ledger_safe_emit].
  apply ledger_safe_forM_. intros filterBatch.
  unfold UsCaselaw.process_filterBatch, console_log.
  apply ledger_safe_bind.
  { apply ledger_safe_mapM. intros u.
    unfold UsCaselaw.check_url, UsCaselaw.checkIfUrlProcessed, console_log.
    ledger_auto. }
  intros checked.
  apply ledger_safe_bind; [apply ledger_safe_emit|]. intros _.
  apply ledger_safe_forM_. intros batch. apply UsCaselaw_dispatch_ledger_safe.
Qed.




(* ================================================================= *)
(** ** Which events a computation can emit *)

Section Emits.

Variable P : Event -> bool.

Lemma emits_ret {A} (a : A) : emits P (ret a).
Proof. intros w. exists []. simpl. rewrite app_nil_r. auto. Qed.

Lemma emits_throw {A} (e : Js.Error) : emits P (@throw A e).
Proof. intros w. exists []. simpl. rewrite app_nil_r. auto. Qed.

Lemma emits_bind {A B} (m : M A) (k : A -> M B) :
  emits P m -> (forall a, emits P (k a)) -> emits P (bind m k).
Proof.
  intros Hm Hk w. unfold bind.
  destruct (Hm w) as [evs [Ht Hp]].
  destruct (m w) as [[a|e] w1]; simpl in Ht.
  - destruct (Hk a w1) as [evs2 [Ht2 Hp2]].
    exists (evs ++ evs2). rewrite Ht2, Ht, app_assoc, forallb_app, Hp, Hp2. auto.
  - exists evs. auto.
Qed.

Lemma emits_try_catch {A} (m : M A) (h : Js.Error -> M A) :
  emits P m -> (forall e, emits P (h e)) -> emits P (try_catch m h).
Proof.
  intros Hm Hh w. unfold try_catch.
  destruct (Hm w) as [evs [Ht Hp]].
  destruct (m w) as [[a|e] w1]; simpl in Ht.
  - exists evs. auto.
  - destruct (Hh e w1) as [evs2 [Ht2 Hp2]].
    exists (evs ++ evs2). rewrite Ht2, Ht, app_assoc, forallb_app, Hp, Hp2. auto.
Qed.

Lemma emits_emit (e : Event) : P e = true -> emits P (emit e).
Proof. intros He w. exists [e]. simpl. rewrite He. auto. Qed.

Lemma emits_tick : emits P tick.
Proof. intros w. exists []. simpl. rewrite app_nil_r. auto. Qed.

Lemma emits_get_db : emits P get_db.
Proof. intros w. exists []. simpl. rewrite app_nil_r. auto. Qed.

Lemma emits_put_db (d : DB) : emits P (put_db d).
Proof. intros w. exists []. simpl. rewrite app_nil_r. auto. Qed.

Lemma emits_when (b : bool) (m : M unit) : emits P m -> emits P (when b m).
Proof. intros Hm. destruct b; [exact Hm | apply emits_ret]. Qed.

Lemma emits_mapM {A B} (f : A -> M B) (xs : list A) :
  (forall x, emits P (f x)) -> emits P (mapM f xs).
Proof.
  intros Hf. induction xs as [|x r IH]; simpl; [apply emits_ret|].
  apply emits_bind; [apply Hf|]. intros y.
  apply emits_bind; [exact IH|]. intros ys. apply emits_ret.
Qed.

Lemma emits_forM_ {A} (f : A -> M unit) (xs : list A) :
  (forall x, emits P (f x)) -> emits P (forM_ f xs).
Proof.
  intros Hf. induction xs as [|x r IH]; simpl; [apply emits_ret|].
  apply emits_bind; [apply Hf|]. intros _. exact IH.
Qed.

Lemma emits_store_request {A} (env : Env) (ev : Event)
      (run : DB -> PgResult A * DB) :
  P ev = true -> emits P (store_request env ev run).
Proof.
  intros Hev. unfold store_request.
  apply emits_bind; [apply emits_emit; exact Hev|]. intros _.
  apply emits_bind; [apply emits_tick|]. intros t.
  destruct (fault env t); [apply emits_ret|].
  apply emits_bind; [apply emits_get_db|]. intros d.
  apply emits_bind; [apply emits_put_db|]. intros _. apply emits_ret.
Qed.

Lemma emits_fetch (env : Env) (u : string) :
  P (EvFetch u) = true -> emits P (fetch env u).
Proof.
  intros Hu. unfold fetch.
  apply emits_bind; [apply emits_emit; exact Hu|]. intros _.
  apply emits_bind; [apply emits_tick|]. intros t.
  destruct (net env t u); [apply emits_ret | apply emits_throw].
Qed.

Lemma emits_json (r : Response) : emits P (json r).
Proof. unfold json. destruct (body r); try apply emits_ret. apply emits_throw. Qed.

Lemma emits_fetchWithRetry (env : Env) (u : string) (retries delayMs : nat) :
  P (EvFetch u) = true -> P (EvSleep delayMs) = true ->
  emits P (fetchWithRetry env u retries delayMs).
Proof.
  intros Hu Hs. unfold fetchWithRetry. generalize 0.
  generalize retries at 2 as fuel.
  induction fuel as [|f IH]; intros i; simpl; [apply emits_ret|].
  apply emits_bind; [apply emits_fetch; exact Hu|]. intros r.
  destruct (ok r); [apply emits_ret|].
  apply emits_bind; [|intros _; apply IH].
  apply emits_when. apply emits_emit. exact Hs.
Qed.

End Emits.

Ltac emits_step :=
  first
    [ apply emits_ret
    | apply emits_throw
    | apply emits_json
    | apply emits_emit; reflexivity
    | apply emits_store_request; reflexivity
    | apply emits_fetchWithRetry; reflexivity
    | apply emits_fetch; reflexivity
    | apply emits_when
    | apply emits_bind; [|intros ?]
    | apply emits_try_catch; [|intros ?]
    | apply emits_mapM; intros ?
    | apply emits_forM_; intros ?
    | match goal with
      | |- emits _ (match ?x with _ => _ end) => destruct x
      end ].

Ltac emits_auto := repeat emits_step.

(* ================================================================= *)
(** ** The two phases of a filter batch in the US driver *)

Lemma UsCaselaw_insertCaseLaw_emits (env : Env) (caseData : ScrapeObj) (u : string) :
  emits not_ledger_check (UsCaselaw.insertCaseLaw env caseData u).
Proof.
  unfold UsCaselaw.insertCaseLaw, UsCaselaw.insertCaseLaw_try,
    UsCaselaw.insertCaseLaw_catch, insert_case, upsert_ledger, console_log.
  emits_auto.
Qed.

Lemma UsCaselaw_scrape_case_emits (env : Env) (u : string) :
  emits not_ledger_check (UsCaselaw.scrape_case env u).
Proof.
  unfold UsCaselaw.scrape_case. emits_auto.
Qed.

Lemma UsCaselaw_store_result_emits (env : Env) (result : ScrapeObj) :
  emits not_ledger_check (UsCaselaw.store_result env result).
Proof.
  unfold UsCaselaw.store_result, console_log.
  emits_auto; apply UsCaselaw_insertCaseLaw_emits.
Qed.

(** The dispatch of a Cloudflare batch never goes back to the ledger for an
    existence check. *)
Lemma UsCaselaw_dispatch_emits (env : Env) (cloudFlareBatch : list string) :
  emits not_ledger_check (UsCaselaw.process_cloudFlareBatch env cloudFlareBatch).
Proof.
  unfold UsCaselaw.process_cloudFlareBatch, sleep.
  apply emits_bind; [apply emits_mapM; apply UsCaselaw_scrape_case_emits|].
  intros results.
  apply emits_bind; [apply emits_forM_; apply UsCaselaw_store_result_emits|].
  intros _. apply emits_emit. reflexivity.
Qed.

(** One existence check: the ledger is read once, nothing is fetched, and
    the check returns. *)
Lemma UsCaselaw_check_url_run (env : Env) (u : string) (w : World) :
  exists b logs,
    UsCaselaw.check_url env u w
    = (Ret (u, b),
       mkWorld (db w) (S (now w))
               (trace w ++ EvSelect "caselaw_scraping_urls" u :: logs))
    /\ filter is_ledger_check logs = []
    /\ forallb not_fetch logs = true.
Proof.
  unfold UsCaselaw.check_url, UsCaselaw.checkIfUrlProcessed, select_processed.
  unfold bind at 1. unfold bind at 1.
  assert (Herr : forall (e : Js.Error) (w1 : World),
             trace w1 = trace w ++ [EvSelect "caselaw_scraping_urls" u] ->
             db w1 = db w -> now w1 = S (now w) ->
             exists logs,
               (if negb (Js.code_is e "PGRST116")
                then
                  console_log ("Error checking URL status: " +++ Js.message e) ;;;
                  ret false
                else ret false) w1
               = (Ret false,
                  mkWorld (db w) (S (now w))
                          (trace w ++ EvSelect "caselaw_scraping_urls" u :: logs))
               /\ filter is_ledger_check logs = []
               /\ forallb not_fetch logs = true).
  { intros e [d1 n1 t1] Ht Hd Hn. simpl in Ht, Hd, Hn. subst.
    destruct (Js.code_is e "PGRST116"); simpl.
    - exists []. auto.
    - exists [EvLog ("Error checking URL status: " +++ Js.message e)].
      unfold bind, console_log, emit, ret. simpl.
      rewrite <- app_assoc. auto. }
  destruct (fault env (now w)) as [e|] eqn:Hf.
  - rewrite (store_request_fault _ _ _ _ e Hf). cbv beta iota.
    cbn [error_of data_of is_some]. cbv beta iota.
    destruct (Herr e (mkWorld (db w) (S (now w))
                              (trace w ++ [EvSelect "caselaw_scraping_urls" u]))
                   eq_refl eq_refl eq_refl) as [logs (Hrun & Hl & Hn)].
    rewrite Hrun. exists false, logs. auto.
  - rewrite (store_request_healthy _ _ _ _ Hf). cbn [fst snd]. cbv beta iota.
    destruct (maybeSingle _) as [d|e]; cbn [error_of data_of is_some]; cbv beta iota.
    + exists (is_some d), []. auto.
    + destruct (Herr e (mkWorld (db w) (S (now w))
                                (trace w ++ [EvSelect "caselaw_scraping_urls" u]))
                     eq_refl eq_refl eq_refl) as [logs (Hrun & Hl & Hn)].
      rewrite Hrun. exists false, logs. auto.
Qed.

(** The checks of a filter batch: one ledger read per locator, in order,
    and no GET. *)
Lemma UsCaselaw_check_phase (env : Env) (filterBatch : list string) :
  forall w, exists checked w1 checks,
    mapM (UsCaselaw.check_url env) filterBatch w = (Ret checked, w1)
    /\ trace w1 = trace w ++ checks
    /\ filter is_ledger_check checks
       = map (EvSelect "caselaw_scraping_urls") filterBatch
    /\ forallb not_fetch checks = true.
Proof.
  induction filterBatch as [|u r IH]; intros w.
  - exists [], w, []. simpl. rewrite app_nil_r. auto.
  - destruct (UsCaselaw_check_url_run env u w) as [b [logs (Hrun & Hlogs & Hnf)]].
    set (w0 := mkWorld (db w) (S (now w))
                       (trace w ++ EvSelect "caselaw_scraping_urls" u :: logs)) in *.
    destruct (IH w0) as [checked [w1 [checks (Hrest & Htr & Hch & Hnf')]]].
    exists ((u, b) :: checked), w1,
      (EvSelect "caselaw_scraping_urls" u :: logs ++ checks).
    split; [|split; [|split]].
    + simpl. unfold bind at 1. rewrite Hrun.
      unfold bind at 1. rewrite Hrest. reflexivity.
    + rewrite Htr. unfold w0. simpl. rewrite <- app_assoc. reflexivity.
    + simpl. rewrite filter_app, Hlogs, Hch. reflexivity.
    + simpl. rewrite forallb_app, Hnf, Hnf'. reflexivity.
Qed.

Lemma forallb_not_ledger_check (evs : list Event) :
  forallb not_ledger_check evs = true -> existsb is_ledger_check evs = false.
Proof.
  induction evs as [|e r IH]; simpl; [reflexivity|].
  unfold not_ledger_check at 1.
  destruct (is_ledger_check e); simpl; [discriminate | exact IH].
Qed.

Lemma forallb_not_fetch (evs : list Event) :
  forallb not_fetch evs = true -> existsb is_fetch evs = false.
Proof.
  induction evs as [|e r IH]; simpl; [reflexivity|].
  unfold not_fetch at 1.
  destruct (is_fetch e); simpl; [discriminate | exact IH].
Qed.

(** C8 (amended): the US driver cuts the locators of a page into filter
    batches (of sizes 2, 2 and 1 for five locators and a filter batch size
    of 2) and treats them one after the other; within a filter batch every
    locator is checked against the ledger, in order, before the first GET
    of that batch, and no check of that batch comes after its dispatch has
    begun.  The dispatch of a batch does come before the checks of the
    next one. *)
Theorem filter_batch_checked_before_dispatch
        (env : Env) (cfg : UsCaselaw.Config) (filterBatch : list string) (w : World) :
  (forall a b c d e : string,
      batches [a; b; c; d; e] 2 = [[a; b]; [c; d]; [e]])
  /\ (forall pageUrls,
         UsCaselaw.process_pageUrls env cfg pageUrls
         = forM_ (UsCaselaw.process_filterBatch env cfg)
                 (batches pageUrls (UsCaselaw.filterBatchSize cfg)))
  /\ exists checks dispatch,
      trace (snd (UsCaselaw.process_filterBatch env cfg filterBatch w))
      = trace w ++ checks ++ dispatch
      /\ filter is_ledger_check checks
         = map (EvSelect "caselaw_scraping_urls") filterBatch
      /\ existsb is_fetch checks = false
      /\ existsb is_ledger_check dispatch = false.
Proof.
  split; [reflexivity|]. split; [reflexivity|].
  destruct (UsCaselaw_check_phase env filterBatch w)
    as [checked [w1 [checks (Hrun & Htr & Hch & Hnf)]]].
  unfold UsCaselaw.process_filterBatch. unfold bind at 1. rewrite Hrun.
  match goal with
  | |- context [snd (?m w1)] =>
      assert (Hd : emits not_ledger_check m)
  end.
  { apply emits_bind; [apply emits_emit; reflexivity|]. intros _.
    apply emits_forM_. apply UsCaselaw_dispatch_emits. }
  destruct (Hd w1) as [dispatch [Htr' Hnc]].
  exists checks, dispatch.
  split; [|split; [|split]].
  - rewrite Htr', Htr, app_assoc. reflexivity.
  - exact Hch.
  - apply forallb_not_fetch. exact Hnf.
  - apply forallb_not_ledger_check. exact Hnc.
Qed.

(** C8, as stated, fails: with a filter batch size of 2 and a page of five
    locators none of which is in the ledger, the checks and the GETs
    alternate batch by batch: the first two documents are fetched before the
    third locator is checked. *)
Lemma filter_phase_interleaved_with_dispatch :
  let tr := trace (snd (UsCaselaw.process_pageUrls
                          Scenario.all_served Scenario.filter_by_two
                          Scenario.five_locators Scenario.w0)) in
  filter (fun e => is_ledger_check e || is_fetch e) tr
  = [EvSelect "caselaw_scraping_urls" "u1"; EvSelect "caselaw_scraping_urls" "u2";
     EvFetch (Scenario.us "/scrape/cases?url=u1");
     EvFetch (Scenario.us "/scrape/cases?url=u2");
     EvSelect "caselaw_scraping_urls" "u3"; EvSelect "caselaw_scraping_urls" "u4";
     EvFetch (Scenario.us "/scrape/cases?url=u3");
     EvFetch (Scenario.us "/scrape/cases?url=u4");
     EvSelect "caselaw_scraping_urls" "u5";
     EvFetch (Scenario.us "/scrape/cases?url=u5")]
  /\ checks_precede_fetches tr = false.
Proof. vm_compute. split; reflexivity. Qed.

(* ================================================================= *)
(** ** Batches *)

Lemma skipn_add {A} (xs : list A) (i n : nat) :
  skipn (i + n) xs = skipn n (skipn i xs).
Proof.
  revert xs. induction i as [|i IH]; intros xs; [reflexivity|].
  destruct xs as [|x r]; simpl; [destruct n; reflexivity | apply IH].
Qed.

Lemma batches_from_concat {A} (xs : list A) (size : nat) :
  0 < size ->
  forall fuel i,
    length xs - i <= fuel ->
    concat (batches_from xs size i fuel) = skipn i xs.
Proof.
  intros Hsize. induction fuel as [|f IH]; intros i Hi; simpl.
  - symmetry. apply skipn_all2. lia.
  - destruct (i <? length xs) eqn:Hlt.
    + apply Nat.ltb_lt in Hlt. simpl. rewrite IH by lia.
      unfold slice. rewrite skipn_add. apply firstn_skipn.
    + apply Nat.ltb_ge in Hlt. symmetry. apply skipn_all2. exact Hlt.
Qed.

(** The batching loop drops no locator and adds none: with a positive
    size, the batches put end to end are the page. *)
Lemma batches_partition {A} (xs : list A) (size : nat) :
  0 < size -> concat (batches xs size) = xs.
Proof.
  intros Hsize. unfold batches.
  rewrite batches_from_concat by (auto; lia). reflexivity.
Qed.

(* ================================================================= *)
(** ** The Singapore writer and the record table *)

Lemma select_citation_run (env : Env) (t : CaseTable) (c : string) (w : World) :
  select_citation env t c w
  = (Ret (match fault env (now w) with
          | Some e => PgError e
          | None =>
              maybeSingle (filter (fun r => opt_string_eqb (row_citation r) c)
                                  (case_rows t (db w)))
          end),
     mkWorld (db w) (S (now w)) (trace w ++ [EvSelect (table_name t) c])).
Proof.
  unfold select_citation.
  destruct (fault env (now w)) as [e|] eqn:Hf.
  - rewrite (store_request_fault _ _ _ _ e Hf). reflexivity.
  - rewrite (store_request_healthy _ _ _ _ Hf). reflexivity.
Qed.

(** The citation lookup never raises and leaves the store as it was. *)
Lemma Singapore_checkIfCitationExists_run (env : Env) (c : option string) (w : World) :
  exists w1,
    Singapore.checkIfCitationExists env c w = (Ret (citation_known env c w), w1)
    /\ db w1 = db w.
Proof.
  unfold Singapore.checkIfCitationExists, citation_known.
  destruct (Js.truthy c); cbn [negb andb]; cbv beta iota; [|exists w; auto].
  unfold bind at 1. rewrite select_citation_run.
  destruct (fault env (now w)) as [e|].
  - cbn [error_of data_of is_some]. cbv beta iota.
    destruct (Js.code_is e "PGRST116"); simpl; eexists; split; reflexivity.
  - cbn [case_rows].
    destruct (filter _ (caselaw_singapore (db w))) as [|r [|r' l]];
      simpl; eexists; split; reflexivity.
Qed.

Lemma set_ledger_rows (l : list LedgerRow) (d : DB) :
  caselaw_singapore (set_ledger l d) = caselaw_singapore d
  /\ caselaw_us (set_ledger l d) = caselaw_us d
  /\ next_id (set_ledger l d) = next_id d.
Proof. auto. Qed.

Lemma after_upsert_rows (env : Env) (p : LedgerPayload) (w : World) :
  caselaw_singapore (after_upsert env p w) = caselaw_singapore (db w)
  /\ caselaw_us (after_upsert env p w) = caselaw_us (db w).
Proof. unfold after_upsert. destruct (fault env (now w)); auto. Qed.

(** The [catch] block of the Singapore writer leaves the record table as
    the [try] block left it. *)
Lemma Singapore_insertCaseLaw_catch_rows
      (env : Env) (u : string) (e : Js.Error) (w : World) :
  caselaw_singapore (db (snd (Singapore.insertCaseLaw_catch env u e w)))
  = caselaw_singapore (db w).
Proof.
  unfold Singapore.insertCaseLaw_catch.
  unfold bind at 1. rewrite upsert_ledger_run.
  unfold bind at 1. rewrite console_log_run. simpl.
  apply after_upsert_rows.
Qed.

(** What one call of the Singapore writer does to the record table: nothing,
    or one row appended, and then only for a document with some text whose
    citation the lookup did not report. *)
Lemma Singapore_insertCaseLaw_rows
      (env : Env) (caseData : ScrapeObj) (u : string) (w : World) :
  caselaw_singapore (db (snd (Singapore.insertCaseLaw env caseData u w)))
  = caselaw_singapore (db w)
  \/ (caselaw_singapore (db (snd (Singapore.insertCaseLaw env caseData u w)))
      = caselaw_singapore (db w) ++ [case_row (next_id (db w)) caseData "Singapore"]
      /\ citation_known env (citation caseData) w = false
      /\ exists t, case_text caseData = Some t /\ Js.whitespace_only t = false).
Proof.
  remember (caselaw_singapore (db (snd (Singapore.insertCaseLaw env caseData u w))))
    as R eqn:HR.
  unfold Singapore.insertCaseLaw, try_catch, Singapore.insertCaseLaw_try in HR.
  unfold bind at 1 in HR.
  assert (Hcheck : exists w1,
             (if Js.truthy (citation caseData)
              then Singapore.checkIfCitationExists env (citation caseData)
              else ret false) w
             = (Ret (citation_known env (citation caseData) w), w1)
             /\ db w1 = db w).
  { destruct (Js.truthy (citation caseData)) eqn:Ht.
    - apply Singapore_checkIfCitationExists_run.
    - exists w. unfold citation_known. rewrite Ht. auto. }
  destruct Hcheck as [w1 [Hcheck Hdb]]. rewrite Hcheck in HR.
  destruct (citation_known env (citation caseData) w) eqn:Hknown.
  { left. simpl in HR. rewrite Hdb in HR. exact HR. }
  unfold bind at 1 in HR. unfold Singapore.case_text_is_empty in HR.
  destruct (case_text caseData) as [t|] eqn:Htext.
  2:{ left. unfold throw in HR. rewrite Singapore_insertCaseLaw_catch_rows in HR.
      rewrite Hdb in HR. exact HR. }
  unfold ret at 1 in HR.
  destruct (Js.trims_to_empty t) eqn:Hempty.
  { left. simpl in HR. rewrite Hdb in HR. exact HR. }
  unfold bind at 1 in HR. rewrite insert_case_run in HR.
  destruct (fault env (now w1)) as [e|] eqn:Hinsert.
  { left. cbn [error_of data_of] in HR. cbv beta iota in HR.
    unfold bind at 1 in HR. rewrite console_log_run in HR. unfold throw in HR.
    rewrite Singapore_insertCaseLaw_catch_rows in HR. cbn [db] in HR.
    rewrite Hdb in HR. exact HR. }
  right. split; [|split; [reflexivity|]].
  2:{ exists t. split; [reflexivity|].
      rewrite <- trims_to_empty_whitespace. exact Hempty. }
  cbn [error_of data_of] in HR. cbv beta iota in HR.
  unfold bind at 1 in HR. rewrite console_log_run in HR.
  unfold bind at 1 in HR. rewrite upsert_ledger_run in HR.
  cbn [now] in HR.
  destruct (fault env (S (now w1))) as [e|] eqn:Hupsert;
    cbn [error_of] in HR; cbv beta iota in HR.
  - unfold throw in HR. rewrite Singapore_insertCaseLaw_catch_rows in HR.
    cbn [db] in HR. rewrite (proj1 (after_upsert_rows _ _ _)) in HR.
    simpl in HR. rewrite Hdb in HR. exact HR.
  - unfold bind at 1 in HR. rewrite console_log_run in HR.
    unfold ret in HR. cbn [snd db] in HR.
    rewrite (proj1 (after_upsert_rows _ _ _)) in HR. simpl in HR.
    rewrite Hdb in HR. exact HR.
Qed.

(** The empty-content guard of the Singapore writer: a document whose text
    is empty or white space adds no row, whatever the store and the
    citation. *)
Lemma Singapore_blank_text_never_stored
      (env : Env) (caseData : ScrapeObj) (u : string) (w : World) (t : string) :
  case_text caseData = Some t ->
  Js.whitespace_only t = true ->
  caselaw_singapore (db (snd (Singapore.insertCaseLaw env caseData u w)))
  = caselaw_singapore (db w).
Proof.
  intros Htext Hblank.
  destruct (Singapore_insertCaseLaw_rows env caseData u w)
    as [Hsame | (_ & _ & t' & Htext' & Hnb)]; [exact Hsame|].
  rewrite Htext in Htext'. inversion Htext'; subst. congruence.
Qed.

Lemma opt_string_eqb_eq (a : option string) (b : string) :
  opt_string_eqb a b = true <-> a = Some b.
Proof.
  destruct a as [s|]; simpl.
  - rewrite String.eqb_eq. split; congruence.
  - split; discriminate.
Qed.

Lemma no_match_not_cited (c : string) (rows : list CaseRow) :
  filter (fun r => opt_string_eqb (row_citation r) c) rows = [] ->
  ~ In (Some c) (map row_citation (filter cited rows)).
Proof.
  intros Hnone Hin. apply in_map_iff in Hin. destruct Hin as [r [Hr Hin]].
  apply filter_In in Hin. destruct Hin as [Hin _].
  assert (Hm : In r (filter (fun r => opt_string_eqb (row_citation r) c) rows)).
  { apply filter_In. split; [exact Hin|]. apply opt_string_eqb_eq. exact Hr. }
  rewrite Hnone in Hm. exact Hm.
Qed.

Lemma not_cited_no_match (c : string) (rows : list CaseRow) :
  Js.truthy (Some c) = true ->
  ~ In (Some c) (map row_citation (filter cited rows)) ->
  filter (fun r => opt_string_eqb (row_citation r) c) rows = [].
Proof.
  intros Hc Hnot.
  destruct (filter (fun r => opt_string_eqb (row_citation r) c) rows) as [|r l] eqn:Hf;
    [reflexivity|].
  exfalso. apply Hnot.
  assert (Hin : In r (filter (fun r => opt_string_eqb (row_citation r) c) rows))
    by (rewrite Hf; left; reflexivity).
  apply filter_In in Hin. destruct Hin as [Hin Hm].
  apply opt_string_eqb_eq in Hm.
  apply in_map_iff. exists r. split; [exact Hm|].
  apply filter_In. split; [exact Hin|]. unfold cited. rewrite Hm. exact Hc.
Qed.

(** With distinct citations, a citation is held by one record at most. *)
Lemma distinct_citations_one_match (c : string) (rows : list CaseRow) :
  Js.truthy (Some c) = true ->
  NoDup (map row_citation (filter cited rows)) ->
  length (filter (fun r => opt_string_eqb (row_citation r) c) rows) <= 1.
Proof.
  intros Hc. induction rows as [|r rows IH]; intros Hnd; simpl; [lia|].
  destruct (opt_string_eqb (row_citation r) c) eqn:Hm.
  - apply opt_string_eqb_eq in Hm.
    simpl in Hnd. unfold cited at 1 in Hnd. rewrite Hm, Hc in Hnd.
    simpl in Hnd. inversion Hnd as [|? ? Hnotin Hnd']; subst.
    rewrite Hm in Hnotin.
    rewrite (not_cited_no_match c rows Hc Hnotin). simpl. lia.
  - apply IH. simpl in Hnd. destruct (cited r); [|exact Hnd].
    simpl in Hnd. inversion Hnd; assumption.
Qed.

(** Dedup on the Singapore path: as long as the store answers the citation
    lookup, a call of the writer keeps the citations of the record table
    pairwise distinct. *)
Lemma Singapore_insertCaseLaw_citations_distinct
      (env : Env) (caseData : ScrapeObj) (u : string) (w : World) :
  fault env (now w) = None ->
  citations_distinct (db w) ->
  citations_distinct (db (snd (Singapore.insertCaseLaw env caseData u w))).
Proof.
  intros Hlookup Hdistinct. unfold citations_distinct in *.
  destruct (Singapore_insertCaseLaw_rows env caseData u w)
    as [Hsame | (Hrows & Hknown & _)]; [rewrite Hsame; exact Hdistinct|].
  rewrite Hrows, filter_app. simpl.
  unfold cited at 2. simpl row_citation.
  destruct (Js.truthy (citation caseData)) eqn:Htruthy;
    [|rewrite app_nil_r; exact Hdistinct].
  destruct (citation caseData) as [c|] eqn:Hcit; [|discriminate].
  rewrite map_app. simpl.
  apply NoDup_app; [exact Hdistinct | repeat constructor; simpl; tauto |].
  intros x Hx [Hx' | []]. subst x. rewrite ?Hcit in Hx.
  unfold citation_known in Hknown. rewrite Htruthy, Hlookup in Hknown.
  simpl in Hknown.
  pose proof (distinct_citations_one_match c _ Htruthy Hdistinct) as Hone.
  destruct (filter (fun r => opt_string_eqb (row_citation r) c)
                   (caselaw_singapore (db w))) as [|r [|r' l]] eqn:Hf.
  - apply (no_match_not_cited c _ Hf). exact Hx.
  - discriminate.
  - simpl in Hone. lia.
Qed.

(** The processed-check of the Singapore driver answers "not processed"
    whatever the ledger holds. *)
Lemma Singapore_checkIfUrlProcessed_stub (u : string) (w : World) :
  Singapore.checkIfUrlProcessed u w = (Ret false, w).
Proof. reflexivity. Qed.

(** So the filter phase of a Singapore page touches neither the store nor
    the network and lets every locator through to the Fetcher. *)
Lemma Singapore_filter_keeps_all (l : list string) (w : World) :
  mapM Singapore.check_url l w = (Ret (map (fun u => (u, false)) l), w)
  /\ Singapore.urls_to_process (map (fun u => (u, false)) l) = l.
Proof.
  split.
  - induction l as [|u r IH]; [reflexivity|].
    simpl. unfold bind at 1. unfold Singapore.check_url at 1.
    unfold bind at 1. rewrite Singapore_checkIfUrlProcessed_stub.
    unfold ret at 1. unfold bind at 1. rewrite IH. reflexivity.
  - unfold Singapore.urls_to_process.
    induction l as [|u r IH]; [reflexivity|]. simpl. f_equal. exact IH.
Qed.

(** The processed-check of the US driver reports the locator that the
    ledger holds as processed, when the store answers. *)
Lemma UsCaselaw_processed_is_reported
      (env : Env) (u : string) (w : World) (row : LedgerRow) :
  fault env (now w) = None ->
  filter (fun r => String.eqb (l_url r) u && l_processed r)
         (caselaw_scraping_urls (db w)) = [row] ->
  fst (UsCaselaw.checkIfUrlProcessed env u w) = Ret true.
Proof.
  intros Hf Hrow.
  unfold UsCaselaw.checkIfUrlProcessed, select_processed.
  unfold bind at 1. rewrite (store_request_healthy _ _ _ _ Hf).
  cbn [fst snd]. rewrite Hrow. reflexivity.
Qed.

(* ================================================================= *)
(** ** Where the drivers part from the design *)

(** C1: the US writer has no pre-commit check.  Two locators of one
    sitemap that lead to the opinion cited 5 U.S. 137 leave two records
    with that citation, and both locators are marked as successes. *)
Theorem UsCaselaw_same_citation_written_twice :
  let w' := snd (UsCaselaw.scrapFindLaws Scenario.same_citation UsCaselaw.CONFIG
                                         Scenario.w0) in
  map row_citation (caselaw_us (db w')) = [Some "5 U.S. 137"; Some "5 U.S. 137"]
  /\ map (fun r => (l_url r, l_status r)) (caselaw_scraping_urls (db w'))
     = [("/us-supreme-court/5-us-137.html", "success");
        ("/us-supreme-court/marbury-v-madison.html", "success")].
Proof. vm_compute. split; reflexivity. Qed.

(** C4: the US writer has no empty-content guard.  A document whose text
    is three spaces is inserted as it is, and so is the error object that
    the worker returns for a page it could not load, which has no text at
    all. *)
Theorem UsCaselaw_blank_text_stored :
  let blank := snd (UsCaselaw.scrapFindLaws Scenario.blank_opinion UsCaselaw.CONFIG
                                            Scenario.w0) in
  let failed := snd (UsCaselaw.scrapFindLaws Scenario.worker_error UsCaselaw.CONFIG
                                             Scenario.w0) in
  map row_case_text (caselaw_us (db blank)) = [Some "   "]
  /\ Js.whitespace_only "   " = true
  /\ map row_case_text (caselaw_us (db failed)) = [None].
Proof. vm_compute. repeat split. Qed.

(** C3: the Singapore driver is not idempotent.  Its processed-check
    always answers no, so a second run over the same listing fetches the
    judgment again; the judgment carries no citation, the pre-commit check
    is skipped, and a second record is inserted although the ledger held
    the locator as processed after the first run. *)
Theorem Singapore_second_run_inserts_again :
  let run1 := snd (Singapore.scrapeSingaporeCaseLaws
                     Scenario.uncited_judgment Scenario.two_pages Scenario.w0) in
  let run2 := snd (Singapore.scrapeSingaporeCaseLaws
                     Scenario.uncited_judgment Scenario.two_pages run1) in
  map l_processed (ledger_entries Scenario.sg_case (db run1)) = [true]
  /\ length (caselaw_singapore (db run1)) = 1
  /\ length (caselaw_singapore (db run2)) = 2
  /\ length (filter (is_fetch_of (Singapore.scrape_url Scenario.sg_case)) (trace run2))
     = 2.
Proof. vm_compute. repeat split. Qed.

(** With a citation the second run still fetches the judgment again, and
    it is the pre-commit check that keeps the record table as it was. *)
Example Singapore_second_run_refetches :
  let run1 := snd (Singapore.scrapeSingaporeCaseLaws
                     Scenario.cited_judgment Scenario.two_pages Scenario.w0) in
  let run2 := snd (Singapore.scrapeSingaporeCaseLaws
                     Scenario.cited_judgment Scenario.two_pages run1) in
  caselaw_singapore (db run2) = caselaw_singapore (db run1)
  /\ length (filter (is_fetch_of (Singapore.scrape_url Scenario.sg_case)) (trace run2))
     = 2.
Proof. vm_compute. split; reflexivity. Qed.

(** The US driver on the same kind of input: the second run finds B in the
    ledger, fetches only C again, and adds no record. *)
Example UsCaselaw_second_run_adds_nothing :
  let run1 := snd (UsCaselaw.scrapFindLaws Scenario.a_b_c UsCaselaw.CONFIG
                                           (initial_world Scenario.a_processed)) in
  let run2 := snd (UsCaselaw.scrapFindLaws Scenario.a_b_c UsCaselaw.CONFIG run1) in
  caselaw_us (db run2) = caselaw_us (db run1)
  /\ length (filter (is_fetch_of (Scenario.us "/scrape/cases?url=B")) (trace run2)) = 1
  /\ length (filter (is_fetch_of (Scenario.us "/scrape/cases?url=C")) (trace run2)) = 10.
Proof. vm_compute. repeat split. Qed.

(* ================================================================= *)
(** ** The retry policy for any number of attempts *)

(** X1: whatever the number of attempts and the delay, [fetchWithRetry]
    issues at most [retries] GETs, pauses [delayMs] between two of them and
    never after the last, and leaves the store alone; it hands back the
    marker exactly when every one of the [retries] attempts was refused, so
    with no attempt allowed it returns the marker without a request. *)
Theorem fetchWithRetry_any_policy
        (env : Env) (u : string) (retries delayMs : nat) (w : World) :
  exists n,
    n <= retries
    /\ db (snd (fetchWithRetry env u retries delayMs w)) = db w
    /\ trace (snd (fetchWithRetry env u retries delayMs w))
       = trace w ++ attempts_trace u delayMs n
    /\ (fst (fetchWithRetry env u retries delayMs w)
        = Ret (FrFailed u "error" "Failed after multiple retries")
        <-> n = retries
            /\ forall k, k < retries -> refused (net env (now w + k) u)).
Proof.
  unfold fetchWithRetry.
  destruct retries as [|retries'].
  { exists 0. simpl. rewrite app_nil_r.
    repeat split; auto. intros; lia. }
  remember (S retries') as retries eqn:Hretries.
  destruct (fetchWithRetry_from_outcome env u retries delayMs retries 0 w eq_refl)
    as [n (Hle & Hpos & Hdb & Hnow & Htr & Hprev & Hres)].
  assert (Hn1 : 0 < n) by (apply Hpos; lia).
  exists n. split; [exact Hle|]. split; [exact Hdb|]. split; [exact Htr|].
  revert Hres.
  destruct (fst (fetchWithRetry_from env u retries delayMs 0 retries w))
    as [[r|u' s e]|e]; intros Hres.
  - split; [discriminate|]. intros [Hn Hall]. exfalso.
    destruct Hres as [Hnet Hok].
    assert (Hlt : n - 1 < retries) by lia.
    destruct (Hall (n - 1) Hlt) as [r' [Hr' Hok']].
    rewrite Hnet in Hr'. inversion Hr'; subst. congruence.
  - destruct Hres as (Hn & Hu & Hs & He & Hall). subst u' s e.
    split; [intros _; split; [exact Hn | rewrite <- Hn; exact Hall] | reflexivity].
  - split; [discriminate|]. intros [Hn Hall]. exfalso.
    assert (Hlt : n - 1 < retries) by lia.
    destruct (Hall (n - 1) Hlt) as [r' [Hr' Hok']]. congruence.
Qed.

(* ================================================================= *)
(** ** The batching loops *)

Lemma batches_from_sizes {A} (xs : list A) (size : nat) :
  0 < size ->
  forall fuel i,
    Forall (fun b => 1 <= length b <= size) (batches_from xs size i fuel).
Proof.
  intros Hsize. induction fuel as [|f IH]; intros i; simpl; [constructor|].
  destruct (i <? length xs) eqn:Hlt; [|constructor].
  apply Nat.ltb_lt in Hlt. constructor; [|apply IH].
  unfold slice. rewrite length_firstn, length_skipn. lia.
Qed.

(** X2: with a positive batch size the batching loop of the drivers cuts
    a page into batches that, put end to end, are the page: no locator is
    dropped, repeated or moved; and every batch holds at least one and at
    most [size] locators. *)
Theorem batches_cover_page {A} (xs : list A) (size : nat) :
  0 < size ->
  concat (batches xs size) = xs
  /\ Forall (fun b => 1 <= length b <= size) (batches xs size).
Proof.
  intros Hsize. split.
  - unfold batches. rewrite batches_from_concat by (auto; lia). reflexivity.
  - apply batches_from_sizes. exact Hsize.
Qed.

Lemma batches_cover_page_witness :
  0 < 100
  /\ concat (batches Scenario.five_locators 100) = Scenario.five_locators
  /\ Forall (fun b => 1 <= length b <= 100) (batches Scenario.five_locators 100).
Proof.
  split; [lia|].
  apply (batches_cover_page Scenario.five_locators 100). lia.
Defined.

(* ================================================================= *)
(** ** The pre-fetch checkpoint of the US driver *)

Lemma In_firstn {A} (x : A) (n : nat) (l : list A) :
  In x (firstn n l) -> In x l.
Proof.
  intros H. rewrite <- (firstn_skipn n l). apply in_or_app. left. exact H.
Qed.

Lemma In_skipn_list {A} (x : A) (n : nat) (l : list A) :
  In x (skipn n l) -> In x l.
Proof.
  intros H. rewrite <- (firstn_skipn n l). apply in_or_app. right. exact H.
Qed.

Lemma batches_from_incl {A} (xs : list A) (size : nat) :
  forall fuel i b, In b (batches_from xs size i fuel) -> incl b xs.
Proof.
  induction fuel as [|f IH]; intros i b Hb; simpl in Hb; [contradiction|].
  destruct (i <? length xs); [|contradiction].
  destruct Hb as [Hb | Hb]; [|eapply IH; exact Hb].
  subst b. unfold slice. intros x Hx.
  apply In_firstn in Hx. apply In_skipn_list in Hx. exact Hx.
Qed.

Lemma emits_mapM_In (P : Event -> bool) {A B} (f : A -> M B) (xs : list A) :
  (forall x, In x xs -> emits P (f x)) -> emits P (mapM f xs).
Proof.
  induction xs as [|x r IH]; intros Hf; simpl; [apply emits_ret|].
  apply emits_bind; [apply Hf; left; reflexivity|]. intros y.
  apply emits_bind; [|intros ys; apply emits_ret].
  apply IH. intros x' Hx'. apply Hf. right. exact Hx'.
Qed.

Lemma emits_forM_In (P : Event -> bool) {A} (f : A -> M unit) (xs : list A) :
  (forall x, In x xs -> emits P (f x)) -> emits P (forM_ f xs).
Proof.
  induction xs as [|x r IH]; intros Hf; simpl; [apply emits_ret|].
  apply emits_bind; [apply Hf; left; reflexivity|]. intros _.
  apply IH. intros x' Hx'. apply Hf. right. exact Hx'.
Qed.

Lemma one_processed_row (u : string) (rows : list LedgerRow) :
  NoDup (map l_url rows) ->
  length (filter (fun r => String.eqb (l_url r) u && l_processed r) rows) <= 1.
Proof.
  induction rows as [|r rows IH]; intros Hnd; simpl; [lia|].
  inversion Hnd as [|? ? Hnotin Hnd']; subst.
  destruct (String.eqb (l_url r) u) eqn:Hu; simpl; [|apply IH; exact Hnd'].
  apply String.eqb_eq in Hu.
  assert (Hnone : filter (fun r0 => String.eqb (l_url r0) u && l_processed r0) rows = []).
  { destruct (filter _ rows) as [|r' l] eqn:Hf; [reflexivity|]. exfalso.
    assert (Hin : In r' (filter (fun r0 => String.eqb (l_url r0) u && l_processed r0) rows))
      by (rewrite Hf; left; reflexivity).
    apply filter_In in Hin. destruct Hin as [Hin Hm].
    apply andb_true_iff in Hm. destruct Hm as [Hm _]. apply String.eqb_eq in Hm.
    apply Hnotin. rewrite Hu, <- Hm. apply in_map. exact Hin. }
  rewrite Hnone. destruct (l_processed r); simpl; lia.
Qed.

Lemma existsb_filter_nil {A} (f : A -> bool) (l : list A) :
  existsb f l = match filter f l with [] => false | _ => true end.
Proof.
  induction l as [|x r IH]; [reflexivity|].
  simpl. destruct (f x); [reflexivity | exact IH].
Qed.

(** With a healthy store and one ledger row per locator, the check answers
    what the ledger says. *)
Lemma UsCaselaw_check_url_healthy (env : Env) (u : string) (w : World) :
  healthy_store env ->
  NoDup (map l_url (caselaw_scraping_urls (db w))) ->
  UsCaselaw.check_url env u w
  = (Ret (u, marked_processed u (db w)),
     mkWorld (db w) (S (now w)) (trace w ++ [EvSelect "caselaw_scraping_urls" u])).
Proof.
  intros Hh Hnd.
  unfold UsCaselaw.check_url, UsCaselaw.checkIfUrlProcessed, select_processed.
  unfold bind at 1. unfold bind at 1.
  rewrite (store_request_healthy _ _ _ _ (Hh (now w))). cbn [fst snd].
  unfold marked_processed. rewrite existsb_filter_nil.
  pose proof (one_processed_row u _ Hnd) as Hone.
  destruct (filter _ (caselaw_scraping_urls (db w))) as [|r [|r' l]];
    [reflexivity | reflexivity | simpl in Hone; lia].
Qed.

Lemma UsCaselaw_check_phase_healthy (env : Env) (filterBatch : list string) :
  healthy_store env ->
  forall w,
    NoDup (map l_url (caselaw_scraping_urls (db w))) ->
    exists w1,
      mapM (UsCaselaw.check_url env) filterBatch w
      = (Ret (map (fun u => (u, marked_processed u (db w))) filterBatch), w1)
      /\ db w1 = db w
      /\ trace w1 = trace w ++ map (EvSelect "caselaw_scraping_urls") filterBatch.
Proof.
  intros Hh. induction filterBatch as [|u r IH]; intros w Hnd.
  - exists w. simpl. rewrite app_nil_r. auto.
  - set (w0 := mkWorld (db w) (S (now w))
                       (trace w ++ [EvSelect "caselaw_scraping_urls" u])).
    destruct (IH w0 Hnd) as [w1 (Hrest & Hdb & Htr)].
    exists w1. split; [|split].
    + simpl. unfold bind at 1. rewrite (UsCaselaw_check_url_healthy env u w Hh Hnd).
      fold w0. unfold bind at 1. rewrite Hrest. reflexivity.
    + exact Hdb.
    + rewrite Htr. unfold w0. simpl. rewrite <- app_assoc. reflexivity.
Qed.

Lemma fetch_among_In (urls : list string) (x : string) :
  fetch_among urls (EvFetch x) = true -> In x urls.
Proof.
  simpl. intros H. apply existsb_exists in H. destruct H as [y [Hy Heq]].
  apply String.eqb_eq in Heq. subst. exact Hy.
Qed.

Lemma In_fetch_among (urls : list string) (x : string) :
  In x urls -> fetch_among urls (EvFetch x) = true.
Proof.
  intros H. simpl. apply existsb_exists. exists x. split; [exact H|].
  apply String.eqb_refl.
Qed.

(** The dispatch of a Cloudflare batch only asks the worker for the
    locators of the batch. *)
Lemma UsCaselaw_dispatch_fetches (env : Env) (urls cloudFlareBatch : list string) :
  incl cloudFlareBatch urls ->
  emits (fetch_among (map us_scrape_url urls))
        (UsCaselaw.process_cloudFlareBatch env cloudFlareBatch).
Proof.
  intros Hincl. unfold UsCaselaw.process_cloudFlareBatch, sleep.
  apply emits_bind.
  { apply emits_mapM_In. intros u Hu. unfold UsCaselaw.scrape_case.
    apply emits_try_catch; [|intros e; apply emits_ret].
    apply emits_bind.
    - apply emits_fetchWithRetry; [|reflexivity].
      apply In_fetch_among. fold (us_scrape_url u). apply in_map. apply Hincl. exact Hu.
    - intros r. emits_auto. }
  intros results. apply emits_bind; [|intros _; apply emits_emit; reflexivity].
  apply emits_forM_. intros result.
  unfold UsCaselaw.store_result, UsCaselaw.insertCaseLaw,
    UsCaselaw.insertCaseLaw_try, UsCaselaw.insertCaseLaw_catch,
    insert_case, upsert_ledger, console_log.
  emits_auto.
Qed.

(** X3: with a healthy store and one ledger row per locator, the US driver
    spends no request on a locator that the ledger holds as processed:
    every GET issued for a filter batch is the scrape request of a locator
    of that batch which the ledger did not mark as processed. *)
Theorem processed_locators_not_fetched
        (env : Env) (cfg : UsCaselaw.Config) (filterBatch : list string) (w : World) :
  healthy_store env ->
  NoDup (map l_url (caselaw_scraping_urls (db w))) ->
  exists evs,
    trace (snd (UsCaselaw.process_filterBatch env cfg filterBatch w)) = trace w ++ evs
    /\ forall x,
        In (EvFetch x) evs ->
        exists u,
          In u filterBatch /\ marked_processed u (db w) = false
          /\ x = us_scrape_url u.
Proof.
  intros Hh Hnd.
  destruct (UsCaselaw_check_phase_healthy env filterBatch Hh w Hnd)
    as [w1 (Hrun & Hdb & Htr)].
  unfold UsCaselaw.process_filterBatch. unfold bind at 1. rewrite Hrun.
  set (survivors := UsCaselaw.urls_to_process
                      (map (fun u => (u, marked_processed u (db w))) filterBatch)).
  match goal with
  | |- context [snd (?m w1)] =>
      assert (Hd : emits (fetch_among (map us_scrape_url survivors)) m)
  end.
  { apply emits_bind; [apply emits_emit; reflexivity|]. intros _.
    apply emits_forM_In. intros b Hb. apply UsCaselaw_dispatch_fetches.
    eapply batches_from_incl. exact Hb. }
  destruct (Hd w1) as [dispatch [Htr' Hp]].
  exists (map (EvSelect "caselaw_scraping_urls") filterBatch ++ dispatch).
  split; [rewrite Htr', Htr, app_assoc; reflexivity|].
  intros x Hx. apply in_app_or in Hx. destruct Hx as [Hx | Hx].
  { apply in_map_iff in Hx. destruct Hx as [u [Hu _]]. discriminate. }
  rewrite forallb_forall in Hp. apply Hp in Hx. apply fetch_among_In in Hx.
  apply in_map_iff in Hx. destruct Hx as [u [Hu Hin]].
  exists u. split; [|split; [|symmetry; exact Hu]].
  - unfold survivors, UsCaselaw.urls_to_process in Hin.
    apply in_map_iff in Hin. destruct Hin as [[u' b'] [Hfst Hin]]. simpl in Hfst. subst u'.
    apply filter_In in Hin. destruct Hin as [Hin _].
    apply in_map_iff in Hin. destruct Hin as [u'' [Heq Hin]].
    inversion Heq; subst. exact Hin.
  - unfold survivors, UsCaselaw.urls_to_process in Hin.
    apply in_map_iff in Hin. destruct Hin as [[u' b'] [Hfst Hin]]. simpl in Hfst. subst u'.
    apply filter_In in Hin. destruct Hin as [Hin Hnp].
    apply in_map_iff in Hin. destruct Hin as [u'' [Heq Hin]].
    inversion Heq; subst. simpl in Hnp.
    destruct (marked_processed u (db w)); [discriminate | reflexivity].
Qed.

Lemma processed_locators_not_fetched_witness :
  healthy_store Scenario.a_b_c
  /\ NoDup (map l_url (caselaw_scraping_urls Scenario.a_processed))
  /\ exists evs,
      trace (snd (UsCaselaw.process_filterBatch
                    Scenario.a_b_c UsCaselaw.CONFIG ["A"; "B"; "C"]
                    (initial_world Scenario.a_processed)))
      = trace (initial_world Scenario.a_processed) ++ evs
      /\ forall x,
          In (EvFetch x) evs ->
          exists u,
            In u ["A"; "B"; "C"]
            /\ marked_processed u (db (initial_world Scenario.a_processed)) = false
            /\ x = us_scrape_url u.
Proof.
  assert (Hh : healthy_store Scenario.a_b_c) by (intros t; reflexivity).
  assert (Hnd : NoDup (map l_url (caselaw_scraping_urls Scenario.a_processed))).
  { simpl. constructor; [simpl; tauto | constructor]. }
  split; [exact Hh|]. split; [exact Hnd|].
  apply (processed_locators_not_fetched
           Scenario.a_b_c UsCaselaw.CONFIG ["A"; "B"; "C"]
           (initial_world Scenario.a_processed) Hh Hnd).
Defined.

(* ================================================================= *)
(** ** Changes of the store along a relation *)

Section Steps.

Variable R : DB -> DB -> Prop.
Hypothesis R_refl : forall d, R d d.
Hypothesis R_trans : forall d1 d2 d3, R d1 d2 -> R d2 d3 -> R d1 d3.

Lemma steps_ret {A} (a : A) : steps R (ret a).
Proof. intros w. apply R_refl. Qed.

Lemma steps_throw {A} (e : Js.Error) : steps R (@throw A e).
Proof. intros w. apply R_refl. Qed.

Lemma steps_emit (e : Event) : steps R (emit e).
Proof. intros w. apply R_refl. Qed.

Lemma steps_bind {A B} (m : M A) (k : A -> M B) :
  steps R m -> (forall a, steps R (k a)) -> steps R (bind m k).
Proof.
  intros Hm Hk w. unfold bind. specialize (Hm w).
  destruct (m w) as [[a|e] w1]; simpl in Hm; [|exact Hm].
  eapply R_trans; [exact Hm | apply Hk].
Qed.

Lemma steps_try_catch {A} (m : M A) (h : Js.Error -> M A) :
  steps R m -> (forall e, steps R (h e)) -> steps R (try_catch m h).
Proof.
  intros Hm Hh w. unfold try_catch. specialize (Hm w).
  destruct (m w) as [[a|e] w1]; simpl in Hm; [exact Hm|].
  eapply R_trans; [exact Hm | apply Hh].
Qed.

Lemma steps_when (b : bool) (m : M unit) : steps R m -> steps R (when b m).
Proof. intros Hm. destruct b; [exact Hm | apply steps_ret]. Qed.

Lemma steps_mapM {A B} (f : A -> M B) (xs : list A) :
  (forall x, steps R (f x)) -> steps R (mapM f xs).
Proof.
  intros Hf. induction xs as [|x r IH]; simpl; [apply steps_ret|].
  apply steps_bind; [apply Hf|]. intros y.
  apply steps_bind; [exact IH|]. intros ys. apply steps_ret.
Qed.

Lemma steps_forM_ {A} (f : A -> M unit) (xs : list A) :
  (forall x, steps R (f x)) -> steps R (forM_ f xs).
Proof.
  intros Hf. induction xs as [|x r IH]; simpl; [apply steps_ret|].
  apply steps_bind; [apply Hf|]. intros _. exact IH.
Qed.

Lemma steps_store_request {A} (env : Env) (ev : Event)
      (run : DB -> PgResult A * DB) :
  (forall d, R d (snd (run d))) -> steps R (store_request env ev run).
Proof.
  intros Hrun w. rewrite store_request_run. simpl.
  destruct (fault env (now w)); [apply R_refl | apply Hrun].
Qed.

Lemma steps_fetch (env : Env) (u : string) : steps R (fetch env u).
Proof. intros w. rewrite fetch_run. apply R_refl. Qed.

Lemma steps_json (r : Response) : steps R (json r).
Proof. intros w. rewrite json_run. apply R_refl. Qed.

Lemma steps_fetchWithRetry (env : Env) (u : string) (retries delayMs : nat) :
  steps R (fetchWithRetry env u retries delayMs).
Proof.
  intros w. unfold fetchWithRetry.
  destruct (fetchWithRetry_from_outcome env u retries delayMs retries 0 w eq_refl)
    as [n (_ & _ & Hdb & _)].
  rewrite Hdb. apply R_refl.
Qed.

Lemma steps_select {A} (env : Env) (ev : Event) (q : DB -> PgResult A) :
  steps R (store_request env ev (fun d => (q d, d))).
Proof. apply steps_store_request. intros d. apply R_refl. Qed.

End Steps.

Lemma records_grow_refl (d : DB) : records_grow d d.
Proof. split; exists []; rewrite app_nil_r; reflexivity. Qed.

Lemma records_grow_trans (d1 d2 d3 : DB) :
  records_grow d1 d2 -> records_grow d2 d3 -> records_grow d1 d3.
Proof.
  intros [[a1 H1] [b1 G1]] [[a2 H2] [b2 G2]]. split.
  - exists (a1 ++ a2). rewrite H2, H1, app_assoc. reflexivity.
  - exists (b1 ++ b2). rewrite G2, G1, app_assoc. reflexivity.
Qed.

Lemma records_grow_insert (env : Env) (t : CaseTable) (o : ScrapeObj) (c : string) :
  steps records_grow (insert_case env t o c).
Proof.
  apply (steps_store_request _ records_grow_refl). intros d. simpl.
  destruct t; split; simpl.
  - eexists; reflexivity.
  - exists []; rewrite app_nil_r; reflexivity.
  - exists []; rewrite app_nil_r; reflexivity.
  - eexists; reflexivity.
Qed.

Lemma records_grow_upsert (env : Env) (p : LedgerPayload) :
  steps records_grow (upsert_ledger env p).
Proof.
  apply (steps_store_request _ records_grow_refl). intros d.
  split; exists []; rewrite app_nil_r; reflexivity.
Qed.

Lemma UsCaselaw_insertCaseLaw_records_grow
      (env : Env) (caseData : ScrapeObj) (u : string) :
  steps records_grow (UsCaselaw.insertCaseLaw env caseData u).
Proof.
  unfold UsCaselaw.insertCaseLaw.
  apply (steps_try_catch _ records_grow_trans).
  - unfold UsCaselaw.insertCaseLaw_try.
    apply (steps_bind _ records_grow_trans); [apply records_grow_insert|].
    intros r. destruct (data_of r) as [data|];
      [|apply (steps_throw _ records_grow_refl)].
    apply (steps_bind _ records_grow_trans); [apply records_grow_upsert|].
    intros u0.
    apply (steps_bind _ records_grow_trans).
    { apply (steps_when _ records_grow_refl). apply (steps_emit _ records_grow_refl). }
    intros _.
    apply (steps_bind _ records_grow_trans); [apply (steps_emit _ records_grow_refl)|].
    intros _. destruct (error_of u0);
      [apply (steps_throw _ records_grow_refl) | apply (steps_ret _ records_grow_refl)].
  - intros e. unfold UsCaselaw.insertCaseLaw_catch.
    apply (steps_bind _ records_grow_trans); [apply records_grow_upsert|].
    intros _.
    apply (steps_bind _ records_grow_trans); [apply (steps_emit _ records_grow_refl)|].
    intros _. apply (steps_throw _ records_grow_refl).
Qed.

Lemma UsCaselaw_dispatch_records_grow (env : Env) (cloudFlareBatch : list string) :
  steps records_grow (UsCaselaw.process_cloudFlareBatch env cloudFlareBatch).
Proof.
  unfold UsCaselaw.process_cloudFlareBatch, sleep.
  apply (steps_bind _ records_grow_trans).
  { apply (steps_mapM _ records_grow_refl records_grow_trans). intros u.
    unfold UsCaselaw.scrape_case.
    apply (steps_try_catch _ records_grow_trans);
      [|intros e; apply (steps_ret _ records_grow_refl)].
    apply (steps_bind _ records_grow_trans);
      [apply (steps_fetchWithRetry _ records_grow_refl)|].
    intros [r|a b c]; [|apply (steps_ret _ records_grow_refl)].
    destruct (ok r); [|apply (steps_ret _ records_grow_refl)].
    apply (steps_bind _ records_grow_trans); [apply (steps_json _ records_grow_refl)|].
    intros d. apply (steps_ret _ records_grow_refl). }
  intros results.
  apply (steps_bind _ records_grow_trans);
    [|intros _; apply (steps_emit _ records_grow_refl)].
  apply (steps_forM_ _ records_grow_refl records_grow_trans). intros result.
  unfold UsCaselaw.store_result, console_log.
  destruct (status_is_error result); [apply (steps_emit _ records_grow_refl)|].
  apply (steps_try_catch _ records_grow_trans);
    [|intros e; apply (steps_emit _ records_grow_refl)].
  apply (steps_bind _ records_grow_trans);
    [apply UsCaselaw_insertCaseLaw_records_grow|].
  intros _. apply (steps_emit _ records_grow_refl).
Qed.

Lemma UsCaselaw_scrapFindLaws_records_grow (env : Env) (cfg : UsCaselaw.Config) :
  steps records_grow (UsCaselaw.scrapFindLaws env cfg).
Proof.
  unfold UsCaselaw.scrapFindLaws.
  apply (steps_bind _ records_grow_trans); [apply (steps_fetch _ records_grow_refl)|].
  intros r.
  apply (steps_bind _ records_grow_trans); [apply (steps_json _ records_grow_refl)|].
  intros b.
  apply (steps_bind _ records_grow_trans).
  { unfold iterate. destruct b;
      [apply (steps_ret _ records_grow_refl)
      | apply (steps_throw _ records_grow_refl)
      | apply (steps_ret _ records_grow_refl)]. }
  intros urls.
  apply (steps_forM_ _ records_grow_refl records_grow_trans). intros siteMapUrl.
  unfold UsCaselaw.process_sitemap, UsCaselaw.process_pageUrls, sleep, console_log.
  apply (steps_bind _ records_grow_trans); [apply (steps_fetch _ records_grow_refl)|].
  intros r'.
  apply (steps_bind _ records_grow_trans); [apply (steps_json _ records_grow_refl)|].
  intros b'.
  apply (steps_bind _ records_grow_trans); [apply (steps_emit _ records_grow_refl)|].
  intros _.
  apply (steps_bind _ records_grow_trans);
    [|intros _; apply (steps_emit _ records_grow_refl)].
  apply (steps_forM_ _ records_grow_refl records_grow_trans). intros filterBatch.
  unfold UsCaselaw.process_filterBatch, console_log.
  apply (steps_bind _ records_grow_trans).
  { apply (steps_mapM _ records_grow_refl records_grow_trans). intros u.
    unfold UsCaselaw.check_url, UsCaselaw.checkIfUrlProcessed, select_processed,
      console_log.
    apply (steps_bind _ records_grow_trans).
    - apply (steps_bind _ records_grow_trans);
        [apply (steps_select _ records_grow_refl)|].
      intros q. destruct (error_of q) as [e|];
        [|apply (steps_ret _ records_grow_refl)].
      destruct (negb (Js.code_is e "PGRST116"));
        [|apply (steps_ret _ records_grow_refl)].
      apply (steps_bind _ records_grow_trans);
        [apply (steps_emit _ records_grow_refl)|].
      intros _. apply (steps_ret _ records_grow_refl).
    - intros isProcessed. apply (steps_ret _ records_grow_refl). }
  intros checked.
  apply (steps_bind _ records_grow_trans); [apply (steps_emit _ records_grow_refl)|].
  intros _.
  apply (steps_forM_ _ records_grow_refl records_grow_trans). intros batch.
  apply UsCaselaw_dispatch_records_grow.
Qed.

(** X4: a run of the US driver never deletes: a well-formed ledger (one
    settled row per locator) is well formed after the run and still holds
    every locator it held, and both record tables are what they were with
    rows added at the end, whatever the network and the store answer and
    whether the run ends or raises. *)
Theorem scrapFindLaws_never_deletes
        (env : Env) (cfg : UsCaselaw.Config) (w : World) :
  ledger_ok (db w) ->
  ledger_ok (db (snd (UsCaselaw.scrapFindLaws env cfg w)))
  /\ incl (map l_url (caselaw_scraping_urls (db w)))
          (map l_url (caselaw_scraping_urls
                        (db (snd (UsCaselaw.scrapFindLaws env cfg w)))))
  /\ (exists added,
         caselaw_us (db (snd (UsCaselaw.scrapFindLaws env cfg w)))
         = caselaw_us (db w) ++ added)
  /\ (exists added,
         caselaw_singapore (db (snd (UsCaselaw.scrapFindLaws env cfg w)))
         = caselaw_singapore (db w) ++ added).
Proof.
  intros Hok.
  destruct (UsCaselaw_scrapFindLaws_ledger_safe env cfg w) as [Hok' Hincl].
  destruct (UsCaselaw_scrapFindLaws_records_grow env cfg w) as [Hus Hsg].
  auto.
Qed.

Lemma scrapFindLaws_never_deletes_witness :
  ledger_ok Scenario.a_processed
  /\ ledger_ok (db (snd (UsCaselaw.scrapFindLaws
                           Scenario.a_b_c UsCaselaw.CONFIG
                           (initial_world Scenario.a_processed)))).
Proof.
  assert (Hok : ledger_ok Scenario.a_processed).
  { split; simpl.
    - constructor; [simpl; tauto | constructor].
    - constructor; [left; reflexivity | constructor]. }
  split; [exact Hok|].
  exact (proj1 (scrapFindLaws_never_deletes
                  Scenario.a_b_c UsCaselaw.CONFIG
                  (initial_world Scenario.a_processed) Hok)).
Defined.

(* ================================================================= *)
(** ** What the US writer leaves behind *)

Lemma filter_andb {A} (f g : A -> bool) (l : list A) :
  filter (fun x => f x && g x) l = filter g (filter f l).
Proof.
  induction l as [|x r IH]; [reflexivity|].
  simpl. destruct (f x); simpl; [destruct (g x); rewrite IH; reflexivity | exact IH].
Qed.

(** The processed-check right after an upsert of the locator. *)
Lemma UsCaselaw_check_after_upsert
      (env : Env) (p : LedgerPayload) (rows : list LedgerRow) (w : World) :
  NoDup (map l_url rows) ->
  fault env (now w) = None ->
  caselaw_scraping_urls (db w) = upsert_rows p rows ->
  fst (UsCaselaw.checkIfUrlProcessed env (p_url p) w) = Ret (p_processed p).
Proof.
  intros Hnd Hf Hrows.
  unfold UsCaselaw.checkIfUrlProcessed, select_processed.
  unfold bind at 1. rewrite (store_request_healthy _ _ _ _ Hf). cbn [fst snd].
  rewrite Hrows, filter_andb.
  destruct (upsert_rows_entry p rows Hnd) as [row (Hrow & _ & Hproc)].
  rewrite Hrow. simpl. rewrite Hproc.
  destruct (p_processed p); reflexivity.
Qed.

(** X5: when the US [insertCaseLaw] returns an id, the record table has
    gained exactly the row of the document, under that id, and the locator
    is from then on reported as processed by [checkIfUrlProcessed] (when
    the store answers), so a later pass does not fetch it again. *)
Theorem UsCaselaw_insert_then_processed
        (env : Env) (caseData : ScrapeObj) (sourceUrl : string) (w : World) (i : nat) :
  NoDup (map l_url (caselaw_scraping_urls (db w))) ->
  fst (UsCaselaw.insertCaseLaw env caseData sourceUrl w) = Ret i ->
  fault env (now (snd (UsCaselaw.insertCaseLaw env caseData sourceUrl w))) = None ->
  caselaw_us (db (snd (UsCaselaw.insertCaseLaw env caseData sourceUrl w)))
  = caselaw_us (db w) ++ [case_row i caseData "US"]
  /\ fst (UsCaselaw.checkIfUrlProcessed
            env sourceUrl (snd (UsCaselaw.insertCaseLaw env caseData sourceUrl w)))
     = Ret true.
Proof.
  intros Hnd. rewrite UsCaselaw_insertCaseLaw_run, UsCaselaw_insertCaseLaw_try_run.
  destruct (fault env (now w)) as [e0|] eqn:Hinsert; [discriminate|].
  cbv zeta.
  destruct (fault env (S (now w))) as [e1|] eqn:Hupsert; [discriminate|].
  intros Hret Hnext. simpl in Hret. inversion Hret; subst i. clear Hret.
  cbn [snd] in *. split.
  - cbn [db]. rewrite (proj2 (after_upsert_rows _ _ _)). reflexivity.
  - apply (UsCaselaw_check_after_upsert
             env (success_payload sourceUrl (next_id (db w)) None)
             (caselaw_scraping_urls (db w)) _ Hnd Hnext).
    cbn [db]. unfold after_upsert. cbn [now]. rewrite Hupsert. reflexivity.
Qed.

(** X6: the US writer does not roll back.  When the record is inserted and
    the ledger upsert that follows is refused, the call raises the error of
    the upsert, the record stays in the table, and, once the upsert of the
    [catch] block is taken, the locator is reported as not processed: the
    next pass will fetch and insert it again. *)
Theorem UsCaselaw_insert_without_rollback
        (env : Env) (caseData : ScrapeObj) (sourceUrl : string) (w : World)
        (e : Js.Error) :
  NoDup (map l_url (caselaw_scraping_urls (db w))) ->
  fault env (now w) = None ->
  fault env (S (now w)) = Some e ->
  fault env (S (S (now w))) = None ->
  fault env (S (S (S (now w)))) = None ->
  fst (UsCaselaw.insertCaseLaw env caseData sourceUrl w) = Throw e
  /\ caselaw_us (db (snd (UsCaselaw.insertCaseLaw env caseData sourceUrl w)))
     = caselaw_us (db w) ++ [case_row (next_id (db w)) caseData "US"]
  /\ fst (UsCaselaw.checkIfUrlProcessed
            env sourceUrl (snd (UsCaselaw.insertCaseLaw env caseData sourceUrl w)))
     = Ret false.
Proof.
  intros Hnd Hinsert Hupsert Hcatch Hnext.
  rewrite UsCaselaw_insertCaseLaw_run, UsCaselaw_insertCaseLaw_try_run.
  rewrite Hinsert. cbv zeta. rewrite Hupsert. cbn [fst snd].
  split; [reflexivity|]. split.
  - cbn [db]. rewrite (proj2 (after_upsert_rows _ _ _)). cbn [db].
    rewrite (proj2 (after_upsert_rows _ _ _)). reflexivity.
  - apply (UsCaselaw_check_after_upsert
             env (error_payload sourceUrl e None)
             (caselaw_scraping_urls (db w)) _ Hnd).
    + cbn [now]. exact Hnext.
    + cbn [db]. unfold after_upsert at 1. cbn [now]. rewrite Hcatch.
      cbn [db]. unfold after_upsert. cbn [now]. rewrite Hupsert. reflexivity.
Qed.

Lemma UsCaselaw_insert_then_processed_witness :
  NoDup (map l_url (caselaw_scraping_urls Scenario.a_processed))
  /\ fst (UsCaselaw.insertCaseLaw
            Scenario.a_b_c
            (Scenario.opinion "West Virginia v. EPA" "The Clean Air Act ..." "597 U.S. 697")
            "B" (initial_world Scenario.a_processed))
     = Ret 2
  /\ fst (UsCaselaw.checkIfUrlProcessed
            Scenario.a_b_c "B"
            (snd (UsCaselaw.insertCaseLaw
                    Scenario.a_b_c
                    (Scenario.opinion "West Virginia v. EPA" "The Clean Air Act ..."
                                      "597 U.S. 697")
                    "B" (initial_world Scenario.a_processed))))
     = Ret true.
Proof.
  assert (Hnd : NoDup (map l_url (caselaw_scraping_urls Scenario.a_processed))).
  { simpl. constructor; [simpl; tauto | constructor]. }
  split; [exact Hnd|]. split; [reflexivity|].
  apply (UsCaselaw_insert_then_processed
           Scenario.a_b_c
           (Scenario.opinion "West Virginia v. EPA" "The Clean Air Act ..." "597 U.S. 697")
           "B" (initial_world Scenario.a_processed) 2 Hnd eq_refl eq_refl).
Defined.

Lemma UsCaselaw_insert_without_rollback_witness :
  fault Scenario.write_fails 1 = Some Scenario.disk_full
  /\ fst (UsCaselaw.insertCaseLaw
            Scenario.write_fails
            (Scenario.opinion "In re Doe" "Per curiam ..." "1 U.S. 1")
            "/us-supreme-court/1.html" Scenario.w0)
     = Throw Scenario.disk_full
  /\ length (caselaw_us
               (db (snd (UsCaselaw.insertCaseLaw
                           Scenario.write_fails
                           (Scenario.opinion "In re Doe" "Per curiam ..." "1 U.S. 1")
                           "/us-supreme-court/1.html" Scenario.w0))))
     = 1.
Proof.
  split; [reflexivity|].
  destruct (UsCaselaw_insert_without_rollback
              Scenario.write_fails
              (Scenario.opinion "In re Doe" "Per curiam ..." "1 U.S. 1")
              "/us-supreme-court/1.html" Scenario.w0 Scenario.disk_full
              (NoDup_nil _) eq_refl eq_refl eq_refl eq_refl)
    as (Hthrow & Hrows & _).
  split; [exact Hthrow|]. rewrite Hrows. reflexivity.
Defined.

(* ================================================================= *)
(** ** What the Singapore writer leaves behind *)

Lemma Singapore_insertCaseLaw_catch_run
      (env : Env) (u : string) (e : Js.Error) (w : World) :
  Singapore.insertCaseLaw_catch env u e w
  = (Throw e,
     mkWorld (after_upsert env (error_payload u e (Some "Singapore")) w)
             (S (now w))
             (trace w ++ [EvUpsert "caselaw_scraping_urls" u;
                          EvLog ("Error inserting Singapore case law: "
                                   +++ Js.message e)])).
Proof.
  unfold Singapore.insertCaseLaw_catch.
  unfold bind at 1. fold (error_payload u e (Some "Singapore")).
  rewrite upsert_ledger_run.
  unfold bind at 1. rewrite console_log_run. simpl.
  rewrite <- app_assoc. reflexivity.
Qed.

(** The three ways a call of the Singapore writer can end. *)
Lemma Singapore_insertCaseLaw_cases
      (env : Env) (caseData : ScrapeObj) (u : string) (w : World) :
  (fst (Singapore.insertCaseLaw env caseData u w) = Ret None
   /\ db (snd (Singapore.insertCaseLaw env caseData u w)) = db w
   /\ (citation_known env (citation caseData) w = true
       \/ exists t, case_text caseData = Some t /\ Js.whitespace_only t = true))
  \/ (exists e, fst (Singapore.insertCaseLaw env caseData u w) = Throw e)
  \/ (fst (Singapore.insertCaseLaw env caseData u w) = Ret (Some (next_id (db w)))
      /\ caselaw_singapore (db (snd (Singapore.insertCaseLaw env caseData u w)))
         = caselaw_singapore (db w)
             ++ [case_row (next_id (db w)) caseData "Singapore"]
      /\ caselaw_scraping_urls (db (snd (Singapore.insertCaseLaw env caseData u w)))
         = upsert_rows (success_payload u (next_id (db w)) (Some "Singapore"))
                       (caselaw_scraping_urls (db w))).
Proof.
  remember (Singapore.insertCaseLaw env caseData u w) as run eqn:HR.
  unfold Singapore.insertCaseLaw, try_catch, Singapore.insertCaseLaw_try in HR.
  unfold bind at 1 in HR.
  assert (Hcheck : exists w1,
             (if Js.truthy (citation caseData)
              then Singapore.checkIfCitationExists env (citation caseData)
              else ret false) w
             = (Ret (citation_known env (citation caseData) w), w1)
             /\ db w1 = db w).
  { destruct (Js.truthy (citation caseData)) eqn:Ht.
    - apply Singapore_checkIfCitationExists_run.
    - exists w. unfold citation_known. rewrite Ht. auto. }
  destruct Hcheck as [w1 [Hcheck Hdb]]. rewrite Hcheck in HR.
  destruct (citation_known env (citation caseData) w) eqn:Hknown.
  { left. simpl in HR. subst run. simpl. auto. }
  unfold bind at 1 in HR. unfold Singapore.case_text_is_empty in HR.
  destruct (case_text caseData) as [t|] eqn:Htext.
  2:{ right. left. unfold throw in HR.
      rewrite Singapore_insertCaseLaw_catch_run in HR. subst run. eexists. reflexivity. }
  unfold ret at 1 in HR.
  destruct (Js.trims_to_empty t) eqn:Hempty.
  { left. simpl in HR. subst run. simpl. split; [reflexivity|]. split; [exact Hdb|].
    right. exists t. split; [reflexivity|].
    rewrite <- trims_to_empty_whitespace. exact Hempty. }
  unfold bind at 1 in HR. rewrite insert_case_run in HR.
  destruct (fault env (now w1)) as [e|] eqn:Hinsert.
  { right. left. cbn [error_of data_of] in HR. cbv beta iota in HR.
    unfold bind at 1 in HR. rewrite console_log_run in HR. unfold throw in HR.
    rewrite Singapore_insertCaseLaw_catch_run in HR. subst run. eexists. reflexivity. }
  cbn [error_of data_of] in HR. cbv beta iota in HR.
  unfold bind at 1 in HR. rewrite console_log_run in HR.
  unfold bind at 1 in HR. rewrite upsert_ledger_run in HR.
  cbn [now] in HR.
  destruct (fault env (S (now w1))) as [e|] eqn:Hupsert;
    cbn [error_of] in HR; cbv beta iota in HR.
  - right. left. unfold throw in HR.
    rewrite Singapore_insertCaseLaw_catch_run in HR. subst run. eexists. reflexivity.
  - right. right. unfold bind at 1 in HR. rewrite console_log_run in HR.
    unfold ret in HR. subst run. cbn [fst snd db id case_row].
    unfold after_upsert. cbn [now db]. rewrite Hupsert. rewrite Hdb.
    simpl. auto.
Qed.

(** X7: a call of the Singapore [insertCaseLaw] that returns [null] has
    written nothing, neither a record nor a ledger entry; for a document
    whose text is made of one-byte code points it has skipped the document
    because the citation is already there or because the text is blank.  A
    call that returns an id has appended the row of the document under
    that id and has upserted the success entry of the locator. *)
Theorem Singapore_insertCaseLaw_returns
        (env : Env) (caseData : ScrapeObj) (u : string) (w : World) :
  (fst (Singapore.insertCaseLaw env caseData u w) = Ret None ->
   db (snd (Singapore.insertCaseLaw env caseData u w)) = db w)
  /\ (fst (Singapore.insertCaseLaw env caseData u w) = Ret None ->
      (forall t, case_text caseData = Some t -> one_byte_text t = true) ->
      citation_known env (citation caseData) w = true
      \/ exists t, case_text caseData = Some t /\ Js.whitespace_only t = true)
  /\ (forall i,
         fst (Singapore.insertCaseLaw env caseData u w) = Ret (Some i) ->
         i = next_id (db w)
         /\ caselaw_singapore (db (snd (Singapore.insertCaseLaw env caseData u w)))
            = caselaw_singapore (db w) ++ [case_row i caseData "Singapore"]
         /\ caselaw_scraping_urls (db (snd (Singapore.insertCaseLaw env caseData u w)))
            = upsert_rows (success_payload u i (Some "Singapore"))
                          (caselaw_scraping_urls (db w))).
Proof.
  destruct (Singapore_insertCaseLaw_cases env caseData u w)
    as [(Hret & Hdb & Hwhy) | [[e Hthrow] | (Hret & Hrows & Hledger)]].
  - split; [auto|]. split; [auto|]. intros i Hi. congruence.
  - split; [congruence|]. split; [congruence|]. intros i Hi. congruence.
  - split; [congruence|]. split; [congruence|].
    intros i Hi. rewrite Hret in Hi. inversion Hi; subst i. auto.
Qed.

Lemma Singapore_insertCaseLaw_returns_witness :
  fst (Singapore.insertCaseLaw
         Scenario.cited_judgment
         (Scenario.judgment "Tan v Lim" "   " "[2001] SGHC 27")
         Scenario.sg_case Scenario.w0)
  = Ret None
  /\ db (snd (Singapore.insertCaseLaw
                Scenario.cited_judgment
                (Scenario.judgment "Tan v Lim" "   " "[2001] SGHC 27")
                Scenario.sg_case Scenario.w0))
     = db Scenario.w0
  /\ (citation_known Scenario.cited_judgment
                     (citation (Scenario.judgment "Tan v Lim" "   " "[2001] SGHC 27"))
                     Scenario.w0 = true
      \/ exists t,
          case_text (Scenario.judgment "Tan v Lim" "   " "[2001] SGHC 27") = Some t
          /\ Js.whitespace_only t = true)
  /\ length (caselaw_singapore
               (db (snd (Singapore.insertCaseLaw
                           Scenario.cited_judgment
                           (Scenario.judgment "Tan v Lim" "The plaintiff ..."
                                              "[2001] SGHC 27")
                           Scenario.sg_case Scenario.w0))))
     = 1.
Proof.
  split; [reflexivity|]. split; [|split].
  - exact (proj1 (Singapore_insertCaseLaw_returns
                    Scenario.cited_judgment
                    (Scenario.judgment "Tan v Lim" "   " "[2001] SGHC 27")
                    Scenario.sg_case Scenario.w0) eq_refl).
  - apply (proj1 (proj2 (Singapore_insertCaseLaw_returns
                           Scenario.cited_judgment
                           (Scenario.judgment "Tan v Lim" "   " "[2001] SGHC 27")
                           Scenario.sg_case Scenario.w0)) eq_refl).
    intros t Ht. inversion Ht; subst t. reflexivity.
  - destruct (proj2 (proj2 (Singapore_insertCaseLaw_returns
                              Scenario.cited_judgment
                              (Scenario.judgment "Tan v Lim" "The plaintiff ..."
                                                 "[2001] SGHC 27")
                              Scenario.sg_case Scenario.w0)) 1 eq_refl)
      as (_ & Hrows & _).
    rewrite Hrows. reflexivity.
Defined.

(* ================================================================= *)
(** ** Failures are confined to their locator *)

Lemma returns_ret {A} (a : A) : returns (ret a).
Proof. intros w. exists a, w. reflexivity. Qed.

Lemma returns_emit (e : Event) : returns (emit e).
Proof. intros w. eexists. eexists. reflexivity. Qed.

Lemma returns_bind {A B} (m : M A) (k : A -> M B) :
  returns m -> (forall a, returns (k a)) -> returns (bind m k).
Proof.
  intros Hm Hk w. unfold bind.
  destruct (Hm w) as [a [w1 H1]]. rewrite H1. apply Hk.
Qed.

(** A [try] whose [catch] block returns does return. *)
Lemma returns_try_catch {A} (m : M A) (h : Js.Error -> M A) :
  (forall e, returns (h e)) -> returns (try_catch m h).
Proof.
  intros Hh w. unfold try_catch.
  destruct (m w) as [[a|e] w1]; [exists a, w1; reflexivity | apply Hh].
Qed.

Lemma returns_when (b : bool) (m : M unit) : returns m -> returns (when b m).
Proof. intros Hm. destruct b; [exact Hm | apply returns_ret]. Qed.

Lemma returns_mapM {A B} (f : A -> M B) (xs : list A) :
  (forall x, returns (f x)) -> returns (mapM f xs).
Proof.
  intros Hf. induction xs as [|x r IH]; simpl; [apply returns_ret|].
  apply returns_bind; [apply Hf|]. intros y.
  apply returns_bind; [exact IH|]. intros ys. apply returns_ret.
Qed.

Lemma returns_forM_ {A} (f : A -> M unit) (xs : list A) :
  (forall x, returns (f x)) -> returns (forM_ f xs).
Proof.
  intros Hf. induction xs as [|x r IH]; simpl; [apply returns_ret|].
  apply returns_bind; [apply Hf|]. intros _. exact IH.
Qed.

Lemma returns_store_request {A} (env : Env) (ev : Event)
      (run : DB -> PgResult A * DB) :
  returns (store_request env ev run).
Proof. intros w. rewrite store_request_run. eexists. eexists. reflexivity. Qed.

Lemma Singapore_process_page_returns
      (env : Env) (cfg : Singapore.Config) (pageIndex : nat) (caseUrls : list string) :
  returns (Singapore.process_page env cfg pageIndex caseUrls).
Proof.
  unfold Singapore.process_page, console_log, sleep.
  apply returns_bind; [apply returns_emit|]. intros _.
  apply returns_bind.
  { apply returns_mapM. intros u. unfold Singapore.check_url.
    apply returns_bind; [apply returns_ret|]. intros b. apply returns_ret. }
  intros checked.
  apply returns_bind; [apply returns_emit|]. intros _.
  apply returns_bind.
  { apply returns_mapM. intros u. unfold Singapore.scrape_case.
    apply returns_try_catch. intros e. apply returns_ret. }
  intros results.
  apply returns_bind.
  { apply returns_forM_. intros result. unfold Singapore.store_result, console_log.
    destruct (status_is_error result); [apply returns_emit|].
    apply returns_try_catch. intros e. apply returns_emit. }
  intros _. apply returns_when. apply returns_emit.
Qed.


(** What may make the pagination loop raise at or after page [i]: the
    request for a listing page raised, or its answer was not JSON. *)
Lemma Singapore_pagination_outcome (env : Env) (cfg : Singapore.Config) :
  forall fuel i w,
    match fst (Singapore.pagination env cfg fuel i w) with
    | Ret (Singapore.FatalError _) => False
    | Ret _ => True
    | Throw e =>
        exists t j,
          i <= j <= Singapore.maxPages cfg
          /\ (net env t (Singapore.listing_url j) = NetworkError e
              \/ exists r,
                  net env t (Singapore.listing_url j) = Responds r
                  /\ ok r = true /\ body r = BodyMalformed
                  /\ e = Js.SyntaxError_json)
    end.
Proof.
  induction fuel as [|f IH]; intros i w; [exact I|].
  simpl.
  destruct (i <=? Singapore.maxPages cfg) eqn:Hi; [|exact I].
  apply Nat.leb_le in Hi.
  unfold bind at 1. rewrite console_log_run.
  unfold bind at 1. rewrite console_log_run.
  unfold bind at 1. rewrite fetch_run. cbn [now].
  destruct (net env (now w) (Singapore.listing_url i)) as [r|e0] eqn:Hnet.
  2:{ cbn [fst]. exists (now w), i. split; [lia|]. left. exact Hnet. }
  destruct (ok r) eqn:Hok; cbn [negb]; cbv iota; [|exact I].
  unfold bind at 1. rewrite json_run.
  assert (Hb : forall (b : Body) (w1 : World),
             match
               fst ((if length (locators_of b) =? 0
                     then
                       console_log ("No cases found on page " +++ show_nat i
                                      +++ ", stopping pagination") ;;;
                       ret Singapore.NoCasesFound
                     else
                       Singapore.process_page env cfg i (locators_of b) ;;;
                       Singapore.pagination env cfg f (S i)) w1)
             with
             | Ret (Singapore.FatalError _) => False
             | Ret _ => True
             | Throw e =>
                 exists t j,
                   i <= j <= Singapore.maxPages cfg
                   /\ (net env t (Singapore.listing_url j) = NetworkError e
                       \/ exists r,
                           net env t (Singapore.listing_url j) = Responds r
                           /\ ok r = true /\ body r = BodyMalformed
                           /\ e = Js.SyntaxError_json)
             end).
  { intros b w1. destruct (length (locators_of b) =? 0); [exact I|].
    unfold bind at 1.
    destruct (Singapore_process_page_returns env cfg i (locators_of b) w1)
      as [[] [w2 Hp]].
    rewrite Hp. specialize (IH (S i) w2).
    destruct (fst (Singapore.pagination env cfg f (S i) w2)) as [[| | |e1|]|e1];
      try exact I; try contradiction.
    destruct IH as [t [j (Hj & Hwhy)]]. exists t, j. split; [lia | exact Hwhy]. }
  destruct (body r) as [l|o|] eqn:Hbody.
  - apply Hb.
  - apply Hb.
  - cbn [fst]. exists (now w), i. split; [lia|]. right. exists r. auto.
Qed.

(** X8: [scrapeSingaporeCaseLaws] never raises and always comes back by
    one of the exits of its loop.  When the listing pages answered with an
    ok status are JSON arrays of locators or not JSON at all, the fatal
    exit is only taken because a request for a listing page raised a
    network exception or was answered with an ok status by something that
    is not JSON: whatever happens while a judgment is fetched, parsed or
    stored stays with that judgment. *)
Theorem scrapeSingaporeCaseLaws_always_returns
        (env : Env) (cfg : Singapore.Config) (w : World) :
  exists exit w',
    Singapore.scrapeSingaporeCaseLaws env cfg w = (Ret exit, w')
    /\ exit <> Singapore.OutOfFuel
    /\ (listings_are_arrays env ->
        forall e,
          exit = Singapore.FatalError e ->
          exists t j,
            Singapore.first_page <= j <= Singapore.maxPages cfg
            /\ (net env t (Singapore.listing_url j) = NetworkError e
                \/ exists r,
                    net env t (Singapore.listing_url j) = Responds r
                    /\ ok r = true /\ body r = BodyMalformed
                    /\ e = Js.SyntaxError_json)).
Proof.
  unfold Singapore.scrapeSingaporeCaseLaws, Singapore.scrape_from, try_catch.
  unfold bind at 1.
  pose proof (pagination_fuel env cfg
                (Singapore.enough_fuel cfg Singapore.first_page)
                Singapore.first_page w) as Hfuel.
  pose proof (Singapore_pagination_outcome env cfg
                (Singapore.enough_fuel cfg Singapore.first_page)
                Singapore.first_page w) as Hout.
  destruct (Singapore.pagination env cfg
              (Singapore.enough_fuel cfg Singapore.first_page)
              Singapore.first_page w) as [[exit|e] w1].
  - unfold bind at 1. rewrite console_log_run. unfold ret.
    eexists. eexists. split; [reflexivity|]. cbn [fst] in Hfuel, Hout. split.
    + intros Heq. apply Hfuel; [unfold Singapore.enough_fuel; lia|].
      congruence.
    + intros _ e Heq. subst exit. contradiction.
  - cbv beta. unfold bind at 1. rewrite console_log_run. unfold ret.
    eexists. eexists. split; [reflexivity|]. split; [discriminate|].
    intros _ e' Heq. inversion Heq; subst e'. exact Hout.
Qed.

Lemma scrapeSingaporeCaseLaws_always_returns_witness :
  listings_are_arrays Scenario.empty_listing
  /\ exists exit w',
      Singapore.scrapeSingaporeCaseLaws Scenario.empty_listing Singapore.CONFIG
                                        Scenario.w0
      = (Ret exit, w')
      /\ exit <> Singapore.OutOfFuel
      /\ forall e, exit <> Singapore.FatalError e.
Proof.
  assert (Hlist : listings_are_arrays Scenario.empty_listing).
  { intros t j r Hnet Hok. unfold Scenario.empty_listing in Hnet. cbn [net] in Hnet.
    destruct (String.eqb (Singapore.listing_url j) (Singapore.listing_url 340)).
    - inversion Hnet; subst r. right. eexists. reflexivity.
    - inversion Hnet; subst r. discriminate Hok. }
  split; [exact Hlist|].
  destruct (scrapeSingaporeCaseLaws_always_returns
              Scenario.empty_listing Singapore.CONFIG Scenario.w0)
    as [exit [w' (Hrun & Hfuel & Hfatal)]].
  exists exit, w'. split; [exact Hrun|]. split; [exact Hfuel|].
  intros e Heq.
  destruct (Hfatal Hlist e Heq) as [t [j (_ & [Hnet | (r & Hnet & Hok & Hbody & _)])]].
  - unfold Scenario.empty_listing in Hnet. cbn [net] in Hnet.
    destruct (String.eqb (Singapore.listing_url j) (Singapore.listing_url 340));
      discriminate.
  - unfold Scenario.empty_listing in Hnet. cbn [net] in Hnet.
    destruct (String.eqb (Singapore.listing_url j) (Singapore.listing_url 340));
      inversion Hnet; subst r; discriminate.
Defined.

(* ================================================================= *)
(** ** The citation check of the Singapore writer, there and back *)

(** A document whose citation the lookup reports is skipped, and nothing
    is written. *)
Lemma Singapore_insertCaseLaw_known
      (env : Env) (caseData : ScrapeObj) (u : string) (w : World) :
  citation_known env (citation caseData) w = true ->
  fst (Singapore.insertCaseLaw env caseData u w) = Ret None
  /\ db (snd (Singapore.insertCaseLaw env caseData u w)) = db w.
Proof.
  intros Hknown.
  destruct (Singapore_insertCaseLaw_cases env caseData u w)
    as [(Hret & Hdb & _) | [[e Hthrow] | (Hret & Hrows & _)]].
  - auto.
  - exfalso. revert Hthrow.
    unfold Singapore.insertCaseLaw, try_catch, Singapore.insertCaseLaw_try.
    unfold bind at 1.
    assert (Ht : Js.truthy (citation caseData) = true).
    { unfold citation_known in Hknown. apply andb_prop in Hknown. tauto. }
    rewrite Ht.
    destruct (Singapore_checkIfCitationExists_run env (citation caseData) w)
      as [w1 [Hrun _]].
    rewrite Hrun, Hknown. unfold bind at 1. rewrite console_log_run.
    unfold ret. cbn [fst]. discriminate.
  - exfalso.
    destruct (Singapore_insertCaseLaw_rows env caseData u w)
      as [Hsame | (_ & Hk & _)]; [|congruence].
    rewrite Hsame in Hrows.
    apply (f_equal (@length CaseRow)) in Hrows.
    rewrite length_app in Hrows. simpl in Hrows. lia.
Qed.

(** X9: the citation check there and back.  When the record table holds no
    citation twice, the store answers the two lookups and the Singapore
    [insertCaseLaw] returns an id for a document that carries a citation,
    a following call for any document with that citation, under any
    locator, returns [null] and writes nothing; and the table still holds
    no citation twice. *)
Theorem Singapore_cited_document_inserted_once
        (env : Env) (first again : ScrapeObj) (u u' : string) (w : World) (i : nat) :
  citations_distinct (db w) ->
  Js.truthy (citation first) = true ->
  citation again = citation first ->
  fault env (now w) = None ->
  fst (Singapore.insertCaseLaw env first u w) = Ret (Some i) ->
  fault env (now (snd (Singapore.insertCaseLaw env first u w))) = None ->
  fst (Singapore.insertCaseLaw env again u'
         (snd (Singapore.insertCaseLaw env first u w))) = Ret None
  /\ db (snd (Singapore.insertCaseLaw env again u'
                (snd (Singapore.insertCaseLaw env first u w))))
     = db (snd (Singapore.insertCaseLaw env first u w))
  /\ citations_distinct (db (snd (Singapore.insertCaseLaw env first u w))).
Proof.
  intros Hdistinct Htruthy Hsame Hlookup Hret Hlookup'.
  pose proof (Singapore_insertCaseLaw_citations_distinct env first u w
                Hlookup Hdistinct) as Hdistinct'.
  assert (Hrows : caselaw_singapore (db (snd (Singapore.insertCaseLaw env first u w)))
                  = caselaw_singapore (db w)
                      ++ [case_row (next_id (db w)) first "Singapore"]).
  { destruct (Singapore_insertCaseLaw_cases env first u w)
      as [(Hnone & _) | [[e Hthrow] | (_ & Hrows & _)]];
      [congruence | congruence | exact Hrows]. }
  remember (snd (Singapore.insertCaseLaw env first u w)) as w1 eqn:Hw1.
  assert (Hknown : citation_known env (citation again) w1 = true).
  { rewrite Hsame. unfold citation_known. rewrite Htruthy, Hlookup'.
    cbn [andb].
    destruct (citation first) as [c|] eqn:Hcit; [|discriminate].
    cbn [show].
    pose proof (distinct_citations_one_match c _ Htruthy Hdistinct') as Hone.
    rewrite Hrows, filter_app in Hone |- *.
    cbn [filter case_row row_citation] in Hone |- *.
    rewrite Hcit in Hone |- *. cbn [opt_string_eqb] in Hone |- *.
    rewrite String.eqb_refl in Hone |- *.
    rewrite length_app in Hone. simpl length in Hone.
    destruct (filter (fun r => opt_string_eqb (row_citation r) c)
                     (caselaw_singapore (db w))) as [|r l];
      [reflexivity | simpl in Hone; lia]. }
  destruct (Singapore_insertCaseLaw_known env again u' w1 Hknown) as [Hnone Hdb].
  split; [exact Hnone|]. split; [exact Hdb | exact Hdistinct'].
Qed.

Lemma Singapore_cited_document_inserted_once_witness :
  fst (Singapore.insertCaseLaw
         Scenario.cited_judgment
         (Scenario.judgment "Tan v Lim (No 2)" "Costs." "[2001] SGHC 27")
         "/gd/s/2001_SGHC_27_costs"
         (snd (Singapore.insertCaseLaw
                 Scenario.cited_judgment
                 (Scenario.judgment "Tan v Lim" "The plaintiff ..." "[2001] SGHC 27")
                 Scenario.sg_case Scenario.w0)))
  = Ret None.
Proof.
  apply (Singapore_cited_document_inserted_once
           Scenario.cited_judgment
           (Scenario.judgment "Tan v Lim" "The plaintiff ..." "[2001] SGHC 27")
           (Scenario.judgment "Tan v Lim (No 2)" "Costs." "[2001] SGHC 27")
           Scenario.sg_case "/gd/s/2001_SGHC_27_costs" Scenario.w0 1).
  - constructor.
  - reflexivity.
  - reflexivity.
  - reflexivity.
  - reflexivity.
  - reflexivity.
Defined.

(* ================================================================= *)
(** ** The act identifier of a URL *)

Lemma append_assoc (a b c : string) : (a +++ b) +++ c = a +++ b +++ c.
Proof.
  induction a as [|x a IH]; [reflexivity|].
  change (String x ((a +++ b) +++ c) = String x (a +++ b +++ c)).
  rewrite IH. reflexivity.
Qed.

Lemma split_slash_segment (s : string) :
  slash_free s = true -> UsActs.split_slash s = [s].
Proof.
  induction s as [|c r IH]; simpl; [reflexivity|].
  intros H. apply andb_prop in H. destruct H as [Hc Hr].
  destruct (Ascii.eqb c "/"); [discriminate|].
  rewrite (IH Hr). reflexivity.
Qed.

Lemma split_slash_not_nil (s : string) : UsActs.split_slash s <> [].
Proof.
  induction s as [|c r IH]; simpl; [discriminate|].
  destruct (Ascii.eqb c "/"); [discriminate|].
  destruct (UsActs.split_slash r); discriminate.
Qed.

(** [split] cuts at every slash: a last segment is a last part. *)
Lemma split_slash_last (p s : string) :
  slash_free s = true ->
  UsActs.split_slash (p +++ "/" +++ s) = UsActs.split_slash p ++ [s].
Proof.
  intros Hs. induction p as [|c r IH].
  - change (UsActs.split_slash (String "/" s) = [EmptyString] ++ [s]).
    cbn [UsActs.split_slash]. rewrite Ascii.eqb_refl.
    rewrite (split_slash_segment s Hs). reflexivity.
  - change ((String c r) +++ "/" +++ s) with (String c (r +++ "/" +++ s)).
    cbn [UsActs.split_slash].
    destruct (Ascii.eqb c "/").
    + rewrite IH. reflexivity.
    + rewrite IH.
      destruct (UsActs.split_slash r) as [|h t] eqn:Hr;
        [exfalso; exact (split_slash_not_nil r Hr) | reflexivity].
Qed.

(** X10: [extractActIdentifierFromUrl] returns the last path segment but
    one of the trimmed URL.  For [.../a/l] it is [a]; so for a URL that
    ends with a slash ([l] empty) it is the segment before that slash, and
    for a URL without any slash it is [undefined]. *)
Theorem extractActIdentifierFromUrl_segments (u : string) :
  (forall p a l,
      Js.trim u = p +++ "/" +++ a +++ "/" +++ l ->
      slash_free a = true -> slash_free l = true ->
      UsActs.extractActIdentifierFromUrl u = Some a)
  /\ (slash_free (Js.trim u) = true ->
      UsActs.extractActIdentifierFromUrl u = None).
Proof.
  unfold UsActs.extractActIdentifierFromUrl. split.
  - intros p a l Hu Ha Hl. rewrite Hu.
    replace (p +++ "/" +++ a +++ "/" +++ l) with ((p +++ "/" +++ a) +++ "/" +++ l)
      by (rewrite !append_assoc; reflexivity).
    rewrite (split_slash_last _ l Hl), (split_slash_last p a Ha).
    cbv zeta.
    rewrite !length_app. cbn [length].
    destruct (length (UsActs.split_slash p) + 1 + 1 <? 2) eqn:Hlt;
      [apply Nat.ltb_lt in Hlt; lia|].
    replace (length (UsActs.split_slash p) + 1 + 1 - 2)
      with (length (UsActs.split_slash p)) by lia.
    rewrite <- app_assoc. rewrite nth_error_app2 by lia.
    rewrite Nat.sub_diag. reflexivity.
  - intros Hfree. rewrite (split_slash_segment _ Hfree). reflexivity.
Qed.

Lemma extractActIdentifierFromUrl_segments_witness :
  UsActs.extractActIdentifierFromUrl
    "  https://codes.findlaw.com/al/title-1/al-code-sect-1-1-1/ "
  = Some "al-code-sect-1-1-1"
  /\ UsActs.extractActIdentifierFromUrl
       "https://codes.findlaw.com/al/title-1/al-code-sect-1-1-1"
     = Some "title-1"
  /\ UsActs.extractActIdentifierFromUrl "al-code-sect-1-1-1" = None.
Proof.
  split; [|split].
  - apply (proj1 (extractActIdentifierFromUrl_segments
                    "  https://codes.findlaw.com/al/title-1/al-code-sect-1-1-1/ ")
                 "https://codes.findlaw.com/al/title-1" "al-code-sect-1-1-1" "");
      reflexivity.
  - apply (proj1 (extractActIdentifierFromUrl_segments
                    "https://codes.findlaw.com/al/title-1/al-code-sect-1-1-1")
                 "https://codes.findlaw.com/al" "title-1" "al-code-sect-1-1-1");
      reflexivity.
  - apply (proj2 (extractActIdentifierFromUrl_segments "al-code-sect-1-1-1")).
    reflexivity.
Defined.

(** The answer of [checkSectionExistsByUrl], request by request. *)
Lemma checkSectionExistsByUrl_run (env : Env) (u : string) (w : World) :
  exists w',
    UsActs.checkSectionExistsByUrl env u w
    = (Ret (match fault env (now w) with
            | Some _ => false
            | None => length (sections_of_url u (db w)) =? 1
            end), w')
    /\ db w' = db w.
Proof.
  unfold UsActs.checkSectionExistsByUrl, try_catch, sections_of_url.
  unfold bind at 1. rewrite console_log_run.
  unfold bind at 1. unfold select_section. rewrite store_request_run.
  cbn [db now fst snd].
  destruct (fault env (now w)) as [e|].
  - cbn [error_of]. cbv beta iota.
    destruct (Js.code_is e "PGRST116").
    + eexists. split; reflexivity.
    + unfold throw. unfold bind at 1. rewrite console_log_run.
      eexists. split; reflexivity.
  - destruct (filter (contains_act_identifier (UsActs.extractActIdentifierFromUrl u))
                     (sections (db w))) as [|r [|r' l]];
      eexists; split; reflexivity.
Qed.

(** X11: [checkSectionExistsByUrl] never raises and changes nothing in the
    store.  It answers [true] exactly when the store answers the query and
    holds one section, and only one, under the act identifier of the URL:
    with none, with two or more, or with a store that refuses the query it
    answers [false]. *)
Theorem checkSectionExistsByUrl_answer (env : Env) (u : string) (w : World) :
  exists w',
    UsActs.checkSectionExistsByUrl env u w
    = (Ret (match fault env (now w) with
            | Some _ => false
            | None => length (sections_of_url u (db w)) =? 1
            end), w')
    /\ db w' = db w.
Proof. exact (checkSectionExistsByUrl_run env u w). Qed.


(* ================================================================= *)
(** ** The job tracker *)

Lemma lift_run {A} (m : M A) (s : Tracked) :
  lift m s
  = (fst (m (world s)),
     mkTracked (snd (m (world s))) (cron_job_runs s) (next_run_id s)
               (job_log s) (vars s)).
Proof. reflexivity. Qed.

Lemma lift_console_log_run (msg : string) (s : Tracked) :
  lift (console_log msg) s
  = (Ret tt,
     mkTracked (mkWorld (db (world s)) (now (world s))
                        (trace (world s) ++ [EvLog msg]))
               (cron_job_runs s) (next_run_id s) (job_log s) (vars s)).
Proof. reflexivity. Qed.

Lemma startJob_run (env : Env) (jobName : string) (s : Tracked) :
  CronTracker.startJob env jobName s
  = match fault env (now (world s)) with
    | Some e =>
        (Ret (None, false),
         mkTracked (mkWorld (db (world s)) (S (now (world s)))
                            (trace (world s)
                               ++ [EvLog ("Error starting cron job tracking: "
                                            +++ Js.message e)]))
                   (cron_job_runs s) (next_run_id s)
                   (job_log s ++ [JobInsert jobName]) (vars s))
    | None =>
        (Ret (Some (next_run_id s), true),
         mkTracked (mkWorld (db (world s)) (S (now (world s)))
                            (trace (world s)
                               ++ [EvLog ("Cron job '" +++ jobName
                                            +++ "' started. Run ID: "
                                            +++ show_nat (next_run_id s))]))
                   (cron_job_runs s
                      ++ [mkJobRun (next_run_id s) jobName (now (world s)) None
                                   "started" 0 0 None])
                   (S (next_run_id s))
                   (job_log s ++ [JobInsert jobName]) (vars s))
    end.
Proof.
  unfold CronTracker.startJob, try_catchT, bindT, CronTracker.insert_run,
    CronTracker.job_request.
  destruct (fault env (now (world s))) as [e|]; reflexivity.
Qed.

(** The row of a run that ended: [completeJob] and [failJob] send the same
    request with their own update. *)
Lemma completeJob_run (env : Env) (id : option nat) (metrics : Metrics) (s : Tracked) :
  CronTracker.completeJob env id metrics s
  = match id with
    | Some (S n) =>
        match fault env (now (world s)) with
        | Some e =>
            (Ret false,
             mkTracked (mkWorld (db (world s)) (S (now (world s)))
                                (trace (world s)
                                   ++ [EvLog ("Error completing cron job: "
                                                +++ Js.message e)]))
                       (cron_job_runs s) (next_run_id s)
                       (job_log s ++ [JobUpdate (S n)]) (vars s))
        | None =>
            (Ret true,
             mkTracked (mkWorld (db (world s)) (S (now (world s))) (trace (world s)))
                       (CronTracker.update_rows
                          (S n) (CronTracker.completed (now (world s)) metrics)
                          (cron_job_runs s))
                       (next_run_id s)
                       (job_log s ++ [JobUpdate (S n)]) (vars s))
        end
    | _ =>
        (Ret false,
         mkTracked (mkWorld (db (world s)) (now (world s))
                            (trace (world s)
                               ++ [EvLog "Warning: Cannot complete job, no runId provided."]))
                   (cron_job_runs s) (next_run_id s) (job_log s) (vars s))
    end.
Proof.
  unfold CronTracker.completeJob.
  destruct id as [[|n]|]; cbn [truthy_id Nat.eqb negb]; cbv iota;
    try reflexivity.
  unfold try_catchT, bindT, CronTracker.update_run, CronTracker.job_request.
  destruct (fault env (now (world s))) as [e|]; reflexivity.
Qed.

Lemma failJob_run (env : Env) (id : option nat) (metrics : Metrics)
      (errorMessage : string) (s : Tracked) :
  CronTracker.failJob env id metrics errorMessage s
  = match id with
    | Some (S n) =>
        match fault env (now (world s)) with
        | Some e =>
            (Ret false,
             mkTracked (mkWorld (db (world s)) (S (now (world s)))
                                (trace (world s)
                                   ++ [EvLog ("Error marking cron job as failed: "
                                                +++ Js.message e)]))
                       (cron_job_runs s) (next_run_id s)
                       (job_log s ++ [JobUpdate (S n)]) (vars s))
        | None =>
            (Ret true,
             mkTracked (mkWorld (db (world s)) (S (now (world s))) (trace (world s)))
                       (CronTracker.update_rows
                          (S n)
                          (CronTracker.failed (now (world s)) metrics errorMessage)
                          (cron_job_runs s))
                       (next_run_id s)
                       (job_log s ++ [JobUpdate (S n)]) (vars s))
        end
    | _ =>
        (Ret false,
         mkTracked (mkWorld (db (world s)) (now (world s))
                            (trace (world s)
                               ++ [EvLog "Warning: Cannot fail job, no runId provided."]))
                   (cron_job_runs s) (next_run_id s) (job_log s) (vars s))
    end.
Proof.
  unfold CronTracker.failJob.
  destruct id as [[|n]|]; cbn [truthy_id Nat.eqb negb]; cbv iota;
    try reflexivity.
  unfold try_catchT, bindT, CronTracker.update_run, CronTracker.job_request.
  destruct (fault env (now (world s))) as [e|]; reflexivity.
Qed.

(** An update under an id that no row carries changes nothing. *)
Lemma update_rows_absent (id : nat) (f : JobRun -> JobRun) (rows : list JobRun) :
  Forall (fun r => run_id r <> id) rows ->
  CronTracker.update_rows id f rows = rows.
Proof.
  unfold CronTracker.update_rows.
  induction 1 as [|r rows Hr _ IH]; simpl; [reflexivity|].
  destruct (run_id r =? id) eqn:E; [apply Nat.eqb_eq in E; contradiction|].
  rewrite IH. reflexivity.
Qed.

(** An update under the id of the last row, the older rows carrying
    smaller ids, changes that row only. *)
Lemma update_rows_last (f : JobRun -> JobRun) (rows : list JobRun) (r : JobRun) :
  Forall (fun r' => run_id r' < run_id r) rows ->
  CronTracker.update_rows (run_id r) f (rows ++ [r]) = rows ++ [f r].
Proof.
  intros Hold. unfold CronTracker.update_rows. rewrite map_app.
  fold (CronTracker.update_rows (run_id r) f rows).
  rewrite update_rows_absent.
  - simpl. rewrite Nat.eqb_refl. reflexivity.
  - eapply Forall_impl; [|exact Hold]. simpl. intros a Ha. lia.
Qed.

(** X12: a job run there and back.  When the store answers, [startJob]
    returns the id the store gave to a new row, with [success] set, and a
    following [completeJob] (or [failJob]) under that id returns [true] and
    leaves the table as it was before the job with one more row: the run,
    ended, with the status, the metrics and, for a failure, the message it
    was given.  The rows of older runs are not touched. *)
Theorem startJob_then_finish
        (env : Env) (jobName : string) (metrics : Metrics) (errorMessage : string)
        (s : Tracked) :
  fresh_ids s ->
  0 < next_run_id s ->
  fault env (now (world s)) = None ->
  fault env (S (now (world s))) = None ->
  fst (CronTracker.startJob env jobName s) = Ret (Some (next_run_id s), true)
  /\ fst (CronTracker.completeJob env (Some (next_run_id s)) metrics
            (snd (CronTracker.startJob env jobName s))) = Ret true
  /\ cron_job_runs (snd (CronTracker.completeJob env (Some (next_run_id s)) metrics
                           (snd (CronTracker.startJob env jobName s))))
     = cron_job_runs s
         ++ [mkJobRun (next_run_id s) jobName (now (world s))
                      (Some (S (now (world s)))) "completed"
                      (m_new_cases_found metrics) (m_pages_processed metrics) None]
  /\ fst (CronTracker.failJob env (Some (next_run_id s)) metrics errorMessage
            (snd (CronTracker.startJob env jobName s))) = Ret true
  /\ cron_job_runs (snd (CronTracker.failJob env (Some (next_run_id s)) metrics
                           errorMessage
                           (snd (CronTracker.startJob env jobName s))))
     = cron_job_runs s
         ++ [mkJobRun (next_run_id s) jobName (now (world s))
                      (Some (S (now (world s)))) "failed"
                      (m_new_cases_found metrics) (m_pages_processed metrics)
                      (Some errorMessage)].
Proof.
  intros Hfresh Hpos Hstart Hend.
  rewrite startJob_run, Hstart. cbn [fst snd].
  rewrite completeJob_run, failJob_run.
  destruct (next_run_id s) as [|n] eqn:Hn; [lia|].
  cbn [world now]. rewrite Hend. cbn [fst snd cron_job_runs].
  assert (Hold : Forall (fun r' => run_id r'
                                   < run_id (mkJobRun (S n) jobName (now (world s)) None
                                                      "started" 0 0 None))
                        (cron_job_runs s)).
  { unfold fresh_ids in Hfresh. rewrite Hn in Hfresh. exact Hfresh. }
  split; [reflexivity|]. split; [reflexivity|]. split; [|split; [reflexivity|]].
  - exact (update_rows_last _ _ _ Hold).
  - exact (update_rows_last _ _ _ Hold).
Qed.

Lemma startJob_then_finish_witness :
  fst (CronTracker.completeJob
         Scenario.a_b_c (Some 1) (mkMetrics 2 1)
         (snd (CronTracker.startJob Scenario.a_b_c "us_caselaw_scraper"
                                    (untracked Scenario.w0))))
  = Ret true.
Proof.
  apply (startJob_then_finish Scenario.a_b_c "us_caselaw_scraper" (mkMetrics 2 1)
                              "fetch failed" (untracked Scenario.w0)).
  - constructor.
  - simpl. lia.
  - reflexivity.
  - reflexivity.
Defined.

(** X13: the edges of [completeJob] and [failJob].  Neither raises.
    Without a run id ([null], or [0]) they return [false] and send
    nothing.  With an id that no row carries, and a store that answers,
    they return [true] although no row is changed. *)
Theorem finish_without_a_run
        (env : Env) (id : option nat) (metrics : Metrics) (errorMessage : string)
        (s : Tracked) :
  (truthy_id id = false ->
   (fst (CronTracker.completeJob env id metrics s) = Ret false
    /\ job_log (snd (CronTracker.completeJob env id metrics s)) = job_log s
    /\ cron_job_runs (snd (CronTracker.completeJob env id metrics s))
       = cron_job_runs s)
   /\ (fst (CronTracker.failJob env id metrics errorMessage s) = Ret false
       /\ job_log (snd (CronTracker.failJob env id metrics errorMessage s))
          = job_log s
       /\ cron_job_runs (snd (CronTracker.failJob env id metrics errorMessage s))
          = cron_job_runs s))
  /\ (forall n,
         id = Some n -> 0 < n ->
         Forall (fun r => run_id r <> n) (cron_job_runs s) ->
         fault env (now (world s)) = None ->
         (fst (CronTracker.completeJob env id metrics s) = Ret true
          /\ cron_job_runs (snd (CronTracker.completeJob env id metrics s))
             = cron_job_runs s)
         /\ (fst (CronTracker.failJob env id metrics errorMessage s) = Ret true
             /\ cron_job_runs (snd (CronTracker.failJob env id metrics errorMessage s))
                = cron_job_runs s)).
Proof.
  rewrite completeJob_run, failJob_run. split.
  - intros Hid. destruct id as [[|n]|]; [| discriminate |]; cbn [fst snd job_log cron_job_runs]; auto.
  - intros n Hid Hpos Habsent Hfault. subst id.
    destruct n as [|n]; [lia|]. rewrite Hfault. cbn [fst snd cron_job_runs].
    rewrite !update_rows_absent by exact Habsent. auto.
Qed.

Lemma finish_without_a_run_witness :
  fst (CronTracker.completeJob Scenario.a_b_c None (mkMetrics 0 0)
                               (untracked Scenario.w0))
  = Ret false
  /\ fst (CronTracker.failJob Scenario.a_b_c (Some 7) (mkMetrics 0 0) "fetch failed"
                              (untracked Scenario.w0))
     = Ret true.
Proof.
  split.
  - apply (proj1 (finish_without_a_run Scenario.a_b_c None (mkMetrics 0 0) "fetch failed"
                                       (untracked Scenario.w0))).
    reflexivity.
  - apply (proj2 (finish_without_a_run Scenario.a_b_c (Some 7) (mkMetrics 0 0)
                                       "fetch failed" (untracked Scenario.w0)) 7).
    + reflexivity.
    + lia.
    + constructor.
    + reflexivity.
Defined.

(* ================================================================= *)
(** ** The tracked driver *)

Lemma crawl_step_refl (s : Tracked) : crawl_step 0 s s.
Proof. unfold crawl_step. repeat split; lia. Qed.

Lemma crawl_step_trans (n m : nat) (s1 s2 s3 : Tracked) :
  crawl_step n s1 s2 -> crawl_step m s2 s3 -> crawl_step (n + m) s1 s3.
Proof.
  unfold crawl_step.
  intros (A1 & A2 & A3 & A4 & A5 & A6 & A7) (B1 & B2 & B3 & B4 & B5 & B6 & B7).
  split; [congruence|]. split; [congruence|]. split; [congruence|].
  split; [congruence|]. split; [lia|]. split; lia.
Qed.

Lemma crawl_step_weaken (n m : nat) (s s' : Tracked) :
  n <= m -> crawl_step n s s' -> crawl_step m s s'.
Proof.
  unfold crawl_step. intros Hnm (A1 & A2 & A3 & A4 & A5 & A6 & A7).
  repeat split; try assumption; lia.
Qed.

Lemma tracks_weaken {A} (n m : nat) (c : T A) :
  n <= m -> tracks n c -> tracks m c.
Proof. intros Hnm Hc s. eapply crawl_step_weaken; [exact Hnm | apply Hc]. Qed.

Lemma tracks_ret {A} (a : A) : tracks 0 (retT a).
Proof. intros s. apply crawl_step_refl. Qed.

Lemma tracks_throw {A} (e : Js.Error) : tracks 0 (@throwT A e).
Proof. intros s. apply crawl_step_refl. Qed.

Lemma tracks_bind {A B} (n m : nat) (c : T A) (k : A -> T B) :
  tracks n c -> (forall a, tracks m (k a)) -> tracks (n + m) (bindT c k).
Proof.
  intros Hc Hk s. unfold bindT. specialize (Hc s).
  destruct (c s) as [[a|e] s1]; simpl in *.
  - eapply crawl_step_trans; [exact Hc | apply Hk].
  - eapply crawl_step_weaken; [|exact Hc]. lia.
Qed.

Lemma tracks_try_catch {A} (n m : nat) (c : T A) (h : Js.Error -> T A) :
  tracks n c -> (forall e, tracks m (h e)) -> tracks (n + m) (try_catchT c h).
Proof.
  intros Hc Hh s. unfold try_catchT. specialize (Hc s).
  destruct (c s) as [[a|e] s1]; simpl in *.
  - eapply crawl_step_weaken; [|exact Hc]. lia.
  - eapply crawl_step_trans; [exact Hc | apply Hh].
Qed.

Lemma tracks_forT_ {A} (n : nat) (f : A -> T unit) (xs : list A) :
  (forall x, tracks n (f x)) -> tracks (length xs * n) (forT_ f xs).
Proof.
  intros Hf. induction xs as [|x r IH]; cbn [forT_ length]; [apply tracks_ret|].
  replace (S (length r) * n) with (n + length r * n) by lia.
  apply tracks_bind; [apply Hf | intros _; exact IH].
Qed.

(** A computation of the drivers that only adds records is a part of the
    crawl. *)
Lemma tracks_lift {A} (m : M A) : steps records_grow m -> tracks 0 (lift m).
Proof.
  intros Hm s. rewrite lift_run. destruct (Hm (world s)) as [[added Hus] _].
  unfold crawl_step. cbn [snd cron_job_runs next_run_id job_log vars world].
  rewrite Hus, length_app.
  repeat split; lia.
Qed.

Lemma tracks_count_sitemap : tracks 1 UsCaselawTracked.count_sitemap.
Proof. intros s. unfold crawl_step. simpl. repeat split; lia. Qed.

Lemma UsCaselaw_scrape_case_records_grow (env : Env) (u : string) :
  steps records_grow (UsCaselaw.scrape_case env u).
Proof.
  unfold UsCaselaw.scrape_case.
  apply (steps_try_catch _ records_grow_trans);
    [|intros e; apply (steps_ret _ records_grow_refl)].
  apply (steps_bind _ records_grow_trans);
    [apply (steps_fetchWithRetry _ records_grow_refl)|].
  intros [r|a b c]; [|apply (steps_ret _ records_grow_refl)].
  destruct (ok r); [|apply (steps_ret _ records_grow_refl)].
  apply (steps_bind _ records_grow_trans); [apply (steps_json _ records_grow_refl)|].
  intros d. apply (steps_ret _ records_grow_refl).
Qed.

Lemma UsCaselaw_check_url_records_grow (env : Env) (u : string) :
  steps records_grow (UsCaselaw.check_url env u).
Proof.
  unfold UsCaselaw.check_url, UsCaselaw.checkIfUrlProcessed, select_processed,
    console_log.
  apply (steps_bind _ records_grow_trans).
  - apply (steps_bind _ records_grow_trans);
      [apply (steps_select _ records_grow_refl)|].
    intros q. destruct (error_of q) as [e|];
      [|apply (steps_ret _ records_grow_refl)].
    destruct (negb (Js.code_is e "PGRST116"));
      [|apply (steps_ret _ records_grow_refl)].
    apply (steps_bind _ records_grow_trans);
      [apply (steps_emit _ records_grow_refl)|].
    intros _. apply (steps_ret _ records_grow_refl).
  - intros isProcessed. apply (steps_ret _ records_grow_refl).
Qed.

(** A call of the US writer that returns has added one record. *)
Lemma UsCaselaw_insertCaseLaw_ret_rows
      (env : Env) (caseData : ScrapeObj) (sourceUrl : string) (w : World) (i : nat) :
  fst (UsCaselaw.insertCaseLaw env caseData sourceUrl w) = Ret i ->
  caselaw_us (db (snd (UsCaselaw.insertCaseLaw env caseData sourceUrl w)))
  = caselaw_us (db w) ++ [case_row i caseData "US"].
Proof.
  rewrite UsCaselaw_insertCaseLaw_run, UsCaselaw_insertCaseLaw_try_run.
  destruct (fault env (now w)) as [e0|]; [discriminate|].
  cbv zeta.
  destruct (fault env (S (now w))) as [e1|]; [discriminate|].
  intros Hret. simpl in Hret. inversion Hret; subst i.
  cbn [snd db]. rewrite (proj2 (after_upsert_rows _ _ _)). reflexivity.
Qed.

(** Storing one result counts a case only when a record was added. *)
Lemma tracks_store_result (env : Env) (result : ScrapeObj) :
  tracks 0 (UsCaselawTracked.store_result env result).
Proof.
  unfold UsCaselawTracked.store_result.
  destruct (status_is_error result).
  { apply tracks_lift. apply (steps_emit _ records_grow_refl). }
  intros s. unfold try_catchT. unfold bindT at 1. rewrite lift_run.
  set (caseData := mkScrape (court_name result) (case_name result) (case_no result)
                            (date result) (case_text result) (citation result)
                            None None None).
  pose proof (UsCaselaw_insertCaseLaw_records_grow
                env caseData (show (url result)) (world s)) as [[added Hgrow] _].
  pose proof (UsCaselaw_insertCaseLaw_ret_rows
                env caseData (show (url result)) (world s)) as Hret.
  destruct (UsCaselaw.insertCaseLaw env caseData (show (url result)) (world s))
    as [[i|e] w1]; cbn [fst snd] in *.
  - specialize (Hret i eq_refl).
    unfold crawl_step. simpl. rewrite Hret, length_app. simpl.
    repeat split; lia.
  - unfold crawl_step. simpl. rewrite Hgrow, length_app.
    repeat split; lia.
Qed.

Lemma tracks_process_cloudFlareBatch (env : Env) (cloudFlareBatch : list string) :
  tracks 0 (UsCaselawTracked.process_cloudFlareBatch env cloudFlareBatch).
Proof.
  unfold UsCaselawTracked.process_cloudFlareBatch.
  apply (tracks_bind 0 0).
  { apply tracks_lift. apply (steps_mapM _ records_grow_refl records_grow_trans).
    intros u. apply UsCaselaw_scrape_case_records_grow. }
  intros results. apply (tracks_bind 0 0).
  - eapply tracks_weaken; [|apply (tracks_forT_ 0)]; [lia|].
    intros result. apply tracks_store_result.
  - intros _. apply tracks_lift. apply (steps_emit _ records_grow_refl).
Qed.

Lemma tracks_process_filterBatch
      (env : Env) (cfg : UsCaselaw.Config) (filterBatch : list string) :
  tracks 0 (UsCaselawTracked.process_filterBatch env cfg filterBatch).
Proof.
  unfold UsCaselawTracked.process_filterBatch.
  apply (tracks_bind 0 0).
  { apply tracks_lift. apply (steps_mapM _ records_grow_refl records_grow_trans).
    intros u. apply UsCaselaw_check_url_records_grow. }
  intros checkedUrls. cbv zeta. apply (tracks_bind 0 0).
  - apply tracks_lift. apply (steps_emit _ records_grow_refl).
  - intros _. eapply tracks_weaken; [|apply (tracks_forT_ 0)]; [lia|].
    intros batch. apply tracks_process_cloudFlareBatch.
Qed.

(** One sitemap is counted once. *)
Lemma tracks_process_sitemap
      (env : Env) (cfg : UsCaselaw.Config) (siteMapUrl : string) :
  tracks 1 (UsCaselawTracked.process_sitemap env cfg siteMapUrl).
Proof.
  unfold UsCaselawTracked.process_sitemap.
  apply (tracks_bind 0 1);
    [apply tracks_lift; apply (steps_fetch _ records_grow_refl)|].
  intros pageUrlRes. apply (tracks_bind 0 1);
    [apply tracks_lift; apply (steps_json _ records_grow_refl)|].
  intros pageUrls. apply (tracks_bind 0 1);
    [apply tracks_lift; apply (steps_emit _ records_grow_refl)|].
  intros _. apply (tracks_bind 1 0); [apply tracks_count_sitemap|].
  intros _. apply (tracks_bind 0 0).
  - eapply tracks_weaken; [|apply (tracks_forT_ 0)]; [lia|].
    intros batch. apply tracks_process_filterBatch.
  - intros _. apply tracks_lift. apply (steps_emit _ records_grow_refl).
Qed.

Lemma length_slice_le {A} (xs : list A) (i n : nat) : length (slice xs i n) <= n.
Proof. unfold slice. rewrite length_firstn. lia. Qed.

(** The crawl counts at most [maxSitemaps] sitemaps. *)
Lemma tracks_crawl (env : Env) (cfg : UsCaselaw.Config) :
  tracks (UsCaselaw.maxSitemaps cfg) (UsCaselawTracked.crawl env cfg).
Proof.
  unfold UsCaselawTracked.crawl.
  apply (tracks_bind 0 (UsCaselaw.maxSitemaps cfg));
    [apply tracks_lift; apply (steps_fetch _ records_grow_refl)|].
  intros siteMapResponse. apply (tracks_bind 0 (UsCaselaw.maxSitemaps cfg));
    [apply tracks_lift; apply (steps_json _ records_grow_refl)|].
  intros siteMapUrls s. unfold bindT at 1.
  assert (Hloop : forall l : list string,
             crawl_step (UsCaselaw.maxSitemaps cfg) s
               (snd (forT_ (UsCaselawTracked.process_sitemap env cfg)
                           (slice l 0 (UsCaselaw.maxSitemaps cfg)) s))).
  { intros l. eapply crawl_step_weaken;
      [|apply (tracks_forT_ 1 (UsCaselawTracked.process_sitemap env cfg) _
                            (tracks_process_sitemap env cfg))].
    rewrite Nat.mul_1_r. apply length_slice_le. }
  unfold UsCaselawTracked.sitemaps_to_process.
  destruct siteMapUrls as [l|o|]; cbn [retT throwT locators_of].
  - apply Hloop.
  - cbn [snd]. eapply crawl_step_weaken; [|apply crawl_step_refl]. lia.
  - apply Hloop.
Qed.

(** What follows the crawl when it returns: the job is completed under
    the run id of the variables. *)
Lemma tracked_completion_run (env : Env) (s : Tracked) :
  exists w',
    (bindT get_vars
       (fun v =>
          bindT (lift (console_log
                         ("US case law scraping completed. Found "
                            +++ show_nat (newCasesFound v)
                            +++ " new cases. Processed "
                            +++ show_nat (sitemapsProcessed v) +++ " sitemaps.")))
                (fun _ =>
                   bindT (CronTracker.completeJob
                            env (runId v) (UsCaselawTracked.metrics_of v))
                         (fun _ => retT tt)))) s
    = (Ret tt,
       mkTracked w'
                 (match runId (vars s) with
                  | Some (S n) =>
                      match fault env (now (world s)) with
                      | Some _ => cron_job_runs s
                      | None =>
                          CronTracker.update_rows
                            (S n)
                            (CronTracker.completed
                               (now (world s))
                               (UsCaselawTracked.metrics_of (vars s)))
                            (cron_job_runs s)
                      end
                  | _ => cron_job_runs s
                  end)
                 (next_run_id s)
                 (match runId (vars s) with
                  | Some (S n) => job_log s ++ [JobUpdate (S n)]
                  | _ => job_log s
                  end)
                 (vars s))
    /\ db w' = db (world s)
    /\ now w' = match runId (vars s) with
                | Some (S n) => S (now (world s))
                | _ => now (world s)
                end.
Proof.
  unfold bindT at 1. unfold get_vars.
  unfold bindT at 1. rewrite lift_console_log_run.
  unfold bindT at 1. rewrite completeJob_run.
  cbn [world now db trace cron_job_runs next_run_id job_log vars].
  destruct (runId (vars s)) as [[|n]|].
  - eexists. split; [reflexivity|]. split; reflexivity.
  - destruct (fault env (now (world s))); eexists;
      (split; [reflexivity|]; split; reflexivity).
  - eexists. split; [reflexivity|]. split; reflexivity.
Qed.

(** The [catch] block: the job is failed under the run id of the
    variables, and the error goes on. *)
Lemma tracked_catch_run (env : Env) (cfg : UsCaselaw.Config) (e : Js.Error)
      (s : Tracked) :
  exists w',
    UsCaselawTracked.scrapFindLaws_catch env e s
    = (Throw e,
       mkTracked w'
                 (match runId (vars s) with
                  | Some (S n) =>
                      match fault env (now (world s)) with
                      | Some _ => cron_job_runs s
                      | None =>
                          CronTracker.update_rows
                            (S n)
                            (CronTracker.failed
                               (now (world s))
                               (UsCaselawTracked.metrics_of (vars s))
                               (Js.message e))
                            (cron_job_runs s)
                      end
                  | _ => cron_job_runs s
                  end)
                 (next_run_id s)
                 (match runId (vars s) with
                  | Some (S n) => job_log s ++ [JobUpdate (S n)]
                  | _ => job_log s
                  end)
                 (vars s))
    /\ db w' = db (world s)
    /\ now w' = match runId (vars s) with
                | Some (S n) => S (now (world s))
                | _ => now (world s)
                end.
Proof.
  unfold UsCaselawTracked.scrapFindLaws_catch.
  unfold bindT at 1. rewrite lift_console_log_run.
  unfold bindT at 1. unfold get_vars.
  unfold bindT at 1. rewrite failJob_run.
  cbn [world now db trace cron_job_runs next_run_id job_log vars].
  destruct (runId (vars s)) as [[|n]|].
  - eexists. split; [reflexivity|]. split; reflexivity.
  - destruct (fault env (now (world s))); eexists;
      (split; [reflexivity|]; split; reflexivity).
  - eexists. split; [reflexivity|]. split; reflexivity.
Qed.

Lemma set_runId_run (id : option nat) (s : Tracked) :
  UsCaselawTracked.set_runId id s
  = (Ret tt,
     mkTracked (world s) (cron_job_runs s) (next_run_id s) (job_log s)
               (mkVars id (newCasesFound (vars s)) (sitemapsProcessed (vars s)))).
Proof. reflexivity. Qed.

(** The update under the id of the run that was started last changes the
    row of that run only. *)
Lemma started_row_updated (s : Tracked) (n : nat) :
  next_run_id s = S n ->
  fresh_ids s ->
  forall (f : JobRun -> JobRun) (jobName : string) (t : nat),
    CronTracker.update_rows
      (S n) f
      (cron_job_runs s ++ [mkJobRun (S n) jobName t None "started" 0 0 None])
    = cron_job_runs s ++ [f (mkJobRun (S n) jobName t None "started" 0 0 None)].
Proof.
  intros Hn Hfresh f jobName t.
  apply (update_rows_last f (cron_job_runs s)
                          (mkJobRun (S n) jobName t None "started" 0 0 None)).
  unfold fresh_ids in Hfresh. rewrite Hn in Hfresh. exact Hfresh.
Qed.

(** X14: the tracked driver tells in the job table how its run ended.
    From a job table whose rows carry ids below the next one, and with
    batch sizes above zero, a run of [scrapFindLaws] leaves the table as it
    was when the store refuses to start the job, and when the store takes
    the start it adds one row, under the next id and the name of the job.
    That row is still as [startJob] wrote it only when its id is [0] or the
    store refused the update that ends it; otherwise it is ended: as
    completed only if the run returned, as failed only if the run raised,
    and then with the message of the error raised; an ended row counts no
    more sitemaps than [maxSitemaps] and no more new cases than records
    were added to [caselaw_us]. *)
Theorem tracked_run_is_reported
        (env : Env) (cfg : UsCaselaw.Config) (s : Tracked) :
  fresh_ids s ->
  0 < UsCaselaw.filterBatchSize cfg ->
  0 < UsCaselaw.cloudFlareBatchSize cfg ->
  (fault env (now (world s)) <> None ->
   cron_job_runs (snd (UsCaselawTracked.scrapFindLaws env cfg s)) = cron_job_runs s)
  /\ (fault env (now (world s)) = None ->
      exists row,
        cron_job_runs (snd (UsCaselawTracked.scrapFindLaws env cfg s))
        = cron_job_runs s ++ [row]
        /\ run_id row = next_run_id s
        /\ job_name row = UsCaselawTracked.JOB_NAME
        /\ run_reported env cfg s (snd (UsCaselawTracked.scrapFindLaws env cfg s))
                        (fst (UsCaselawTracked.scrapFindLaws env cfg s)) row).
Proof.
  intros Hfresh _ _.
  remember (UsCaselawTracked.scrapFindLaws env cfg s) as run eqn:HR.
  unfold UsCaselawTracked.scrapFindLaws in HR.
  unfold bindT at 1 in HR. unfold put_vars at 1 in HR.
  unfold try_catchT, UsCaselawTracked.scrapFindLaws_try in HR.
  unfold bindT at 1 in HR. rewrite startJob_run in HR.
  cbn [world now db trace cron_job_runs next_run_id job_log vars] in HR.
  destruct (fault env (now (world s))) as [e0|] eqn:Hstart.
  - (* the job could not be started *)
    split; [intros _ | intros Hnone; discriminate].
    unfold bindT at 1 in HR. rewrite set_runId_run in HR.
    cbn [fst snd negb whenT world now db trace cron_job_runs next_run_id job_log vars
         runId newCasesFound sitemapsProcessed] in HR.
    unfold bindT at 1 in HR. rewrite lift_console_log_run in HR.
    cbn [world now db trace cron_job_runs next_run_id job_log vars] in HR.
    unfold bindT at 1 in HR.
    match type of HR with
    | context [UsCaselawTracked.crawl env cfg ?s2] =>
        pose proof (tracks_crawl env cfg s2) as Hcrawl;
        destruct (UsCaselawTracked.crawl env cfg s2) as [[[]|e] s3]
    end; cbn [snd] in Hcrawl;
      destruct Hcrawl as (Hrows & Hnext & Hlog & Hid & _);
      cbn [cron_job_runs vars runId] in Hrows, Hid; cbv beta iota in HR.
    + destruct (tracked_completion_run env s3) as [w' (Hfin & _ & _)].
      rewrite Hfin in HR. rewrite Hid in HR. subst run. cbn [snd cron_job_runs].
      exact Hrows.
    + destruct (tracked_catch_run env cfg e s3) as [w' (Hfin & _ & _)].
      rewrite Hfin in HR. rewrite Hid in HR. subst run. cbn [snd cron_job_runs].
      exact Hrows.
  - (* the job is started *)
    split; [intros Hsome; contradiction|]. intros _.
    unfold bindT at 1 in HR. rewrite set_runId_run in HR.
    cbn [fst snd negb whenT world now db trace cron_job_runs next_run_id job_log vars
         runId newCasesFound sitemapsProcessed] in HR.
    unfold bindT at 1 in HR. unfold retT at 1 in HR.
    unfold bindT at 1 in HR.
    match type of HR with
    | context [UsCaselawTracked.crawl env cfg ?s2] =>
        pose proof (tracks_crawl env cfg s2) as Hcrawl;
        destruct (UsCaselawTracked.crawl env cfg s2) as [[[]|e] s3]
    end; cbn [snd] in Hcrawl;
      destruct Hcrawl as (Hrows & Hnext & Hlog & Hid & Hsitemaps & Hlen & Hcount);
      cbn [world db cron_job_runs vars runId newCasesFound sitemapsProcessed]
        in Hrows, Hid, Hsitemaps, Hlen, Hcount;
      cbv beta iota in HR.
    + destruct (tracked_completion_run env s3) as [w' (Hfin & Hdb & Hnow)].
      rewrite Hfin in HR. rewrite Hid in HR, Hnow. rewrite Hrows in HR. clear Hfin.
      destruct (next_run_id s) as [|n] eqn:Hn.
      * eexists. subst run. cbn [fst snd cron_job_runs].
        split; [reflexivity|]. split; [reflexivity|]. split; [reflexivity|].
        left. split; [reflexivity|]. split; [reflexivity|]. left. exact Hn.
      * destruct (fault env (now (world s3))) as [e1|] eqn:Hend.
        -- eexists. subst run. cbn [fst snd cron_job_runs].
           split; [reflexivity|]. split; [reflexivity|]. split; [reflexivity|].
           left. split; [reflexivity|]. split; [reflexivity|]. right.
           cbn [world]. rewrite Hnow. cbn [pred]. rewrite Hend. discriminate.
        -- rewrite (started_row_updated s n Hn Hfresh) in HR.
           eexists. subst run. cbn [fst snd cron_job_runs].
           split; [reflexivity|]. split; [reflexivity|]. split; [reflexivity|].
           right. split; [left; split; reflexivity|].
           split; [discriminate|].
           unfold records_added.
           cbn [CronTracker.completed pages_processed new_cases_found
                UsCaselawTracked.metrics_of m_pages_processed m_new_cases_found
                world].
           rewrite Hdb. split; lia.
    + destruct (tracked_catch_run env cfg e s3) as [w' (Hfin & Hdb & Hnow)].
      rewrite Hfin in HR. rewrite Hid in HR, Hnow. rewrite Hrows in HR. clear Hfin.
      destruct (next_run_id s) as [|n] eqn:Hn.
      * eexists. subst run. cbn [fst snd cron_job_runs].
        split; [reflexivity|]. split; [reflexivity|]. split; [reflexivity|].
        left. split; [reflexivity|]. split; [reflexivity|]. left. exact Hn.
      * destruct (fault env (now (world s3))) as [e1|] eqn:Hend.
        -- eexists. subst run. cbn [fst snd cron_job_runs].
           split; [reflexivity|]. split; [reflexivity|]. split; [reflexivity|].
           left. split; [reflexivity|]. split; [reflexivity|]. right.
           cbn [world]. rewrite Hnow. cbn [pred]. rewrite Hend. discriminate.
        -- rewrite (started_row_updated s n Hn Hfresh) in HR.
           eexists. subst run. cbn [fst snd cron_job_runs].
           split; [reflexivity|]. split; [reflexivity|]. split; [reflexivity|].
           right. split; [right; exists e; split; [reflexivity|]; split; reflexivity|].
           split; [discriminate|].
           unfold records_added.
           cbn [CronTracker.failed pages_processed new_cases_found
                UsCaselawTracked.metrics_of m_pages_processed m_new_cases_found
                world].
           rewrite Hdb. split; lia.
Qed.

Lemma tracked_run_is_reported_witness :
  fresh_ids (untracked Scenario.w0)
  /\ exists row,
      cron_job_runs (snd (UsCaselawTracked.scrapFindLaws
                            Scenario.a_b_c UsCaselaw.CONFIG
                            (untracked Scenario.w0)))
      = cron_job_runs (untracked Scenario.w0) ++ [row]
      /\ run_id row = next_run_id (untracked Scenario.w0)
      /\ job_name row = UsCaselawTracked.JOB_NAME
      /\ run_reported Scenario.a_b_c UsCaselaw.CONFIG (untracked Scenario.w0)
                      (snd (UsCaselawTracked.scrapFindLaws
                              Scenario.a_b_c UsCaselaw.CONFIG
                              (untracked Scenario.w0)))
                      (fst (UsCaselawTracked.scrapFindLaws
                              Scenario.a_b_c UsCaselaw.CONFIG
                              (untracked Scenario.w0)))
                      row.
Proof.
  assert (Hfresh : fresh_ids (untracked Scenario.w0)) by constructor.
  assert (Hfilter : 0 < UsCaselaw.filterBatchSize UsCaselaw.CONFIG)
    by (apply Nat.ltb_lt; vm_compute; reflexivity).
  assert (Hbatch : 0 < UsCaselaw.cloudFlareBatchSize UsCaselaw.CONFIG)
    by (apply Nat.ltb_lt; vm_compute; reflexivity).
  split; [exact Hfresh|].
  exact (proj2 (tracked_run_is_reported Scenario.a_b_c UsCaselaw.CONFIG
                                        (untracked Scenario.w0)
                                        Hfresh Hfilter Hbatch)
               eq_refl).
Defined.

(* ================================================================= *)
(** ** The section writer of the acts driver *)

Lemma insertSection_eq
      (env : Env) (actId : nat) (sectionData : SectionData) (w : World) :
  exists w0,
    db w0 = db w /\ now w0 = now w
    /\ UsActsWriter.insertSection env actId sectionData w
       = match fault env (now w) with
         | None =>
             (Ret tt,
              mkWorld (add_section_row
                         (section_row (next_id (db w)) actId sectionData) (db w))
                      (S (now w)) (trace w0 ++ [EvInsert "sections"]))
         | Some e =>
             (Throw e,
              mkWorld (db w) (S (now w))
                      ((trace w0 ++ [EvInsert "sections"])
                         ++ [EvLog ("Error inserting section: " +++ Js.message e)]))
         end.
Proof.
  unfold UsActsWriter.insertSection, try_catch.
  unfold bind at 1.
  assert (Hlog : exists w0,
             when (negb (Js.truthy (sd_original sectionData))
                   || negb (Js.truthy (sd_act_id sectionData)))
                  (console_log "Missing required fields in section data") w
             = (Ret tt, w0) /\ db w0 = db w /\ now w0 = now w).
  { destruct (negb (Js.truthy (sd_original sectionData))
              || negb (Js.truthy (sd_act_id sectionData)));
      eexists; split; try reflexivity; split; reflexivity. }
  destruct Hlog as [w0 (Hlog & Hdb & Hnow)]. rewrite Hlog.
  exists w0. split; [exact Hdb|]. split; [exact Hnow|].
  unfold bind at 1. unfold UsActsWriter.insert_section.
  rewrite store_request_run. rewrite Hnow, Hdb.
  destruct (fault env (now w)) as [e|]; cbn [fst snd error_of db now].
  - unfold throw. unfold bind at 1. rewrite console_log_run. reflexivity.
  - reflexivity.
Qed.

Lemma insertSection_run
      (env : Env) (actId : nat) (sectionData : SectionData) (w : World) :
  fault env (now w) = None ->
  fst (UsActsWriter.insertSection env actId sectionData w) = Ret tt
  /\ db (snd (UsActsWriter.insertSection env actId sectionData w))
     = add_section_row (section_row (next_id (db w)) actId sectionData) (db w)
  /\ now (snd (UsActsWriter.insertSection env actId sectionData w)) = S (now w).
Proof.
  intros Hfault.
  destruct (insertSection_eq env actId sectionData w) as [w0 (_ & _ & Hrun)].
  rewrite Hrun, Hfault. split; [reflexivity|]. split; reflexivity.
Qed.

Lemma sections_of_url_added (u : string) (k : string) (r : SectionRow) (d : DB) :
  UsActs.extractActIdentifierFromUrl u = Some k ->
  act_identifier r = Some k ->
  sections_of_url u (add_section_row r d) = sections_of_url u d ++ [r].
Proof.
  intros Hu Hr. unfold sections_of_url, add_section_row. cbn [sections].
  rewrite filter_app. cbn [filter]. rewrite Hu. cbn [contains_act_identifier].
  rewrite Hr. cbn [opt_string_eqb]. rewrite String.eqb_refl. reflexivity.
Qed.

(** X15: a section there and back, and where that ends.  With a store
    that answers and no section yet under the act identifier [k] of the
    URL, [checkSectionExistsByUrl] answers [false]; after [insertSection]
    of a document carrying [k], it answers [true]; after a second
    [insertSection] of a document carrying [k], it answers [false] again:
    two sections under one identifier are taken for none. *)
Theorem insertSection_then_check
        (env : Env) (u k : string) (actId actId' : nat)
        (sectionData sectionData' : SectionData) (w : World) :
  healthy_store env ->
  UsActs.extractActIdentifierFromUrl u = Some k ->
  sd_act_id sectionData = Some k ->
  sd_act_id sectionData' = Some k ->
  sections_of_url u (db w) = [] ->
  fst (UsActs.checkSectionExistsByUrl env u w) = Ret false
  /\ fst (UsActsWriter.insertSection env actId sectionData w) = Ret tt
  /\ fst (UsActs.checkSectionExistsByUrl
            env u (snd (UsActsWriter.insertSection env actId sectionData w)))
     = Ret true
  /\ fst (UsActs.checkSectionExistsByUrl
            env u
            (snd (UsActsWriter.insertSection
                    env actId' sectionData'
                    (snd (UsActsWriter.insertSection env actId sectionData w)))))
     = Ret false.
Proof.
  intros Hh Hu Hk Hk' Hnone.
  destruct (insertSection_run env actId sectionData w (Hh _)) as (Hret & Hdb & _).
  destruct (insertSection_run
              env actId' sectionData'
              (snd (UsActsWriter.insertSection env actId sectionData w)) (Hh _))
    as (_ & Hdb' & _).
  split; [|split; [exact Hret|split]].
  - destruct (checkSectionExistsByUrl_run env u w) as [w' [Hrun _]].
    rewrite Hrun, Hh, Hnone. reflexivity.
  - destruct (checkSectionExistsByUrl_run
                env u (snd (UsActsWriter.insertSection env actId sectionData w)))
      as [w' [Hrun _]].
    rewrite Hrun, Hh, Hdb.
    rewrite (sections_of_url_added u k (section_row _ actId sectionData) _ Hu Hk), Hnone.
    reflexivity.
  - destruct (checkSectionExistsByUrl_run
                env u
                (snd (UsActsWriter.insertSection
                        env actId' sectionData'
                        (snd (UsActsWriter.insertSection env actId sectionData w)))))
      as [w' [Hrun _]].
    rewrite Hrun, Hh, Hdb', Hdb.
    rewrite (sections_of_url_added u k (section_row _ actId' sectionData') _ Hu Hk').
    rewrite (sections_of_url_added u k (section_row _ actId sectionData) _ Hu Hk), Hnone.
    reflexivity.
Qed.

Lemma insertSection_then_check_witness :
  fst (UsActs.checkSectionExistsByUrl
         Scenario.a_b_c "https://codes.findlaw.com/al/title-1/al-code-sect-1-1-1/"
         (snd (UsActsWriter.insertSection
                 Scenario.a_b_c 1
                 (mkSectionData (Some "Code of Alabama") (Some "al-code-sect-1-1-1")
                                (Some "Definitions") (Some "In this Code ...")
                                (Some "Code of Alabama Title 1 Sec. 1-1-1"))
                 Scenario.w0)))
  = Ret true.
Proof.
  apply (insertSection_then_check
           Scenario.a_b_c "https://codes.findlaw.com/al/title-1/al-code-sect-1-1-1/"
           "al-code-sect-1-1-1" 1 1
           (mkSectionData (Some "Code of Alabama") (Some "al-code-sect-1-1-1")
                          (Some "Definitions") (Some "In this Code ...")
                          (Some "Code of Alabama Title 1 Sec. 1-1-1"))
           (mkSectionData (Some "Code of Alabama") (Some "al-code-sect-1-1-1")
                          (Some "Definitions") (Some "In this Code ...")
                          (Some "Code of Alabama Title 1 Sec. 1-1-1"))
           Scenario.w0).
  - intros t. reflexivity.
  - reflexivity.
  - reflexivity.
  - reflexivity.
  - reflexivity.
Defined.

(* ================================================================= *)
(** ** The acts and the sitemaps of the acts driver *)

Lemma liftA_console_log_run (msg : string) (s : ActsWorld) :
  liftA (console_log msg) s
  = (Ret tt,
     mkActsWorld (mkWorld (db (base s)) (now (base s))
                          (trace (base s) ++ [EvLog msg]))
                 (acts s) (next_act_id s) (acts_sections_scraping_sitemap s)).
Proof. reflexivity. Qed.

Lemma getExistingActId_run (env : Env) (actName : option string) (s : ActsWorld) :
  UsActsTables.getExistingActId env actName s
  = match fault env (now (base s)) with
    | Some e =>
        if Js.code_is e "PGRST116"
        then
          (Ret None,
           mkActsWorld (mkWorld (db (base s)) (S (now (base s)))
                                (trace (base s) ++ [EvSelect "acts" (show actName)]))
                       (acts s) (next_act_id s) (acts_sections_scraping_sitemap s))
        else
          (Throw e,
           mkActsWorld (mkWorld (db (base s)) (S (now (base s)))
                                ((trace (base s) ++ [EvSelect "acts" (show actName)])
                                   ++ [EvLog ("Error checking existing act: "
                                                +++ Js.message e)]))
                       (acts s) (next_act_id s) (acts_sections_scraping_sitemap s))
    | None =>
        (Ret (match acts_named (show actName) s with
              | [r] => Some (act_id r)
              | _ => None
              end),
         mkActsWorld (mkWorld (db (base s)) (S (now (base s)))
                              (trace (base s) ++ [EvSelect "acts" (show actName)]))
                     (acts s) (next_act_id s) (acts_sections_scraping_sitemap s))
    end.
Proof.
  unfold UsActsTables.getExistingActId, try_catchA, bindA,
    UsActsTables.select_act, UsActsTables.acts_request, acts_named.
  destruct (fault env (now (base s))) as [e|].
  - cbn [error_of]. destruct (Js.code_is e "PGRST116"); reflexivity.
  - cbn [fst snd].
    destruct (filter (fun r => opt_string_eqb (act_name r) (show actName)) (acts s))
      as [|r [|r' l]]; reflexivity.
Qed.

(** The act is there: [insertAct] hands its id back and inserts nothing. *)
Lemma insertAct_found (env : Env) (actName : option string) (s : ActsWorld)
      (r : ActRow) :
  fault env (now (base s)) = None ->
  acts_named (show actName) s = [r] ->
  0 < act_id r ->
  fst (UsActsTables.insertAct env actName s) = Ret (act_id r)
  /\ acts (snd (UsActsTables.insertAct env actName s)) = acts s
  /\ next_act_id (snd (UsActsTables.insertAct env actName s)) = next_act_id s
  /\ now (base (snd (UsActsTables.insertAct env actName s))) = S (now (base s)).
Proof.
  intros Hfault Hnamed Hpos.
  remember (UsActsTables.insertAct env actName s) as run eqn:HR.
  unfold UsActsTables.insertAct, try_catchA in HR. unfold bindA at 1 in HR.
  rewrite getExistingActId_run, Hfault, Hnamed in HR.
  cbn [truthy_act_id] in HR.
  destruct (act_id r) as [|i]; [lia|].
  cbn [Nat.eqb negb] in HR. cbv iota in HR. unfold retA in HR.
  subst run. cbn [fst snd acts next_act_id base now].
  split; [reflexivity|]. split; [reflexivity|]. split; reflexivity.
Qed.

(** The act is not there, or is there more than once: [insertAct] adds a
    row and hands back its id. *)
Lemma insertAct_created (env : Env) (actName : option string) (s : ActsWorld) :
  fault env (now (base s)) = None ->
  fault env (S (now (base s))) = None ->
  length (acts_named (show actName) s) <> 1 ->
  fst (UsActsTables.insertAct env actName s) = Ret (next_act_id s)
  /\ acts (snd (UsActsTables.insertAct env actName s))
     = acts s ++ [mkActRow (next_act_id s) actName "US"]
  /\ next_act_id (snd (UsActsTables.insertAct env actName s)) = S (next_act_id s)
  /\ now (base (snd (UsActsTables.insertAct env actName s))) = S (S (now (base s))).
Proof.
  intros Hlookup Hinsert Hnamed.
  remember (UsActsTables.insertAct env actName s) as run eqn:HR.
  unfold UsActsTables.insertAct, try_catchA in HR. unfold bindA at 1 in HR.
  rewrite getExistingActId_run, Hlookup in HR.
  assert (Hnone : match acts_named (show actName) s with
                  | [r] => Some (act_id r)
                  | _ => None
                  end = None).
  { destruct (acts_named (show actName) s) as [|r [|r' l]];
      [reflexivity | simpl in Hnamed; lia | reflexivity]. }
  rewrite Hnone in HR. cbn [truthy_act_id] in HR. cbv iota in HR.
  unfold bindA at 1 in HR.
  unfold UsActsTables.insert_act, UsActsTables.acts_request in HR.
  cbn [base now] in HR. rewrite Hinsert in HR.
  cbn [fst snd error_of data_of act_id acts next_act_id base now] in HR.
  unfold retA in HR.
  subst run. cbn [fst snd acts next_act_id base now].
  split; [reflexivity|]. split; [reflexivity|]. split; reflexivity.
Qed.

(** Under distinct values of [f], a value is carried by one row at most. *)
Lemma NoDup_map_one_match {A} (f : A -> option string) (c : string) (l : list A) :
  NoDup (map f l) ->
  length (filter (fun r => opt_string_eqb (f r) c) l) <= 1.
Proof.
  induction l as [|r l IH]; intros Hnd; simpl; [lia|].
  inversion Hnd as [|? ? Hnotin Hnd']; subst.
  destruct (opt_string_eqb (f r) c) eqn:Hm; [|apply IH; exact Hnd'].
  apply opt_string_eqb_eq in Hm.
  assert (Hnone : filter (fun r => opt_string_eqb (f r) c) l = []).
  { destruct (filter (fun r => opt_string_eqb (f r) c) l) as [|r' l'] eqn:Hf;
      [reflexivity|].
    exfalso. apply Hnotin.
    assert (Hin : In r' (filter (fun r => opt_string_eqb (f r) c) l))
      by (rewrite Hf; left; reflexivity).
    apply filter_In in Hin. destruct Hin as [Hin Hm'].
    apply opt_string_eqb_eq in Hm'. rewrite Hm, <- Hm'. apply in_map. exact Hin. }
  rewrite Hnone. simpl. lia.
Qed.

(** X16: [insertAct] gets or creates.  With a store that answers, acts of
    pairwise distinct names and ids as the store gives them, [insertAct]
    of a name returns the id of the one act of that name, which it has
    inserted at the end of the table if there was none; a second call
    returns the same id and inserts nothing; the names stay distinct. *)
Theorem insertAct_gets_or_creates
        (env : Env) (actName : string) (s : ActsWorld) :
  healthy_store env ->
  act_names_distinct s ->
  act_ids_given s ->
  0 < next_act_id s ->
  exists i,
    fst (UsActsTables.insertAct env (Some actName) s) = Ret i
    /\ (exists r,
           acts_named actName (snd (UsActsTables.insertAct env (Some actName) s)) = [r]
           /\ act_id r = i)
    /\ (acts (snd (UsActsTables.insertAct env (Some actName) s)) = acts s
        \/ (acts_named actName s = []
            /\ acts (snd (UsActsTables.insertAct env (Some actName) s))
               = acts s ++ [mkActRow i (Some actName) "US"]))
    /\ act_names_distinct (snd (UsActsTables.insertAct env (Some actName) s))
    /\ fst (UsActsTables.insertAct
              env (Some actName)
              (snd (UsActsTables.insertAct env (Some actName) s))) = Ret i
    /\ acts (snd (UsActsTables.insertAct
                    env (Some actName)
                    (snd (UsActsTables.insertAct env (Some actName) s))))
       = acts (snd (UsActsTables.insertAct env (Some actName) s)).
Proof.
  intros Hh Hdistinct Hids Hnext.
  pose proof (NoDup_map_one_match act_name actName (acts s) Hdistinct) as Hone.
  fold (acts_named actName s) in Hone.
  destruct (acts_named actName s) as [|r [|r' l]] eqn:Hnamed;
    [| | simpl in Hone; lia].
  - (* no act of that name: it is created *)
    destruct (insertAct_created env (Some actName) s (Hh _) (Hh _))
      as (Hret & Hacts & Hnext' & _).
    { cbn [show]. rewrite Hnamed. simpl. lia. }
    assert (Hnamed' : acts_named actName
                        (snd (UsActsTables.insertAct env (Some actName) s))
                      = [mkActRow (next_act_id s) (Some actName) "US"]).
    { unfold acts_named in *. rewrite Hacts, filter_app, Hnamed.
      cbn [filter act_name opt_string_eqb app]. rewrite String.eqb_refl.
      reflexivity. }
    destruct (insertAct_found
                env (Some actName)
                (snd (UsActsTables.insertAct env (Some actName) s))
                (mkActRow (next_act_id s) (Some actName) "US")
                (Hh _) Hnamed' Hnext)
      as (Hret2 & Hacts2 & _).
    exists (next_act_id s).
    split; [exact Hret|]. split; [eexists; split; [exact Hnamed' | reflexivity]|].
    split; [right; split; [reflexivity | exact Hacts]|].
    split; [|split; [exact Hret2 | exact Hacts2]].
    unfold act_names_distinct. rewrite Hacts, map_app. cbn [map act_name].
    apply NoDup_app; [exact Hdistinct | repeat constructor; simpl; tauto |].
    intros x Hx [Hx' | []]. subst x.
    apply in_map_iff in Hx. destruct Hx as [r0 [Hr0 Hin]].
    assert (Hm : In r0 (acts_named actName s)).
    { unfold acts_named. apply filter_In. split; [exact Hin|].
      apply opt_string_eqb_eq. exact Hr0. }
    rewrite Hnamed in Hm. exact Hm.
  - (* the act of that name: it is found *)
    assert (Hpos : 0 < act_id r).
    { unfold act_ids_given in Hids. rewrite Forall_forall in Hids.
      assert (Hin : In r (acts_named actName s)) by (rewrite Hnamed; left; reflexivity).
      unfold acts_named in Hin. apply filter_In in Hin.
      destruct (Hids r (proj1 Hin)). assumption. }
    destruct (insertAct_found env (Some actName) s r (Hh _) Hnamed Hpos)
      as (Hret & Hacts & _).
    assert (Hnamed' : acts_named actName
                        (snd (UsActsTables.insertAct env (Some actName) s)) = [r]).
    { unfold acts_named in *. rewrite Hacts. exact Hnamed. }
    destruct (insertAct_found
                env (Some actName)
                (snd (UsActsTables.insertAct env (Some actName) s)) r
                (Hh _) Hnamed' Hpos)
      as (Hret2 & Hacts2 & _).
    exists (act_id r).
    split; [exact Hret|]. split; [exists r; split; [exact Hnamed' | reflexivity]|].
    split; [left; exact Hacts|].
    split; [|split; [exact Hret2 | exact Hacts2]].
    unfold act_names_distinct. rewrite Hacts. exact Hdistinct.
Qed.

Lemma insertAct_gets_or_creates_witness :
  exists i,
    fst (UsActsTables.insertAct Scenario.a_b_c (Some "Code of Alabama")
                                (no_acts Scenario.w0)) = Ret i
    /\ fst (UsActsTables.insertAct
              Scenario.a_b_c (Some "Code of Alabama")
              (snd (UsActsTables.insertAct Scenario.a_b_c (Some "Code of Alabama")
                                           (no_acts Scenario.w0)))) = Ret i.
Proof.
  destruct (insertAct_gets_or_creates Scenario.a_b_c "Code of Alabama"
                                      (no_acts Scenario.w0))
    as [i (H1 & _ & _ & _ & H2 & _)].
  - intros t. reflexivity.
  - constructor.
  - constructor.
  - simpl. lia.
  - exists i. split; [exact H1 | exact H2].
Defined.

(** A refused lookup is raised again by [insertAct], unless it carries
    the code of [.single()]. *)
Lemma insertAct_refused (env : Env) (actName : option string) (s : ActsWorld)
      (e : Js.Error) :
  fault env (now (base s)) = Some e ->
  Js.code_is e "PGRST116" = false ->
  fst (UsActsTables.insertAct env actName s) = Throw e
  /\ acts (snd (UsActsTables.insertAct env actName s)) = acts s.
Proof.
  intros Hfault Hcode.
  remember (UsActsTables.insertAct env actName s) as run eqn:HR.
  unfold UsActsTables.insertAct, try_catchA in HR. unfold bindA at 1 in HR.
  rewrite getExistingActId_run, Hfault, Hcode in HR.
  unfold throwA in HR. subst run. split; reflexivity.
Qed.

(** X17: where get-or-create ends.  A lookup that the store refuses (with
    a code other than PGRST116) makes [insertAct] raise that error and
    insert nothing.  But two acts under the name make [.single()] fail
    with PGRST116, which [getExistingActId] reads as no act: a third is
    inserted.  And for a document without [act_name] the lookup asks for
    the name [undefined] while the act is stored without a name: every
    call inserts one more act. *)
Theorem insertAct_where_it_ends
        (env : Env) (actName : option string) (s : ActsWorld) :
  (forall e,
      fault env (now (base s)) = Some e ->
      Js.code_is e "PGRST116" = false ->
      fst (UsActsTables.insertAct env actName s) = Throw e
      /\ acts (snd (UsActsTables.insertAct env actName s)) = acts s)
  /\ (healthy_store env ->
      2 <= length (acts_named (show actName) s) ->
      fst (UsActsTables.insertAct env actName s) = Ret (next_act_id s)
      /\ acts (snd (UsActsTables.insertAct env actName s))
         = acts s ++ [mkActRow (next_act_id s) actName "US"])
  /\ (healthy_store env ->
      actName = None ->
      acts_named "undefined" s = [] ->
      acts (snd (UsActsTables.insertAct
                   env None (snd (UsActsTables.insertAct env None s))))
      = acts s ++ [mkActRow (next_act_id s) None "US";
                   mkActRow (S (next_act_id s)) None "US"]).
Proof.
  split; [|split].
  - intros e Hfault Hcode. exact (insertAct_refused env actName s e Hfault Hcode).
  - intros Hh Htwo.
    destruct (insertAct_created env actName s (Hh _) (Hh _)) as (Hret & Hacts & _);
      [lia | auto].
  - intros Hh Hname Hnone.
    destruct (insertAct_created env None s (Hh _) (Hh _)) as (_ & Hacts & Hnext & _).
    { cbn [show]. rewrite Hnone. simpl. lia. }
    destruct (insertAct_created
                env None (snd (UsActsTables.insertAct env None s)) (Hh _) (Hh _))
      as (_ & Hacts' & _).
    { cbn [show]. unfold acts_named in *. rewrite Hacts, filter_app, Hnone.
      simpl. lia. }
    rewrite Hacts', Hacts, Hnext, <- app_assoc. reflexivity.
Qed.

Lemma insertAct_where_it_ends_witness :
  fst (UsActsTables.insertAct Scenario.store_unavailable (Some "Code of Alabama")
                              (no_acts Scenario.w0))
  = Throw Scenario.store_down
  /\ acts (snd (UsActsTables.insertAct
                  Scenario.a_b_c None
                  (snd (UsActsTables.insertAct Scenario.a_b_c None
                                               (no_acts Scenario.w0)))))
     = [mkActRow 1 None "US"; mkActRow 2 None "US"].
Proof.
  split.
  - apply (proj1 (insertAct_where_it_ends Scenario.store_unavailable
                                          (Some "Code of Alabama")
                                          (no_acts Scenario.w0))
                 Scenario.store_down);
      reflexivity.
  - apply (proj2 (proj2 (insertAct_where_it_ends Scenario.a_b_c None
                                                 (no_acts Scenario.w0)))).
    + intros t. reflexivity.
    + reflexivity.
    + reflexivity.
Defined.

Lemma checkIfProcessed_run (env : Env) (siteMapUrl : string) (s : ActsWorld) :
  exists w',
    UsActsTables.checkIfProcessed env siteMapUrl s
    = (Ret (match fault env (now (base s)) with
            | Some _ => false
            | None => 0 <? length (sitemap_marks siteMapUrl s)
            end),
       mkActsWorld w' (acts s) (next_act_id s) (acts_sections_scraping_sitemap s))
    /\ db w' = db (base s) /\ now w' = S (now (base s)).
Proof.
  unfold UsActsTables.checkIfProcessed, UsActsTables.select_sitemap,
    UsActsTables.acts_request, sitemap_marks.
  unfold bindA at 1.
  destruct (fault env (now (base s))) as [e|].
  - unfold bindA at 1. rewrite liftA_console_log_run.
    eexists. split; [reflexivity|]. split; reflexivity.
  - eexists. split; [reflexivity|]. split; reflexivity.
Qed.

Lemma upsertSiteMap_run (env : Env) (siteMapUrl : string) (s : ActsWorld) :
  exists w',
    UsActsTables.upsertSiteMap env siteMapUrl s
    = (Ret tt,
       mkActsWorld
         w' (acts s) (next_act_id s)
         (if match fault env (now (base s)) with
             | Some _ => false
             | None => 0 <? length (sitemap_marks siteMapUrl s)
             end
          then acts_sections_scraping_sitemap s
          else
            match fault env (S (now (base s))) with
            | Some _ => acts_sections_scraping_sitemap s
            | None =>
                acts_sections_scraping_sitemap s
                  ++ [mkSitemapRow siteMapUrl true (S (now (base s)))]
            end))
    /\ db w' = db (base s)
    /\ S (now (base s)) <= now w'.
Proof.
  unfold UsActsTables.upsertSiteMap. unfold bindA at 1.
  destruct (checkIfProcessed_run env siteMapUrl s) as [w1 (Hcheck & Hdb & Hnow)].
  rewrite Hcheck.
  destruct (match fault env (now (base s)) with
            | Some _ => false
            | None => 0 <? length (sitemap_marks siteMapUrl s)
            end).
  - unfold bindA at 1. rewrite liftA_console_log_run.
    cbn [base acts next_act_id acts_sections_scraping_sitemap db now trace].
    eexists. split; [reflexivity|]. cbn [db now]. split; [exact Hdb | lia].
  - unfold bindA at 1. rewrite liftA_console_log_run.
    cbn [base acts next_act_id acts_sections_scraping_sitemap db now trace].
    unfold bindA at 1. unfold UsActsTables.insert_sitemap, UsActsTables.acts_request.
    cbn [base acts next_act_id acts_sections_scraping_sitemap db now trace].
    rewrite Hnow.
    destruct (fault env (S (now (base s)))) as [e|].
    + cbn [error_of]. rewrite liftA_console_log_run.
      cbn [base acts next_act_id acts_sections_scraping_sitemap db now trace].
      eexists. split; [reflexivity|]. cbn [db now]. split; [exact Hdb | lia].
    + cbn [fst snd error_of retA].
      eexists. split; [reflexivity|]. cbn [db now]. split; [exact Hdb | lia].
Qed.

Lemma sitemap_marks_rows (siteMapUrl : string) (w : World) (a : list ActRow)
      (n : nat) (rows : list SitemapRow) :
  sitemap_marks siteMapUrl (mkActsWorld w a n rows)
  = filter (fun r => String.eqb (sm_url r) siteMapUrl && sm_processed r) rows.
Proof. reflexivity. Qed.

(** X18: marking a sitemap.  [upsertSiteMap] never raises.  With a store
    that answers, the sitemap is then reported as processed by
    [checkIfProcessed], a second [upsertSiteMap] adds nothing, and a
    sitemap that was marked is not marked again.  But when the store
    refuses the check and then takes the insert, a row is added whether the
    sitemap was marked or not. *)
Theorem upsertSiteMap_marks_once
        (env : Env) (siteMapUrl : string) (s : ActsWorld) :
  fst (UsActsTables.upsertSiteMap env siteMapUrl s) = Ret tt
  /\ (healthy_store env ->
      fst (UsActsTables.checkIfProcessed
             env siteMapUrl (snd (UsActsTables.upsertSiteMap env siteMapUrl s)))
      = Ret true
      /\ acts_sections_scraping_sitemap
           (snd (UsActsTables.upsertSiteMap
                   env siteMapUrl
                   (snd (UsActsTables.upsertSiteMap env siteMapUrl s))))
         = acts_sections_scraping_sitemap
             (snd (UsActsTables.upsertSiteMap env siteMapUrl s))
      /\ (sitemap_marks siteMapUrl s <> [] ->
          acts_sections_scraping_sitemap
            (snd (UsActsTables.upsertSiteMap env siteMapUrl s))
          = acts_sections_scraping_sitemap s))
  /\ (forall e,
         fault env (now (base s)) = Some e ->
         fault env (S (now (base s))) = None ->
         acts_sections_scraping_sitemap
           (snd (UsActsTables.upsertSiteMap env siteMapUrl s))
         = acts_sections_scraping_sitemap s
             ++ [mkSitemapRow siteMapUrl true (S (now (base s)))]).
Proof.
  destruct (upsertSiteMap_run env siteMapUrl s) as [w1 (Hrun & _ & _)].
  split; [rewrite Hrun; reflexivity|]. split.
  - intros Hh.
    rewrite Hrun in *. cbn [snd]. rewrite !Hh in *.
    set (s1 := mkActsWorld
                 w1 (acts s) (next_act_id s)
                 (if 0 <? length (sitemap_marks siteMapUrl s)
                  then acts_sections_scraping_sitemap s
                  else acts_sections_scraping_sitemap s
                         ++ [mkSitemapRow siteMapUrl true (S (now (base s)))])).
    assert (Hmarked : (0 <? length (sitemap_marks siteMapUrl s1)) = true).
    { unfold s1. rewrite sitemap_marks_rows.
      destruct (0 <? length (sitemap_marks siteMapUrl s)) eqn:Hm.
      - exact Hm.
      - rewrite filter_app. cbn [filter sm_url sm_processed].
        rewrite String.eqb_refl. cbn [andb]. rewrite length_app. simpl.
        apply Nat.ltb_lt. lia. }
    split; [|split].
    + destruct (checkIfProcessed_run env siteMapUrl s1) as [w2 (Hcheck & _ & _)].
      rewrite Hcheck, Hh, Hmarked. reflexivity.
    + destruct (upsertSiteMap_run env siteMapUrl s1) as [w2 (Hrun2 & _ & _)].
      rewrite Hrun2, Hh, Hmarked. reflexivity.
    + intros Hsome. unfold s1. cbn [acts_sections_scraping_sitemap].
      destruct (sitemap_marks siteMapUrl s) as [|r l]; [contradiction|].
      reflexivity.
  - intros e Hcheck Hinsert. rewrite Hrun. cbn [snd acts_sections_scraping_sitemap].
    rewrite Hcheck, Hinsert. reflexivity.
Qed.

Lemma upsertSiteMap_marks_once_witness :
  fst (UsActsTables.checkIfProcessed
         Scenario.a_b_c "https://codes.findlaw.com/sitemap-al.xml"
         (snd (UsActsTables.upsertSiteMap
                 Scenario.a_b_c "https://codes.findlaw.com/sitemap-al.xml"
                 (no_acts Scenario.w0))))
  = Ret true.
Proof.
  apply (proj1 (proj2 (upsertSiteMap_marks_once
                         Scenario.a_b_c "https://codes.findlaw.com/sitemap-al.xml"
                         (no_acts Scenario.w0)))).
  intros t. reflexivity.
Defined.

(* ================================================================= *)
(** ** The acts driver *)

Lemma returnsA_ret {A} (a : A) : returnsA (retA a).
Proof. intros s. exists a, s. reflexivity. Qed.

Lemma returnsA_bind {A B} (m : MA A) (k : A -> MA B) :
  returnsA m -> (forall a, returnsA (k a)) -> returnsA (bindA m k).
Proof.
  intros Hm Hk s. unfold bindA.
  destruct (Hm s) as [a [s1 H1]]. rewrite H1. apply Hk.
Qed.

(** A [try] whose [catch] block returns does return. *)
Lemma returnsA_try_catch {A} (m : MA A) (h : Js.Error -> MA A) :
  (forall e, returnsA (h e)) -> returnsA (try_catchA m h).
Proof.
  intros Hh s. unfold try_catchA.
  destruct (m s) as [[a|e] s1]; [exists a, s1; reflexivity | apply Hh].
Qed.

Lemma returnsA_lift {A} (m : M A) : returns m -> returnsA (liftA m).
Proof.
  intros Hm s. unfold liftA. destruct (Hm (base s)) as [a [w' H]].
  rewrite H. eexists. eexists. reflexivity.
Qed.

Lemma returnsA_mapA {A B} (f : A -> MA B) (xs : list A) :
  (forall x, returnsA (f x)) -> returnsA (mapA f xs).
Proof.
  intros Hf. induction xs as [|x r IH]; cbn [mapA]; [apply returnsA_ret|].
  apply returnsA_bind; [apply Hf|]. intros y.
  apply returnsA_bind; [exact IH|]. intros ys. apply returnsA_ret.
Qed.

Lemma returnsA_forA_ {A} (f : A -> MA unit) (xs : list A) :
  (forall x, returnsA (f x)) -> returnsA (forA_ f xs).
Proof.
  intros Hf. induction xs as [|x r IH]; cbn [forA_]; [apply returnsA_ret|].
  apply returnsA_bind; [apply Hf|]. intros _. exact IH.
Qed.

Lemma keeps_ret {A} (a : A) : keeps_sitemaps (retA a).
Proof. intros s. reflexivity. Qed.

Lemma keeps_throw {A} (e : Js.Error) : keeps_sitemaps (@throwA A e).
Proof. intros s. reflexivity. Qed.

Lemma keeps_bind {A B} (m : MA A) (k : A -> MA B) :
  keeps_sitemaps m -> (forall a, keeps_sitemaps (k a)) -> keeps_sitemaps (bindA m k).
Proof.
  intros Hm Hk s. unfold bindA. specialize (Hm s).
  destruct (m s) as [[a|e] s1]; cbn [snd] in *; [|exact Hm].
  rewrite (Hk a s1). exact Hm.
Qed.

Lemma keeps_try_catch {A} (m : MA A) (h : Js.Error -> MA A) :
  keeps_sitemaps m -> (forall e, keeps_sitemaps (h e)) ->
  keeps_sitemaps (try_catchA m h).
Proof.
  intros Hm Hh s. unfold try_catchA. specialize (Hm s).
  destruct (m s) as [[a|e] s1]; cbn [snd] in *; [exact Hm|].
  rewrite (Hh e s1). exact Hm.
Qed.

Lemma keeps_lift {A} (m : M A) : keeps_sitemaps (liftA m).
Proof. intros s. reflexivity. Qed.

Lemma keeps_mapA {A B} (f : A -> MA B) (xs : list A) :
  (forall x, keeps_sitemaps (f x)) -> keeps_sitemaps (mapA f xs).
Proof.
  intros Hf. induction xs as [|x r IH]; cbn [mapA]; [apply keeps_ret|].
  apply keeps_bind; [apply Hf|]. intros y.
  apply keeps_bind; [exact IH|]. intros ys. apply keeps_ret.
Qed.

Lemma keeps_forA_ {A} (f : A -> MA unit) (xs : list A) :
  (forall x, keeps_sitemaps (f x)) -> keeps_sitemaps (forA_ f xs).
Proof.
  intros Hf. induction xs as [|x r IH]; cbn [forA_]; [apply keeps_ret|].
  apply keeps_bind; [apply Hf|]. intros _. exact IH.
Qed.

Lemma keeps_acts_request {A} (env : Env) (ev : Event)
      (run : nat -> ActsWorld -> PgResult A * (list ActRow * nat * list SitemapRow)) :
  (forall t s, snd (snd (run t s)) = acts_sections_scraping_sitemap s) ->
  keeps_sitemaps (UsActsTables.acts_request env ev run).
Proof.
  intros Hrun s. unfold UsActsTables.acts_request.
  destruct (fault env (now (base s))); cbn [snd acts_sections_scraping_sitemap];
    [reflexivity | apply Hrun].
Qed.

Lemma keeps_fetchA (worker : nat -> string -> ActsNetOutcome) (u : string) :
  keeps_sitemaps (UsActsDriver.fetchA worker u).
Proof.
  intros s. unfold UsActsDriver.fetchA.
  destruct (worker (now (base s)) u); reflexivity.
Qed.

Lemma keeps_jsonA (r : ActsResponse) : keeps_sitemaps (UsActsDriver.jsonA r).
Proof. intros s. unfold UsActsDriver.jsonA. destruct (a_body r); reflexivity. Qed.

Lemma keeps_fetchWithRetry (worker : nat -> string -> ActsNetOutcome) (u : string)
      (retries delayMs : nat) :
  keeps_sitemaps (UsActsDriver.fetchWithRetry worker u retries delayMs).
Proof.
  unfold UsActsDriver.fetchWithRetry.
  assert (H : forall fuel i,
             keeps_sitemaps
               (UsActsDriver.fetchWithRetry_from worker u retries delayMs i fuel)).
  { induction fuel as [|f IH]; intros i;
      cbn [UsActsDriver.fetchWithRetry_from]; [apply keeps_ret|].
    apply keeps_bind; [apply keeps_fetchA|]. intros response.
    destruct (a_ok response); [apply keeps_ret|].
    apply keeps_bind; [|intros _; apply IH].
    destruct (i <? retries - 1); [apply keeps_lift | apply keeps_ret]. }
  apply H.
Qed.

Lemma keeps_insertAct (env : Env) (actName : option string) :
  keeps_sitemaps (UsActsTables.insertAct env actName).
Proof.
  unfold UsActsTables.insertAct.
  apply keeps_try_catch; [|intros e; apply keeps_throw].
  apply keeps_bind.
  - unfold UsActsTables.getExistingActId.
    apply keeps_try_catch.
    + apply keeps_bind.
      * unfold UsActsTables.select_act. apply keeps_acts_request. reflexivity.
      * intros r. destruct (error_of r) as [e|]; [|apply keeps_ret].
        destruct (Js.code_is e "PGRST116"); [apply keeps_ret | apply keeps_throw].
    + intros e. apply keeps_bind; [apply keeps_lift | intros _; apply keeps_throw].
  - intros existingActId. destruct (truthy_act_id existingActId); [apply keeps_ret|].
    apply keeps_bind.
    + unfold UsActsTables.insert_act. apply keeps_acts_request. reflexivity.
    + intros r. destruct (error_of r) as [e|]; [apply keeps_throw|].
      destruct (data_of r); [apply keeps_ret | apply keeps_throw].
Qed.

Lemma ensures_ret {A} (P : A -> Prop) (a : A) : P a -> ensures P (retA a).
Proof. intros Ha s a' s' H. inversion H; subst. exact Ha. Qed.

Lemma ensures_throw {A} (P : A -> Prop) (e : Js.Error) : ensures P (@throwA A e).
Proof. intros s a s' H. discriminate. Qed.

Lemma ensures_bind {A B} (Q : A -> Prop) (P : B -> Prop) (m : MA A) (k : A -> MA B) :
  ensures Q m -> (forall a, Q a -> ensures P (k a)) -> ensures P (bindA m k).
Proof.
  intros Hm Hk s b s' H. unfold bindA in H.
  destruct (m s) as [[a|e] s1] eqn:Hms; [|discriminate].
  exact (Hk a (Hm s a s1 Hms) s1 b s' H).
Qed.

(** A response handed back by [fetchWithRetry] is one the worker sent. *)
Lemma fetchWithRetry_from_worker
      (worker : nat -> string -> ActsNetOutcome) (u : string) (retries delayMs : nat) :
  forall fuel i,
    ensures (fun response =>
               match response with
               | AfrResponse r => exists t, worker t u = ActsResponds r
               | AfrFailed _ _ _ => True
               end)
            (UsActsDriver.fetchWithRetry_from worker u retries delayMs i fuel).
Proof.
  induction fuel as [|f IH]; intros i; cbn [UsActsDriver.fetchWithRetry_from].
  - apply ensures_ret. exact I.
  - apply (ensures_bind (fun r => exists t, worker t u = ActsResponds r)).
    + intros s r s' H. unfold UsActsDriver.fetchA in H.
      destruct (worker (now (base s)) u) as [r'|e] eqn:Hw; [|discriminate].
      inversion H; subst. exists (now (base s)). exact Hw.
    + intros response Hresponse.
      destruct (a_ok response); [apply ensures_ret; exact Hresponse|].
      apply (ensures_bind (fun _ => True)); [intros s a s' _; exact I|].
      intros _ _. apply IH.
Qed.

(** With a worker that never answers [null], the result of a section page
    is never [null]. *)
Lemma scrape_section_not_null
      (env : Env) (worker : nat -> string -> ActsNetOutcome) (u : string) :
  never_null worker ->
  yields not_null (UsActsDriver.scrape_section env worker u).
Proof.
  intros Hworker s. unfold UsActsDriver.scrape_section, try_catchA.
  match goal with
  | |- context [let (o, s') := ?body s in _] =>
      assert (Hbody : ensures not_null body)
  end.
  { apply (ensures_bind (fun _ => True)); [intros s0 a s' _; exact I|].
    intros sectionExists _. destruct sectionExists.
    - apply (ensures_bind (fun _ => True)); [intros s0 a s' _; exact I|].
      intros _ _. apply ensures_ret. discriminate.
    - apply (ensures_bind _ _ _ _
                          (fetchWithRetry_from_worker worker _ default_retries
                                                      default_delayMs
                                                      default_retries 0)).
      intros [r|a b c] Hr; [|apply ensures_ret; discriminate].
      destruct (a_ok r); [|apply ensures_ret; discriminate].
      destruct Hr as [t Ht]. pose proof (Hworker t _ r Ht) as Hnot.
      apply (ensures_bind (fun b => b <> ActsNull)).
      + intros s0 b s' H. unfold UsActsDriver.jsonA in H.
        destruct (a_body r); inversion H; subst; assumption.
      + intros b Hb. apply ensures_ret.
        destruct b; [discriminate | discriminate | contradiction | discriminate]. }
  match goal with
  | |- context [let (o, s') := ?body s in _] =>
      specialize (Hbody s); destruct (body s) as [[o|e] s1]
  end.
  - exists o, s1. split; [reflexivity|]. exact (Hbody o s1 eq_refl).
  - eexists. eexists. split; [reflexivity|]. discriminate.
Qed.

Lemma yields_mapA {A B} (P : B -> Prop) (f : A -> MA B) (xs : list A) :
  (forall x, yields P (f x)) -> yields (Forall P) (mapA f xs).
Proof.
  intros Hf. induction xs as [|x r IH]; intros s; cbn [mapA].
  - exists [], s. split; [reflexivity | constructor].
  - unfold bindA at 1. destruct (Hf x s) as [y [s1 [Hy Py]]]. rewrite Hy.
    unfold bindA at 1. destruct (IH s1) as [ys [s2 [Hys Pys]]]. rewrite Hys.
    exists (y :: ys), s2. split; [reflexivity | constructor; assumption].
Qed.

Lemma returnsA_forA_on {A} (P : A -> Prop) (f : A -> MA unit) (xs : list A) :
  Forall P xs -> (forall x, P x -> returnsA (f x)) -> returnsA (forA_ f xs).
Proof.
  intros Hxs Hf. induction Hxs as [|x r Hx _ IH]; cbn [forA_]; [apply returnsA_ret|].
  apply returnsA_bind; [apply Hf; exact Hx|]. intros _. exact IH.
Qed.

(** Storing a result that is not [null] comes to its end. *)
Lemma store_result_returns (env : Env) (result : option ActsResult) :
  not_null result -> returnsA (UsActsDriver.store_result env result).
Proof.
  intros Hsome. destruct result as [result|]; [|contradiction].
  cbn [UsActsDriver.store_result].
  destruct (opt_string_eqb (ar_status result) "error"
            || opt_string_eqb (ar_status result) "skipped").
  - apply returnsA_lift. apply returns_emit.
  - apply returnsA_try_catch. intros e.
    apply returnsA_bind; [apply returnsA_lift; apply returns_emit|].
    intros _. apply returnsA_lift. apply returns_emit.
Qed.

(** Whatever the worker and the store answer for a page, the sitemaps are
    as they were after the batch. *)
Lemma process_batch_keeps
      (env : Env) (worker : nat -> string -> ActsNetOutcome) (batch : list string) :
  keeps_sitemaps (UsActsDriver.process_batch env worker batch).
Proof.
  unfold UsActsDriver.process_batch.
  apply keeps_bind.
  - apply keeps_mapA. intros u. unfold UsActsDriver.scrape_section.
    apply keeps_try_catch; [|intros e; apply keeps_ret].
    apply keeps_bind; [apply keeps_lift|]. intros sectionExists.
    destruct sectionExists.
    + apply keeps_bind; [apply keeps_lift | intros _; apply keeps_ret].
    + apply keeps_bind; [apply keeps_fetchWithRetry|].
      intros [r|a b c]; [|apply keeps_ret].
      destruct (a_ok r); [|apply keeps_ret].
      apply keeps_bind; [apply keeps_jsonA | intros b; apply keeps_ret].
  - intros results. apply keeps_forA_. intros [result|];
      cbn [UsActsDriver.store_result]; [|apply keeps_throw].
    destruct (opt_string_eqb (ar_status result) "error"
              || opt_string_eqb (ar_status result) "skipped");
      [apply keeps_lift|].
    apply keeps_try_catch.
    + apply keeps_bind; [apply keeps_insertAct | intros actId; apply keeps_lift].
    + intros e. apply keeps_bind; [apply keeps_lift | intros _; apply keeps_lift].
Qed.

(** With a worker that never answers [null], the batch comes to its end
    whatever the worker and the store answer for a page. *)
Lemma process_batch_returns
      (env : Env) (worker : nat -> string -> ActsNetOutcome) (batch : list string) :
  never_null worker ->
  returnsA (UsActsDriver.process_batch env worker batch).
Proof.
  intros Hworker s. unfold UsActsDriver.process_batch, bindA.
  destruct (yields_mapA not_null (UsActsDriver.scrape_section env worker) batch
                        (fun u => scrape_section_not_null env worker u Hworker) s)
    as [results [s1 [Hmap Hresults]]].
  rewrite Hmap.
  apply (returnsA_forA_on not_null _ results Hresults).
  intros result Hresult. apply store_result_returns. exact Hresult.
Qed.

Lemma sitemap_marks_same (u : string) (s s' : ActsWorld) :
  acts_sections_scraping_sitemap s' = acts_sections_scraping_sitemap s ->
  sitemap_marks u s' = sitemap_marks u s.
Proof. unfold sitemap_marks. intros H. rewrite H. reflexivity. Qed.

(** The pages of a sitemap, batch after batch: the sitemaps are as they
    were after the loop, and with a worker that never answers [null] the
    loop comes to its end. *)
Lemma page_loop_keeps
      (env : Env) (worker : nat -> string -> ActsNetOutcome)
      (pages : list (list string)) (s : ActsWorld) :
  acts_sections_scraping_sitemap
    (snd (forA_ (UsActsDriver.process_batch env worker) pages s))
  = acts_sections_scraping_sitemap s.
Proof.
  exact (keeps_forA_ (UsActsDriver.process_batch env worker) pages
                     (process_batch_keeps env worker) s).
Qed.

Lemma page_loop_returns
      (env : Env) (worker : nat -> string -> ActsNetOutcome)
      (pages : list (list string)) (s : ActsWorld) :
  never_null worker ->
  fst (forA_ (UsActsDriver.process_batch env worker) pages s) = Ret tt.
Proof.
  intros Hworker.
  destruct (returnsA_forA_ (UsActsDriver.process_batch env worker) pages
                           (fun b => process_batch_returns env worker b Hworker) s)
    as [[] [s' Hrun]].
  rewrite Hrun. reflexivity.
Qed.

(** The ways the turn of a sitemap that is not skipped can end, with a
    store that answers: the sitemap was marked and nothing is done; the
    listing was served, the loop over the pages came to its end and the
    sitemap is marked; or an error left the turn and the sitemaps are as
    they were. *)
Lemma process_sitemap_cases
      (env : Env) (worker : nat -> string -> ActsNetOutcome)
      (cfg : UsActsDriver.Config) (siteMapUrl : string) (s : ActsWorld) :
  includes siteMapUrl "/cfr/" = false ->
  healthy_store env ->
  (sitemap_marks siteMapUrl s <> []
   /\ fst (UsActsDriver.process_sitemap env worker cfg siteMapUrl s) = Ret tt
   /\ acts_sections_scraping_sitemap
        (snd (UsActsDriver.process_sitemap env worker cfg siteMapUrl s))
      = acts_sections_scraping_sitemap s)
  \/ (sitemap_marks siteMapUrl s = []
      /\ ((exists r t,
              worker (S (now (base s)))
                     (UsActsDriver.cloudFlareUrl +++ "/pages?sitemap=" +++ siteMapUrl)
              = ActsResponds r
              /\ a_body r <> ActsMalformed
              /\ a_body r <> ActsNull
              /\ fst (UsActsDriver.process_sitemap env worker cfg siteMapUrl s)
                 = Ret tt
              /\ acts_sections_scraping_sitemap
                   (snd (UsActsDriver.process_sitemap env worker cfg siteMapUrl s))
                 = acts_sections_scraping_sitemap s
                     ++ [mkSitemapRow siteMapUrl true t])
          \/ (exists e,
                 (worker (S (now (base s)))
                         (UsActsDriver.cloudFlareUrl +++ "/pages?sitemap="
                            +++ siteMapUrl)
                  = ActsNetworkError e
                  \/ exists r,
                      worker (S (now (base s)))
                             (UsActsDriver.cloudFlareUrl +++ "/pages?sitemap="
                                +++ siteMapUrl)
                      = ActsResponds r
                      /\ ((a_body r = ActsMalformed /\ e = Js.SyntaxError_json)
                          \/ (a_body r = ActsNull /\ e = TypeError_null_length)
                          \/ exists pages s2,
                              fst (forA_ (UsActsDriver.process_batch env worker)
                                         pages s2)
                              = Throw e))
                 /\ fst (UsActsDriver.process_sitemap env worker cfg siteMapUrl s)
                    = Throw e
                 /\ acts_sections_scraping_sitemap
                      (snd (UsActsDriver.process_sitemap env worker cfg siteMapUrl s))
                    = acts_sections_scraping_sitemap s))).
Proof.
  intros Hcfr Hh.
  remember (UsActsDriver.process_sitemap env worker cfg siteMapUrl s) as run eqn:HR.
  unfold UsActsDriver.process_sitemap in HR.
  rewrite Hcfr in HR. unfold bindA at 1 in HR.
  destruct (checkIfProcessed_run env siteMapUrl s) as [w1 (Hcheck & _ & Hnow1)].
  rewrite Hcheck, Hh in HR.
  destruct (0 <? length (sitemap_marks siteMapUrl s)) eqn:Hmarked.
  - (* the sitemap is marked: nothing more is done *)
    left. unfold retA in HR. subst run. cbn [fst snd].
    apply Nat.ltb_lt in Hmarked.
    split; [|split; reflexivity].
    intros Hnil. rewrite Hnil in Hmarked. simpl in Hmarked. lia.
  - right.
    apply Nat.ltb_ge in Hmarked.
    assert (Hnone : sitemap_marks siteMapUrl s = [])
      by (destruct (sitemap_marks siteMapUrl s); [reflexivity | simpl in Hmarked; lia]).
    split; [exact Hnone|].
    unfold bindA at 1 in HR. unfold UsActsDriver.fetchA in HR.
    cbn [base now db trace acts next_act_id acts_sections_scraping_sitemap] in HR.
    rewrite Hnow1 in HR.
    destruct (worker (S (now (base s)))
                     (UsActsDriver.cloudFlareUrl +++ "/pages?sitemap=" +++ siteMapUrl))
      as [r|e] eqn:Hworker.
    2:{ right. exists e. subst run. cbn [fst snd acts_sections_scraping_sitemap].
        split; [left; reflexivity|]. split; reflexivity. }
    unfold bindA at 1 in HR. unfold UsActsDriver.jsonA in HR.
    assert (Hloop_case :
              forall urls,
                run = bindA
                        (forA_ (UsActsDriver.process_batch env worker)
                               (batches urls (UsActsDriver.batchSize cfg)))
                        (fun _ =>
                           bindA (UsActsTables.upsertSiteMap env siteMapUrl)
                                 (fun _ => liftA (sleep 20000)))
                        (mkActsWorld
                           (mkWorld (db w1) (S (S (now (base s))))
                                    (trace w1
                                       ++ [EvFetch
                                             (UsActsDriver.cloudFlareUrl
                                                +++ "/pages?sitemap="
                                                +++ siteMapUrl)]))
                           (acts s) (next_act_id s)
                           (acts_sections_scraping_sitemap s)) ->
                (exists t,
                    fst run = Ret tt
                    /\ acts_sections_scraping_sitemap (snd run)
                       = acts_sections_scraping_sitemap s
                           ++ [mkSitemapRow siteMapUrl true t])
                \/ (exists e,
                       (exists pages s2,
                           fst (forA_ (UsActsDriver.process_batch env worker)
                                      pages s2) = Throw e)
                       /\ fst run = Throw e
                       /\ acts_sections_scraping_sitemap (snd run)
                          = acts_sections_scraping_sitemap s)).
    { intros urls Hrun. unfold bindA at 1 in Hrun.
      match type of Hrun with
      | context [forA_ _ ?pages ?s2] =>
          pose proof (page_loop_keeps env worker pages s2) as Hrows;
          destruct (forA_ (UsActsDriver.process_batch env worker) pages s2)
            as [[[]|e] s3] eqn:Hloop
      end.
      - left. cbn [snd acts_sections_scraping_sitemap] in Hrows.
        unfold bindA at 1 in Hrun.
        destruct (upsertSiteMap_run env siteMapUrl s3) as [w4 (Hupsert & _ & _)].
        rewrite Hupsert, !Hh in Hrun.
        rewrite (sitemap_marks_same siteMapUrl s s3 Hrows), Hnone in Hrun.
        cbn [length Nat.ltb Nat.leb] in Hrun. cbv iota in Hrun.
        rewrite Hrun. cbn [fst snd liftA base acts next_act_id
                           acts_sections_scraping_sitemap].
        exists (S (now (base s3))).
        split; [reflexivity|]. rewrite Hrows. reflexivity.
      - right. exists e. rewrite Hrun. cbn [fst snd].
        split; [|split; [reflexivity | exact Hrows]].
        eexists. eexists. rewrite Hloop. reflexivity. }
    destruct (a_body r) as [l|o| |] eqn:Hbody.
    + unfold retA at 1 in HR. unfold bindA at 1 in HR.
      cbn [UsActsDriver.page_urls] in HR. unfold retA at 1 in HR.
      destruct (Hloop_case _ HR) as [(t & Hret & Hrows) | (e & Hwhy & Hthrow & Hrows)].
      * left. exists r, t. rewrite Hbody.
        split; [reflexivity|]. split; [discriminate|]. split; [discriminate|].
        split; assumption.
      * right. exists e. split; [right; exists r; auto|]. split; assumption.
    + unfold retA at 1 in HR. unfold bindA at 1 in HR.
      cbn [UsActsDriver.page_urls] in HR. unfold retA at 1 in HR.
      destruct (Hloop_case _ HR) as [(t & Hret & Hrows) | (e & Hwhy & Hthrow & Hrows)].
      * left. exists r, t. rewrite Hbody.
        split; [reflexivity|]. split; [discriminate|]. split; [discriminate|].
        split; assumption.
      * right. exists e. split; [right; exists r; auto|]. split; assumption.
    + right. exists TypeError_null_length. unfold retA at 1 in HR.
      unfold bindA at 1 in HR. cbn [UsActsDriver.page_urls] in HR.
      unfold throwA in HR. subst run.
      cbn [fst snd acts_sections_scraping_sitemap].
      split; [right; exists r; auto|]. split; reflexivity.
    + right. exists Js.SyntaxError_json. unfold throwA in HR. subst run.
      cbn [fst snd acts_sections_scraping_sitemap].
      split; [right; exists r; auto|]. split; reflexivity.
Qed.

Lemma sitemap_marks_added (u : string) (s s' : ActsWorld) (t : nat) :
  acts_sections_scraping_sitemap s'
  = acts_sections_scraping_sitemap s ++ [mkSitemapRow u true t] ->
  sitemap_marks u s' <> [].
Proof.
  intros Hrows. unfold sitemap_marks. rewrite Hrows, filter_app.
  cbn [filter sm_url sm_processed]. rewrite String.eqb_refl. cbn [andb].
  intros Hnil. apply app_eq_nil in Hnil. destruct Hnil as [_ Hnil]. discriminate.
Qed.

(** X19: when a sitemap of the acts driver is marked.  A sitemap whose
    URL contains [/cfr/] is skipped without a request.  For any other
    sitemap, with a store that answers, a batch size above zero and a
    worker that never answers with the JSON value [null]: once the
    listing of its pages is served as a JSON array, the sitemap is marked
    as processed when its turn ends, whatever the worker and the store
    answered for each page, so a section that failed is not asked for
    again.  And when the request for the listing raises, whatever the
    worker answers otherwise, the error leaves the driver and the sitemap
    stays as it was, unmarked. *)
Theorem acts_sitemap_marked
        (env : Env) (worker : nat -> string -> ActsNetOutcome)
        (cfg : UsActsDriver.Config) (siteMapUrl : string) (s : ActsWorld) :
  (includes siteMapUrl "/cfr/" = true ->
   fst (UsActsDriver.process_sitemap env worker cfg siteMapUrl s) = Ret tt
   /\ now (base (snd (UsActsDriver.process_sitemap env worker cfg siteMapUrl s)))
      = now (base s)
   /\ acts_sections_scraping_sitemap
        (snd (UsActsDriver.process_sitemap env worker cfg siteMapUrl s))
      = acts_sections_scraping_sitemap s)
  /\ (includes siteMapUrl "/cfr/" = false ->
      healthy_store env ->
      (0 < UsActsDriver.batchSize cfg ->
       never_null worker ->
       forall r l,
         worker (S (now (base s)))
                (UsActsDriver.cloudFlareUrl +++ "/pages?sitemap=" +++ siteMapUrl)
         = ActsResponds r ->
         a_body r = ActsLocators l ->
         fst (UsActsDriver.process_sitemap env worker cfg siteMapUrl s) = Ret tt
         /\ sitemap_marks
              siteMapUrl
              (snd (UsActsDriver.process_sitemap env worker cfg siteMapUrl s))
            <> [])
      /\ (forall e,
             worker (S (now (base s)))
                    (UsActsDriver.cloudFlareUrl +++ "/pages?sitemap=" +++ siteMapUrl)
             = ActsNetworkError e ->
             sitemap_marks siteMapUrl s = [] ->
             fst (UsActsDriver.process_sitemap env worker cfg siteMapUrl s) = Throw e
             /\ sitemap_marks
                  siteMapUrl
                  (snd (UsActsDriver.process_sitemap env worker cfg siteMapUrl s))
                = [])).
Proof.
  split.
  - intros Hcfr. unfold UsActsDriver.process_sitemap. rewrite Hcfr.
    rewrite liftA_console_log_run. split; [reflexivity|]. split; reflexivity.
  - intros Hcfr Hh.
    destruct (process_sitemap_cases env worker cfg siteMapUrl s Hcfr Hh)
      as [(Hmarked & Hret & Hrows)
         | (Hnone & [(r' & t & Hw & _ & _ & Hret & Hrows)
                    | (e' & Hwhy & Hthrow & Hrows)])].
    + split.
      * intros _ _ r l _ _. split; [exact Hret|].
        rewrite (sitemap_marks_same _ _ _ Hrows). exact Hmarked.
      * intros e _ Hnone. contradiction.
    + split.
      * intros _ _ r l _ _. split; [exact Hret|].
        exact (sitemap_marks_added _ _ _ _ Hrows).
      * intros e Hworker _. congruence.
    + split.
      * intros _ Hnever r l Hworker Hbody. exfalso.
        destruct Hwhy as [Hw | (r' & Hw & Hwhy)]; [congruence|].
        rewrite Hworker in Hw. inversion Hw; subst r'.
        destruct Hwhy as [[Hmal _] | [[Hnull _] | (pages & s2 & Hloop)]];
          [congruence | congruence |].
        rewrite (page_loop_returns env worker pages s2 Hnever) in Hloop.
        discriminate.
      * intros e Hworker _.
        destruct Hwhy as [Hw | (r' & Hw & _)]; [|congruence].
        rewrite Hworker in Hw. inversion Hw; subst e'.
        split; [exact Hthrow|].
        rewrite (sitemap_marks_same _ _ _ Hrows). exact Hnone.
Qed.

Lemma acts_sitemap_marked_witness :
  fst (UsActsDriver.process_sitemap
         Scenario.a_b_c pages_listed_sections_refused UsActsDriver.config
         "sm-al" (no_acts Scenario.w0))
  = Ret tt
  /\ sitemap_marks
       "sm-al"
       (snd (UsActsDriver.process_sitemap
               Scenario.a_b_c pages_listed_sections_refused UsActsDriver.config
               "sm-al" (no_acts Scenario.w0)))
     <> [].
Proof.
  assert (Hh : healthy_store Scenario.a_b_c) by (intros t; reflexivity).
  assert (Hsize : 0 < UsActsDriver.batchSize UsActsDriver.config)
    by (cbn; lia).
  assert (Hnever : never_null pages_listed_sections_refused).
  { intros t u r H. unfold pages_listed_sections_refused in H.
    destruct (String.eqb u (UsActsDriver.cloudFlareUrl +++ "/sitemaps/acts"));
      [inversion H; subst; discriminate|].
    destruct (String.eqb u (UsActsDriver.cloudFlareUrl +++ "/pages?sitemap=sm-al"));
      inversion H; subst; discriminate. }
  exact (proj1 (proj2 (acts_sitemap_marked
                         Scenario.a_b_c pages_listed_sections_refused
                         UsActsDriver.config "sm-al" (no_acts Scenario.w0))
                      eq_refl Hh)
               Hsize Hnever _ _ eq_refl eq_refl).
Defined.

Lemma sitemap_marks_grow (u : string) (s s' : ActsWorld) (added : list SitemapRow) :
  acts_sections_scraping_sitemap s' = acts_sections_scraping_sitemap s ++ added ->
  sitemap_marks u s <> [] ->
  sitemap_marks u s' <> [].
Proof.
  intros Hrows Hmarked. unfold sitemap_marks in *. rewrite Hrows, filter_app.
  intros Hnil. apply app_eq_nil in Hnil. destruct Hnil as [Hnil _]. contradiction.
Qed.

(** The turn of a sitemap that returns, with a store that answers: rows
    are only added, and the sitemap is marked unless it is of the CFR. *)
Lemma process_sitemap_returned
      (env : Env) (worker : nat -> string -> ActsNetOutcome)
      (cfg : UsActsDriver.Config) (siteMapUrl : string) (s : ActsWorld) :
  healthy_store env ->
  fst (UsActsDriver.process_sitemap env worker cfg siteMapUrl s) = Ret tt ->
  (exists added,
      acts_sections_scraping_sitemap
        (snd (UsActsDriver.process_sitemap env worker cfg siteMapUrl s))
      = acts_sections_scraping_sitemap s ++ added)
  /\ (includes siteMapUrl "/cfr/" = false ->
      sitemap_marks siteMapUrl
                    (snd (UsActsDriver.process_sitemap env worker cfg siteMapUrl s))
      <> []).
Proof.
  intros Hh Hret.
  destruct (includes siteMapUrl "/cfr/") eqn:Hcfr.
  - split; [|discriminate].
    exists []. unfold UsActsDriver.process_sitemap. rewrite Hcfr.
    rewrite liftA_console_log_run, app_nil_r. reflexivity.
  - destruct (process_sitemap_cases env worker cfg siteMapUrl s Hcfr Hh)
      as [(Hmarked & _ & Hrows)
         | (Hnone & [(r' & t & _ & _ & _ & _ & Hrows) | (e' & _ & Hthrow & _)])].
    + split; [exists []; rewrite app_nil_r; exact Hrows|].
      intros _. rewrite (sitemap_marks_same _ _ _ Hrows). exact Hmarked.
    + split; [eexists; exact Hrows|].
      intros _. exact (sitemap_marks_added _ _ _ _ Hrows).
    + congruence.
Qed.

Lemma sitemaps_loop_marks
      (env : Env) (worker : nat -> string -> ActsNetOutcome)
      (cfg : UsActsDriver.Config) :
  healthy_store env ->
  forall (urls : list string) (s : ActsWorld),
    fst (forA_ (UsActsDriver.process_sitemap env worker cfg) urls s) = Ret tt ->
    (exists added,
        acts_sections_scraping_sitemap
          (snd (forA_ (UsActsDriver.process_sitemap env worker cfg) urls s))
        = acts_sections_scraping_sitemap s ++ added)
    /\ forall u,
        In u urls -> includes u "/cfr/" = false ->
        sitemap_marks u (snd (forA_ (UsActsDriver.process_sitemap env worker cfg)
                                    urls s))
        <> [].
Proof.
  intros Hh. induction urls as [|x r IH]; intros s Hret.
  - split; [exists []; rewrite app_nil_r; reflexivity|]. intros u [].
  - cbn [forA_] in *. unfold bindA in *.
    pose proof (process_sitemap_returned env worker cfg x s Hh) as Hx.
    destruct (UsActsDriver.process_sitemap env worker cfg x s) as [[[]|e] s1];
      [|discriminate].
    cbn [fst snd] in Hx. destruct (Hx eq_refl) as [[added1 Hrows1] Hmark1].
    destruct (IH s1 Hret) as [[added2 Hrows2] Hmarks].
    split.
    + exists (added1 ++ added2). rewrite Hrows2, Hrows1, app_assoc. reflexivity.
    + intros u [Hu | Hu] Hcfr.
      * subst u. exact (sitemap_marks_grow _ _ _ _ Hrows2 (Hmark1 Hcfr)).
      * exact (Hmarks u Hu Hcfr).
Qed.

(** X20: a run of the acts driver that returns has marked every sitemap
    of the listing that is not of the CFR, with a store that answers and
    whatever the worker and the store answered for the pages: a sitemap
    is never left for a later run because of its sections. *)
Theorem acts_run_marks_sitemaps
        (env : Env) (worker : nat -> string -> ActsNetOutcome)
        (cfg : UsActsDriver.Config) (s : ActsWorld)
        (r : ActsResponse) (urls : list string) :
  healthy_store env ->
  worker (now (base s)) (UsActsDriver.cloudFlareUrl +++ "/sitemaps/acts")
  = ActsResponds r ->
  a_body r = ActsLocators urls ->
  fst (UsActsDriver.scrapFindLaws env worker cfg s) = Ret tt ->
  forall u,
    In u urls -> includes u "/cfr/" = false ->
    sitemap_marks u (snd (UsActsDriver.scrapFindLaws env worker cfg s)) <> [].
Proof.
  intros Hh Hworker Hbody.
  assert (Hrun : UsActsDriver.scrapFindLaws env worker cfg s
                 = forA_ (UsActsDriver.process_sitemap env worker cfg) urls
                         (mkActsWorld
                            (mkWorld (db (base s)) (S (now (base s)))
                                     (trace (base s)
                                        ++ [EvFetch (UsActsDriver.cloudFlareUrl
                                                       +++ "/sitemaps/acts")]))
                            (acts s) (next_act_id s)
                            (acts_sections_scraping_sitemap s))).
  { unfold UsActsDriver.scrapFindLaws. unfold bindA at 1.
    unfold UsActsDriver.fetchA. rewrite Hworker.
    unfold bindA at 1. unfold UsActsDriver.jsonA. rewrite Hbody.
    reflexivity. }
  rewrite Hrun. intros Hret u Hu Hcfr.
  exact (proj2 (sitemaps_loop_marks env worker cfg Hh urls _ Hret) u Hu Hcfr).
Qed.

Lemma acts_run_marks_sitemaps_witness :
  sitemap_marks "sm-al"
                (snd (UsActsDriver.scrapFindLaws
                        Scenario.a_b_c pages_listed_sections_refused
                        UsActsDriver.config (no_acts Scenario.w0)))
  <> [].
Proof.
  assert (Hh : healthy_store Scenario.a_b_c) by (intros t; reflexivity).
  assert (Hret : fst (UsActsDriver.scrapFindLaws
                        Scenario.a_b_c pages_listed_sections_refused
                        UsActsDriver.config (no_acts Scenario.w0)) = Ret tt)
    by (vm_compute; reflexivity).
  exact (acts_run_marks_sitemaps
           Scenario.a_b_c pages_listed_sections_refused UsActsDriver.config
           (no_acts Scenario.w0)
           (mkActsResponse
              true 200
              (ActsLocators ["https://codes.findlaw.com/cfr/sitemap.xml"; "sm-al"]))
           ["https://codes.findlaw.com/cfr/sitemap.xml"; "sm-al"]
           Hh eq_refl eq_refl Hret
           "sm-al" (or_intror (or_introl eq_refl)) eq_refl).
Defined.

(* ================================================================= *)
(** ** The failure path of the Singapore writer *)





(* ================================================================= *)
(** ** Which locators get a ledger entry *)






